(** * ingress2httproute: the gateway-selection and route-synthesis engine

    A shallow embedding of the controller in [internal/controller]
    ([ingress_controller.go] and its helper file) together with the earlier
    revision of the same package that groups rules in a map and sorts the
    translated rules, followed by the properties of the engine.

    Go strings are byte strings: they are modelled by [string] (a list of
    [ascii] bytes).  Named string types of the Kubernetes API ([Hostname],
    [PathType], [Kind], ...) are plain strings here, as they are in Go.
    [int32] fields hold small port numbers and are modelled by [Z]. *)

From Stdlib Require Import ZArith Ascii String List Bool Sorting.Sorted Sorting.Permutation.
From stdpp Require Import base option list gmap strings pretty.

Import ListNotations.
Local Open Scope string_scope.
Local Open Scope list_scope.
Local Open Scope Z_scope.

(* ===================================================================== *)
(** ** The pieces of Go's [strings] and [fmt] packages the controller uses *)
(* ===================================================================== *)

Module GoStrings.

Fixpoint drop (n : nat) (s : string) : string :=
  match n, s with
  | O, _ => s
  | S _, EmptyString => EmptyString
  | S n', String _ s' => drop n' s'
  end.

(** [strings.HasPrefix(s, prefix)] *)
Definition HasPrefix (s prefix : string) : bool := String.prefix prefix s.

(** [strings.TrimPrefix(s, prefix)] *)
Definition TrimPrefix (s prefix : string) : string :=
  if HasPrefix s prefix then drop (String.length prefix) s else s.

(** [strings.HasSuffix(s, suffix)]:
    [len(s) >= len(suffix) && s[len(s)-len(suffix):] == suffix] *)
Definition HasSuffix (s suffix : string) : bool :=
  (String.length suffix <=? String.length s)%nat
  && String.eqb (drop (String.length s - String.length suffix) s) suffix.

(** Simple case folding of one byte.  Hostnames are ASCII, and on ASCII
    strings [strings.EqualFold] folds exactly the letters A-Z onto a-z.
    On other strings Go decodes runes and folds them by Unicode's tables;
    that is not modelled here, where bytes outside ASCII are compared as
    they are.  A property that depends on the result of the comparison is
    therefore stated for ASCII strings. *)
Definition fold_byte (c : ascii) : ascii :=
  let n := nat_of_ascii c in
  if ((65 <=? n) && (n <=? 90))%nat then ascii_of_nat (n + 32) else c.

(** [strings.EqualFold(s, t)] *)
Fixpoint EqualFold (s t : string) : bool :=
  match s, t with
  | EmptyString, EmptyString => true
  | String a s', String b t' => Ascii.eqb (fold_byte a) (fold_byte b) && EqualFold s' t'
  | _, _ => false
  end.

(** [strings.ReplaceAll(s, old, new)] for a non-empty [old]: the
    non-overlapping occurrences of [old], found from the left, are replaced
    by [new].  [skip] counts the bytes of a matched occurrence still to be
    passed over. *)
Fixpoint replace_from (skip : nat) (old new s : string) : string :=
  match s with
  | EmptyString => EmptyString
  | String c s' =>
      match skip with
      | S k => replace_from k old new s'
      | O =>
          if String.prefix old s
          then new +:+ replace_from (String.length old - 1) old new s'
          else String c (replace_from O old new s')
      end
  end.

Definition ReplaceAll (s old new : string) : string := replace_from O old new s.

(** [strings.Compare(a, b)]: -1, 0 or +1 by lexicographic byte order. *)
Definition Compare (a b : string) : Z :=
  match String.compare a b with
  | Lt => -1
  | Eq => 0
  | Gt => 1
  end.

End GoStrings.

(* ===================================================================== *)
(** ** Data model *)
(* ===================================================================== *)

(** [types.NamespacedName], written (namespace, name). *)
Abbreviation NamespacedName := (string * string)%type.

(** *** networking.k8s.io/v1 *)

Record ServiceBackendPort := {
  sbp_Name : string;
  sbp_Number : Z
}.

Record IngressServiceBackend := {
  isb_Name : string;
  isb_Port : ServiceBackendPort
}.

Record TypedLocalObjectReference := {
  tlor_APIGroup : option string;
  tlor_Kind : string;
  tlor_Name : string
}.

Record IngressBackend := {
  ib_Service : option IngressServiceBackend;
  ib_Resource : option TypedLocalObjectReference
}.

Definition PathTypeExact : string := "Exact".
Definition PathTypePrefix : string := "Prefix".
Definition PathTypeImplementationSpecific : string := "ImplementationSpecific".

Record HTTPIngressPath := {
  hip_Path : string;
  hip_PathType : option string;
  hip_Backend : IngressBackend
}.

(** [rule.HTTP] is a pointer to a struct whose only field is [Paths]. *)
Record IngressRule := {
  rule_Host : string;
  rule_HTTP : option (list HTTPIngressPath)
}.

Record IngressSpec := {
  ispec_DefaultBackend : option IngressBackend;
  ispec_Rules : list IngressRule
}.

Record Ingress := {
  ing_Name : string;
  ing_Namespace : string;
  ing_UID : string;
  ing_Spec : IngressSpec
}.

(** *** core/v1 *)

Record ServicePort := {
  sp_Name : string;
  sp_Port : Z
}.

Record Service := {
  svc_Ports : list ServicePort
}.

(** *** meta/v1 *)

Record OwnerReference := {
  or_APIVersion : string;
  or_Kind : string;
  or_Name : string;
  or_UID : string;
  or_Controller : option bool;
  or_BlockOwnerDeletion : option bool
}.

Record ObjectMeta := {
  om_Name : string;
  om_Namespace : string;
  om_OwnerReferences : list OwnerReference
}.

(** *** gateway.networking.k8s.io/v1 *)

Definition NamespacesFromAll : string := "All".
Definition NamespacesFromSame : string := "Same".
Definition NamespacesFromSelector : string := "Selector".

Definition PathMatchExact : string := "Exact".
Definition PathMatchPathPrefix : string := "PathPrefix".
Definition PathMatchRegularExpression : string := "RegularExpression".

Record RouteNamespaces := {
  rn_From : option string
}.

Record AllowedRoutes := {
  ar_Namespaces : option RouteNamespaces
}.

Record Listener := {
  l_Name : string;
  l_Hostname : option string;
  l_AllowedRoutes : option AllowedRoutes
}.

(** [gw_Group] and [gw_Kind] are what [gateway.GroupVersionKind()] reads
    from the object's type meta. *)
Record Gateway := {
  gw_Group : string;
  gw_Kind : string;
  gw_Name : string;
  gw_Namespace : string;
  gw_Listeners : list Listener
}.

Record ParentReference := {
  pr_Group : option string;
  pr_Kind : option string;
  pr_Namespace : option string;
  pr_Name : string;
  pr_SectionName : option string
}.

Record HTTPPathMatch := {
  pm_Type : option string;
  pm_Value : option string
}.

Record HTTPRouteMatch := {
  rm_Path : option HTTPPathMatch
}.

Record BackendObjectReference := {
  bor_Group : option string;
  bor_Kind : option string;
  bor_Name : string;
  bor_Namespace : option string;
  bor_Port : option Z
}.

Record HTTPBackendRef := {
  br_Ref : BackendObjectReference;
  br_Weight : option Z
}.

Record HTTPRouteRule := {
  rr_Matches : list HTTPRouteMatch;
  rr_BackendRefs : list HTTPBackendRef
}.

Record HTTPRouteSpec := {
  rs_ParentRefs : list ParentReference;
  rs_Hostnames : list string;
  rs_Rules : list HTTPRouteRule
}.

Record HTTPRoute := {
  hr_Meta : ObjectMeta;
  hr_Spec : HTTPRouteSpec
}.

(** The zero values Go gives to declared-but-unset structs. *)
Definition zeroObjectRef : BackendObjectReference :=
  {| bor_Group := None; bor_Kind := None; bor_Name := EmptyString;
     bor_Namespace := None; bor_Port := None |}.

Definition zeroSpec : HTTPRouteSpec :=
  {| rs_ParentRefs := []; rs_Hostnames := []; rs_Rules := [] |}.

(* ===================================================================== *)
(** ** Pure helpers of the controller *)
(* ===================================================================== *)

(** [generateHTTPRouteName] of [ingress_controller.go]. *)
Definition generateHTTPRouteName (ingressName hostname : string) : string :=
  let cleanHostname := GoStrings.ReplaceAll hostname "." "-" in
  let cleanHostname := GoStrings.ReplaceAll cleanHostname "*" "wildcard" in
  ingressName +:+ "-" +:+ cleanHostname.

(** [hostnameMatches]: does the ingress hostname match the listener's? *)
Definition hostnameMatches (ingressHostname listenerHostname : string) : bool :=
  let ingressHost := ingressHostname in
  let listenerHost := listenerHostname in
  if GoStrings.HasPrefix listenerHost "*."
  then
    let fqdn := GoStrings.TrimPrefix listenerHost "*." in
    negb (GoStrings.EqualFold ingressHost fqdn) && GoStrings.HasSuffix ingressHost fqdn
  else GoStrings.EqualFold ingressHost listenerHost.

(** [createPathMatch]: the switch has no default, so a path type outside the
    three constants leaves [Type] nil. *)
Definition createPathMatch (path : HTTPIngressPath) : HTTPPathMatch :=
  let pathMatch := {| pm_Type := None; pm_Value := Some (hip_Path path) |} in
  match hip_PathType path with
  | None => pathMatch
  | Some t =>
      if String.eqb t PathTypeExact
      then {| pm_Type := Some PathMatchExact; pm_Value := pm_Value pathMatch |}
      else if String.eqb t PathTypePrefix
      then {| pm_Type := Some PathMatchPathPrefix; pm_Value := pm_Value pathMatch |}
      else if String.eqb t PathTypeImplementationSpecific
      then {| pm_Type := Some PathMatchRegularExpression; pm_Value := pm_Value pathMatch |}
      else pathMatch
  end.

(** The namespace selector a listener declares, [Same] when any of the three
    pointers on the way is nil. *)
Definition listenerNsSelector (listener : Listener) : string :=
  match l_AllowedRoutes listener with
  | Some ar =>
      match ar_Namespaces ar with
      | Some ns =>
          match rn_From ns with
          | Some from => from
          | None => NamespacesFromSame
          end
      | None => NamespacesFromSame
      end
  | None => NamespacesFromSame
  end.

(** [isListenerAccessibleFromNamespace] *)
Definition isListenerAccessibleFromNamespace
    (listener : Listener) (gatewayNamespace ingressNamespace : string) : bool :=
  let nsSelector := listenerNsSelector listener in
  String.eqb nsSelector NamespacesFromAll
  || (String.eqb nsSelector NamespacesFromSame
      && String.eqb gatewayNamespace ingressNamespace).

(** [createOwnerReference] *)
Definition createOwnerReference (ingress : Ingress) : OwnerReference :=
  {| or_APIVersion := "networking.k8s.io/v1";
     or_Kind := "Ingress";
     or_Name := ing_Name ingress;
     or_UID := ing_UID ingress;
     or_Controller := Some true;
     or_BlockOwnerDeletion := Some true |}.

(** [createParentRef] *)
Definition createParentRef (gateway : Gateway) (listener : Listener) : ParentReference :=
  {| pr_Group := Some (gw_Group gateway);
     pr_Kind := Some (gw_Kind gateway);
     pr_Namespace := Some (gw_Namespace gateway);
     pr_Name := gw_Name gateway;
     pr_SectionName := Some (l_Name listener) |}.

(** [isOwnedBy] *)
Definition isOwnedBy (metadata : ObjectMeta) (owner : OwnerReference) : bool :=
  existsb
    (fun reference =>
       String.eqb (or_APIVersion reference) (or_APIVersion owner)
       && String.eqb (or_Kind reference) (or_Kind owner)
       && String.eqb (or_Name reference) (or_Name owner))
    (om_OwnerReferences metadata).

(* ===================================================================== *)
(** ** [json.Marshal] on the route types, and [isEqual] *)
(* ===================================================================== *)

(** [isEqual] compares the JSON texts of its arguments.  The encoder below
    follows the struct tags of the gateway API types: pointer and slice
    fields are [omitempty], [name] is always written, embedded structs are
    inlined, fields come in declaration order.  Strings are written as
    [encoding/json] writes them with HTML escaping on, which is what
    [json.Marshal] does: the quote, the backslash, control bytes and the
    bytes of [<], [>] and [&] are escaped; a byte that does not start a
    valid UTF-8 encoding is written as [\ufffd]; U+2028 and U+2029 are
    written as [\u2028] and [\u2029]; every other rune is copied. *)

#[local] Unset Elimination Schemes.
Inductive JSON :=
| JString (s : string)
| JNumber (z : Z)
| JArray (items : list JSON)
| JObject (fields : list (string * JSON)).
#[local] Set Elimination Schemes.

Module Json.

Definition quote : string := String "034"%char EmptyString.
Definition backslash : string := String "092"%char EmptyString.

(** [hex[n]] *)
Definition hex (n : nat) : ascii :=
  default "0"%char (String.get n "0123456789abcdef").

(** What the encoder writes for a byte below [utf8.RuneSelf]: the byte
    itself when it is in [htmlSafeSet], its escape otherwise.  Backspace
    and form feed get the short escapes of the encoder of Go 1.22 and
    later; earlier encoders wrote them as [\u0008] and [\u000c], which
    makes no difference to whether two texts are equal. *)
Definition escapeByte (c : ascii) : string :=
  let b := nat_of_ascii c in
  if Ascii.eqb c "092"%char || Ascii.eqb c "034"%char then String "092"%char (String c EmptyString)
  else if (b =? 8)%nat then backslash +:+ "b"
  else if (b =? 12)%nat then backslash +:+ "f"
  else if (b =? 10)%nat then backslash +:+ "n"
  else if (b =? 13)%nat then backslash +:+ "r"
  else if (b =? 9)%nat then backslash +:+ "t"
  else if ((b <? 32) || (b =? 38) || (b =? 60) || (b =? 62))%nat
  then backslash +:+ "u00"
       +:+ String (hex (b / 16)) (String (hex (b mod 16)) EmptyString)
  else String c EmptyString.

(** [s] goes on with one byte in each of the ranges. *)
Fixpoint accepts (ranges : list (nat * nat)) (s : string) : bool :=
  match ranges with
  | [] => true
  | (lo, hi) :: ranges' =>
      match s with
      | String c s' =>
          ((lo <=? nat_of_ascii c) && (nat_of_ascii c <=? hi))%nat && accepts ranges' s'
      | EmptyString => false
      end
  end.

(** The size [utf8.DecodeRuneInString] reports at a byte [c] of 0x80 or
    more that is followed by [rest]: the length of the encoding when it is
    valid, and 1 with [RuneError] when it is not (a stray continuation
    byte, an overlong form, a surrogate, a rune beyond U+10FFFF, or an
    encoding cut short). *)
Definition runeSize (c : ascii) (rest : string) : nat :=
  let b := nat_of_ascii c in
  let cont := (128, 191)%nat in
  if (b <? 194)%nat then 1%nat
  else if (b <? 224)%nat then if accepts [cont] rest then 2%nat else 1%nat
  else if (b =? 224)%nat then if accepts [(160, 191)%nat; cont] rest then 3%nat else 1%nat
  else if (b =? 237)%nat then if accepts [(128, 159)%nat; cont] rest then 3%nat else 1%nat
  else if (b <? 240)%nat then if accepts [cont; cont] rest then 3%nat else 1%nat
  else if (b =? 240)%nat
  then if accepts [(144, 191)%nat; cont; cont] rest then 4%nat else 1%nat
  else if (b <? 244)%nat then if accepts [cont; cont; cont] rest then 4%nat else 1%nat
  else if (b =? 244)%nat
  then if accepts [(128, 143)%nat; cont; cont] rest then 4%nat else 1%nat
  else 1%nat.

(** The loop of the encoder over the bytes of a string.  [pending] counts
    the bytes that are left of a rune the loop has already decided on; they
    are copied when [keep] is set and passed over when it is not. *)
Fixpoint escape_from (keep : bool) (pending : nat) (s : string) : string :=
  match s with
  | EmptyString => EmptyString
  | String c s' =>
      match pending with
      | S k => if keep then String c (escape_from keep k s') else escape_from keep k s'
      | O =>
          if (nat_of_ascii c <? 128)%nat then escapeByte c +:+ escape_from true O s'
          else
            match runeSize c s' with
            | 1%nat => backslash +:+ "ufffd" +:+ escape_from true O s'
            | size =>
                if (nat_of_ascii c =? 226)%nat && accepts [(128, 128)%nat; (168, 169)%nat] s'
                then
                  backslash +:+ "u202"
                  +:+ (if accepts [(128, 128)%nat; (168, 168)%nat] s' then "8" else "9")
                  +:+ escape_from false 2 s'
                else String c (escape_from true (size - 1) s')
            end
      end
  end.

Definition escape (s : string) : string := escape_from true O s.

Definition quoted (s : string) : string := quote +:+ escape s +:+ quote.

Fixpoint commas (l : list string) : string :=
  match l with
  | [] => EmptyString
  | [x] => x
  | x :: l' => x +:+ "," +:+ commas l'
  end.

Fixpoint render (j : JSON) : string :=
  match j with
  | JString s => quoted s
  | JNumber z => pretty z
  | JArray items => "[" +:+ commas (List.map render items) +:+ "]"
  | JObject fields =>
      "{" +:+ commas (List.map (fun kv => quoted (fst kv) +:+ ":" +:+ render (snd kv)) fields) +:+ "}"
  end.

(** An [omitempty] pointer field. *)
Definition opt {A} (key : string) (enc : A -> JSON) (v : option A) : list (string * JSON) :=
  match v with
  | Some a => [(key, enc a)]
  | None => []
  end.

(** An [omitempty] slice field. *)
Definition arr {A} (key : string) (enc : A -> JSON) (v : list A) : list (string * JSON) :=
  match v with
  | [] => []
  | _ => [(key, JArray (List.map enc v))]
  end.

Definition parentReference (p : ParentReference) : JSON :=
  JObject (opt "group" JString (pr_Group p) ++ opt "kind" JString (pr_Kind p)
           ++ opt "namespace" JString (pr_Namespace p) ++ [("name", JString (pr_Name p))]
           ++ opt "sectionName" JString (pr_SectionName p)).

Definition httpPathMatch (m : HTTPPathMatch) : JSON :=
  JObject (opt "type" JString (pm_Type m) ++ opt "value" JString (pm_Value m)).

Definition httpRouteMatch (m : HTTPRouteMatch) : JSON :=
  JObject (opt "path" httpPathMatch (rm_Path m)).

Definition httpBackendRef (b : HTTPBackendRef) : JSON :=
  let o := br_Ref b in
  JObject (opt "group" JString (bor_Group o) ++ opt "kind" JString (bor_Kind o)
           ++ [("name", JString (bor_Name o))] ++ opt "namespace" JString (bor_Namespace o)
           ++ opt "port" JNumber (bor_Port o) ++ opt "weight" JNumber (br_Weight b)).

Definition httpRouteRule (r : HTTPRouteRule) : JSON :=
  JObject (arr "matches" httpRouteMatch (rr_Matches r)
           ++ arr "backendRefs" httpBackendRef (rr_BackendRefs r)).

Definition httpRouteSpec (s : HTTPRouteSpec) : JSON :=
  JObject (arr "parentRefs" parentReference (rs_ParentRefs s)
           ++ arr "hostnames" JString (rs_Hostnames s)
           ++ arr "rules" httpRouteRule (rs_Rules s)).

End Json.

(** [json.Marshal(v)]: the text, or [None] for an encoding error. *)
Class Marshal (A : Type) := marshal : A -> option string.

#[export] Instance marshal_HTTPBackendRef : Marshal HTTPBackendRef :=
  fun b => Some (Json.render (Json.httpBackendRef b)).

#[export] Instance marshal_HTTPRouteSpec : Marshal HTTPRouteSpec :=
  fun s => Some (Json.render (Json.httpRouteSpec s)).

(** [isEqual] *)
Definition isEqual {A} `{Marshal A} (a b : A) : bool :=
  match marshal a with
  | None => false
  | Some l =>
      match marshal b with
      | None => false
      | Some r => String.eqb l r
      end
  end.

(** [containsBackendRef] *)
Definition containsBackendRef (backendRefs : list HTTPBackendRef) (ref : HTTPBackendRef) : bool :=
  existsb (fun backendRef => isEqual backendRef ref) backendRefs.

(* ===================================================================== *)
(** ** Hostname extraction and gateway selection *)
(* ===================================================================== *)

(** Reading a Go [map[string]bool]: an absent key reads [false]. *)
Definition seen (m : gmap string bool) (k : string) : bool := default false (m !! k).

(** [filterRules] (the log line is not modelled). *)
Definition filterRules (rules : list IngressRule) : list IngressRule :=
  List.filter (fun rule => negb (String.eqb (rule_Host rule) EmptyString)) rules.

(** [extractHostnames]: the distinct hosts in order of first appearance.
    The loop state is the pair of [hostnameMap] and [hostnames]. *)
Definition extractHostnames_step (st : gmap string bool * list string) (rule : IngressRule)
    : gmap string bool * list string :=
  let '(hostnameMap, hostnames) := st in
  if negb (seen hostnameMap (rule_Host rule))
  then (<[rule_Host rule := true]> hostnameMap, hostnames ++ [rule_Host rule])
  else (hostnameMap, hostnames).

Definition extractHostnames (rules : list IngressRule) : list string :=
  snd (foldl extractHostnames_step (∅, []) rules).

(** The key [fmt.Sprintf] builds for a parent reference; [createParentRef]
    sets every pointer it dereferences. *)
Definition parentRefKey (parentRef : ParentReference) : string :=
  default EmptyString (pr_Group parentRef) +:+ "/" +:+ default EmptyString (pr_Kind parentRef)
  +:+ "/" +:+ default EmptyString (pr_Namespace parentRef) +:+ "/" +:+ pr_Name parentRef
  +:+ "/" +:+ default EmptyString (pr_SectionName parentRef).

(** One iteration of the listener loop of [findMatchingGateways]. *)
Definition findMatching_step (ingressNamespace hostname : string) (gateway : Gateway)
    (st : gmap string bool * list ParentReference) (listener : Listener)
    : gmap string bool * list ParentReference :=
  let '(parentRefMap, result) := st in
  if negb (isListenerAccessibleFromNamespace listener (gw_Namespace gateway) ingressNamespace)
  then st
  else
    let matches :=
      match l_Hostname listener with
      | None => true
      | Some h => hostnameMatches hostname h
      end in
    if matches
    then
      let parentRef := createParentRef gateway listener in
      let key := parentRefKey parentRef in
      if negb (seen parentRefMap key)
      then (<[key := true]> parentRefMap, result ++ [parentRef])
      else st
    else st.

(** [findMatchingGateways] *)
Definition findMatchingGateways (ingressNamespace hostname : string) (gateways : list Gateway)
    : list ParentReference :=
  snd (foldl
         (fun st gateway =>
            foldl (findMatching_step ingressNamespace hostname gateway) st (gw_Listeners gateway))
         (∅, []) gateways).

(** One iteration of the listener loop of [findCatchAllGateways]. *)
Definition findCatchAll_step (ingressNamespace : string) (gateway : Gateway)
    (parentRefs : list ParentReference) (listener : Listener) : list ParentReference :=
  if negb (isListenerAccessibleFromNamespace listener (gw_Namespace gateway) ingressNamespace)
  then parentRefs
  else
    match l_Hostname listener with
    | None => parentRefs ++ [createParentRef gateway listener]
    | Some h =>
        if GoStrings.HasPrefix h "*"
        then parentRefs ++ [createParentRef gateway listener]
        else parentRefs
    end.

(** [findCatchAllGateways] *)
Definition findCatchAllGateways (ingressNamespace : string) (gateways : list Gateway)
    : list ParentReference :=
  foldl
    (fun parentRefs gateway =>
       foldl (findCatchAll_step ingressNamespace gateway) parentRefs (gw_Listeners gateway))
    [] gateways.

(* ===================================================================== *)
(** ** The cluster and the client *)
(* ===================================================================== *)

(** A write the controller issues through the client. *)
Inductive Write :=
| WCreate (key : NamespacedName) (obj : HTTPRoute)
| WUpdate (key : NamespacedName) (obj : HTTPRoute).

(** What the client of the reconciler reads and writes.  [c_Writes] records
    the write calls of a pass in the order they were issued. *)
Record Cluster := {
  c_Ingresses : gmap NamespacedName Ingress;
  c_Gateways : list Gateway;
  c_Services : gmap NamespacedName Service;
  c_HTTPRoutes : gmap NamespacedName HTTPRoute;
  c_Writes : list Write
}.

Inductive error :=
| ErrNotFound (kind : string) (key : NamespacedName)
| ErrMessage (msg : string).

Inductive result (A : Type) :=
| Ok (a : A)
| Err (e : error).
Arguments Ok {A} a.
Arguments Err {A} e.

(** Client calls thread the cluster and may fail.  The store is in memory:
    a read fails only with not-found and a write always succeeds. *)
Definition Client (A : Type) : Type := Cluster -> Cluster * result A.

Definition ret {A} (a : A) : Client A := fun c => (c, Ok a).

Definition fail {A} (e : error) : Client A := fun c => (c, Err e).

Definition bind {A B} (m : Client A) (k : A -> Client B) : Client B :=
  fun c =>
    match m c with
    | (c', Ok a) => k a c'
    | (c', Err e) => (c', Err e)
    end.

Notation "x <- m ;; k" := (bind m (fun x => k))
  (at level 100, m at next level, right associativity, only parsing).
Notation "m ;;; k" := (bind m (fun _ => k))
  (at level 100, right associativity, only parsing).

(** [r.Get(ctx, key, &svc)] for a Service. *)
Definition getService (key : NamespacedName) : Client Service :=
  fun c =>
    match c_Services c !! key with
    | Some svc => (c, Ok svc)
    | None => (c, Err (ErrNotFound "Service" key))
    end.

(** [r.Get(ctx, name, &httpRoute)]: the route, or [None] for not-found. *)
Definition getHTTPRoute (key : NamespacedName) : Client (option HTTPRoute) :=
  fun c => (c, Ok (c_HTTPRoutes c !! key)).

Definition storeHTTPRoute (key : NamespacedName) (obj : HTTPRoute) (w : Write) (c : Cluster)
    : Cluster :=
  {| c_Ingresses := c_Ingresses c;
     c_Gateways := c_Gateways c;
     c_Services := c_Services c;
     c_HTTPRoutes := <[key := obj]> (c_HTTPRoutes c);
     c_Writes := c_Writes c ++ [w] |}.

(** [r.Create(ctx, &httpRoute)] *)
Definition createHTTPRoute (key : NamespacedName) (obj : HTTPRoute) : Client unit :=
  fun c => (storeHTTPRoute key obj (WCreate key obj) c, Ok tt).

(** [r.Update(ctx, &httpRoute)] *)
Definition updateHTTPRoute (key : NamespacedName) (obj : HTTPRoute) : Client unit :=
  fun c => (storeHTTPRoute key obj (WUpdate key obj) c, Ok tt).

(** [GetOrCreate] at [K = HTTPRoute], a type that is a [client.Object], so
    neither type assertion fails.  [factory] is run only when no object is
    stored under the key; the object it returns is the one that is given the
    namespace, the name and the owner, created and handed back. *)
Definition GetOrCreate (key : NamespacedName) (owner : OwnerReference)
    (factory : Client HTTPRoute) : Client HTTPRoute :=
  found <- getHTTPRoute key ;;
  match found with
  | None =>
      result <- factory ;;
      let newObj :=
        {| hr_Meta := {| om_Name := snd key; om_Namespace := fst key;
                         om_OwnerReferences := [owner] |};
           hr_Spec := hr_Spec result |} in
      createHTTPRoute key newObj ;;;
      ret newObj
  | Some resource => ret resource
  end.

(* ===================================================================== *)
(** ** Backend resolution and rule translation *)
(* ===================================================================== *)

Definition withPort (o : BackendObjectReference) (port : option Z) : BackendObjectReference :=
  {| bor_Group := bor_Group o; bor_Kind := bor_Kind o; bor_Name := bor_Name o;
     bor_Namespace := bor_Namespace o; bor_Port := port |}.

(** The port loop of [mapBackendRef]: the first service port of that name. *)
Fixpoint findServicePort (ports : list ServicePort) (name : string) : option Z :=
  match ports with
  | [] => None
  | svcPort :: rest =>
      if String.eqb (sp_Name svcPort) name then Some (sp_Port svcPort)
      else findServicePort rest name
  end.

(** The part of [mapBackendRef] that fills [objectRef]; it is the same text
    in both revisions of the controller. *)
Definition resolveObjectRef (namespace : string) (ref : IngressBackend)
    : Client BackendObjectReference :=
  match ib_Resource ref with
  | Some resource =>
      ret {| bor_Group := tlor_APIGroup resource;
             bor_Kind := Some (tlor_Kind resource);
             bor_Name := tlor_Name resource;
             bor_Namespace := Some namespace;
             bor_Port := None |}
  | None =>
      match ib_Service ref with
      | Some service =>
          let objectRef :=
            {| bor_Group := Some EmptyString;
               bor_Kind := Some "Service";
               bor_Name := isb_Name service;
               bor_Namespace := Some namespace;
               bor_Port := None |} in
          if negb (sbp_Number (isb_Port service) =? 0)
          then ret (withPort objectRef (Some (sbp_Number (isb_Port service))))
          else if negb (String.eqb (sbp_Name (isb_Port service)) EmptyString)
          then
            svc <- getService (namespace, isb_Name service) ;;
            ret (withPort objectRef
                   (findServicePort (svc_Ports svc) (sbp_Name (isb_Port service))))
          else ret objectRef
      | None => ret zeroObjectRef
      end
  end.

(** [mapBackendRef] of [ingress_controller.go]. *)
Definition mapBackendRef (namespace : string) (ref : IngressBackend) : Client HTTPBackendRef :=
  objectRef <- resolveObjectRef namespace ref ;;
  ret {| br_Ref := objectRef; br_Weight := Some 1 |}.

(** The inner loop of [createHTTPRouteRules] over the paths of one rule;
    [result] is the slice built so far. *)
Fixpoint createRulesForPaths (namespace : string) (defaultBackendRef : option HTTPBackendRef)
    (paths : list HTTPIngressPath) (result : list HTTPRouteRule) : Client (list HTTPRouteRule) :=
  match paths with
  | [] => ret result
  | path :: rest =>
      let pathMatch := createPathMatch path in
      let matches := [ {| rm_Path := Some pathMatch |} ] in
      ref <- mapBackendRef namespace (hip_Backend path) ;;
      let backendRefs := [ref] in
      let backendRefs :=
        match defaultBackendRef with
        | Some d => if negb (containsBackendRef backendRefs d) then backendRefs ++ [d] else backendRefs
        | None => backendRefs
        end in
      createRulesForPaths namespace defaultBackendRef rest
        (result ++ [ {| rr_Matches := matches; rr_BackendRefs := backendRefs |} ])
  end.

(** The outer loop of [createHTTPRouteRules]. *)
Fixpoint createRulesLoop (namespace : string) (defaultBackendRef : option HTTPBackendRef)
    (rules : list IngressRule) (result : list HTTPRouteRule) : Client (list HTTPRouteRule) :=
  match rules with
  | [] => ret result
  | rule :: rest =>
      match rule_HTTP rule with
      | Some paths =>
          result' <- createRulesForPaths namespace defaultBackendRef paths result ;;
          createRulesLoop namespace defaultBackendRef rest result'
      | None =>
          match defaultBackendRef with
          | Some d =>
              createRulesLoop namespace defaultBackendRef rest
                (result ++ [ {| rr_Matches := []; rr_BackendRefs := [d] |} ])
          | None => createRulesLoop namespace defaultBackendRef rest result
          end
      end
  end.

(** [createHTTPRouteRules] *)
Definition createHTTPRouteRules (namespace : string) (rules : list IngressRule)
    (defaultBackendRef : option HTTPBackendRef) : Client (list HTTPRouteRule) :=
  createRulesLoop namespace defaultBackendRef rules [].

Definition noCatchAll : error := ErrMessage "no catch-all gateways found for default backend".

(** [createDefaultBackendSpec] *)
Definition createDefaultBackendSpec (ingressNamespace : string) (backendRef : HTTPBackendRef)
    (gateways : list Gateway) : result HTTPRouteSpec :=
  let parentRefs := findCatchAllGateways ingressNamespace gateways in
  if (length parentRefs =? 0)%nat
  then Err noCatchAll
  else Ok {| rs_ParentRefs := parentRefs;
             rs_Hostnames := [];
             rs_Rules := [ {| rr_Matches := []; rr_BackendRefs := [backendRef] |} ] |}.

(* ===================================================================== *)
(** ** Reconciliation *)
(* ===================================================================== *)

(** The four ways [reconcileHTTPRoute] ends without an error.  The Go
    function returns [nil] in all of them; the outcome names the branch
    taken.  The two branches that write nothing are told apart by the
    ownership test, the first operand of the update condition. *)
Inductive Outcome := Created | Updated | Unchanged | Skipped.

(** [reconcileHTTPRoute] *)
Definition reconcileHTTPRoute (name : NamespacedName) (owner : OwnerReference)
    (spec : HTTPRouteSpec) : Client Outcome :=
  existing <- getHTTPRoute name ;;
  match existing with
  | None =>
      let httpRoute :=
        {| hr_Meta := {| om_Name := snd name; om_Namespace := fst name;
                         om_OwnerReferences := [owner] |};
           hr_Spec := spec |} in
      createHTTPRoute name httpRoute ;;;
      ret Created
  | Some httpRoute =>
      if isOwnedBy (hr_Meta httpRoute) owner
      then
        if negb (isEqual (hr_Spec httpRoute) spec)
        then
          updateHTTPRoute name {| hr_Meta := hr_Meta httpRoute; hr_Spec := spec |} ;;;
          ret Updated
        else ret Unchanged
      else ret Skipped
  end.

Record IngressReconciler := {
  RequireHostname : bool
}.

(** The rules of the ingress whose host is [hostname]. *)
Definition matchingRulesFor (hostname : string) (rules : list IngressRule) : list IngressRule :=
  List.filter (fun rule => String.eqb (rule_Host rule) hostname) rules.

(** The body of the hostname loop of [Reconcile]; [continue] is a return of
    the body without a write. *)
Definition reconcileHostname (req : NamespacedName) (ingress : Ingress)
    (gateways : list Gateway) (owner : OwnerReference)
    (defaultBackendRef : option HTTPBackendRef) (hostname : string) : Client unit :=
  let matchingRules := matchingRulesFor hostname (ispec_Rules (ing_Spec ingress)) in
  rules <- createHTTPRouteRules (fst req) matchingRules defaultBackendRef ;;
  if (length rules =? 0)%nat then ret tt
  else
    let parentRefs := findMatchingGateways (fst req) hostname gateways in
    if (length parentRefs =? 0)%nat then ret tt
    else
      let spec := {| rs_ParentRefs := parentRefs;
                     rs_Hostnames := [hostname];
                     rs_Rules := rules |} in
      let httpRouteName := generateHTTPRouteName (snd req) hostname in
      let httpRouteNamespacedName := (fst req, httpRouteName) in
      reconcileHTTPRoute httpRouteNamespacedName owner spec ;;;
      ret tt.

(** The hostname loop of [Reconcile]: the first error ends the pass. *)
Fixpoint reconcileHostnames (req : NamespacedName) (ingress : Ingress)
    (gateways : list Gateway) (owner : OwnerReference)
    (defaultBackendRef : option HTTPBackendRef) (hostnames : list string) : Client unit :=
  match hostnames with
  | [] => ret tt
  | hostname :: rest =>
      reconcileHostname req ingress gateways owner defaultBackendRef hostname ;;;
      reconcileHostnames req ingress gateways owner defaultBackendRef rest
  end.

(** The first step of [Reconcile] after the guards: the default backend,
    when there is one, is mapped once and reused. *)
Definition mapDefaultBackend (namespace : string) (ingress : Ingress)
    : Client (option HTTPBackendRef) :=
  match ispec_DefaultBackend (ing_Spec ingress) with
  | Some backend =>
      backendRef <- mapBackendRef namespace backend ;;
      ret (Some backendRef)
  | None => ret None
  end.

(** [Reconcile] of [ingress_controller.go]. *)
Definition Reconcile (r : IngressReconciler) (req : NamespacedName) : Client unit :=
  fun c =>
    match c_Ingresses c !! req with
    | None => (c, Ok tt)
    | Some ingress =>
        let gateways := c_Gateways c in
        if (length gateways =? 0)%nat then (c, Ok tt)
        else
          let owner := createOwnerReference ingress in
          (defaultBackendRef <- mapDefaultBackend (fst req) ingress ;;
           let hostnames := extractHostnames (ispec_Rules (ing_Spec ingress)) in
           if (length hostnames =? 0)%nat
           then
             match defaultBackendRef with
             | Some backendRef =>
                 if negb (RequireHostname r)
                 then
                   match createDefaultBackendSpec (fst req) backendRef gateways with
                   | Err e => fail e
                   | Ok spec => reconcileHTTPRoute req owner spec ;;; ret tt
                   end
                 else ret tt
             | None => ret tt
             end
           else reconcileHostnames req ingress gateways owner defaultBackendRef hostnames) c
    end.

(* ===================================================================== *)
(** ** The revision that sorts the translated rules *)
(* ===================================================================== *)

(** [slices.SortStableFunc]: a stable sort.  Go sorts short slices by
    insertion from the left, moving an element towards the front while it
    compares below its predecessor; on a sorted prefix that is the position
    in front of the first element it compares below.  Longer slices are
    sorted in blocks and merged; for a comparison that is a total preorder,
    as [compareHTTPRouteRule] is, every stable sort returns the same slice. *)
Module GoSlices.
Section SortStable.
Context {A : Type} (cmp : A -> A -> Z).

Fixpoint insert (x : A) (sorted : list A) : list A :=
  match sorted with
  | [] => [x]
  | y :: rest => if cmp x y <? 0 then x :: y :: rest else y :: insert x rest
  end.

Definition SortStableFunc (x : list A) : list A :=
  foldl (fun sorted e => insert e sorted) [] x.
End SortStable.
End GoSlices.

Module Grouped.

(** [generateHTTPRouteName] of this revision: the empty hostname keeps the
    ingress name. *)
Definition generateHTTPRouteName (ingressName hostname : string) : string :=
  if String.eqb hostname EmptyString then ingressName
  else
    let cleanHostname := GoStrings.ReplaceAll hostname "." "-" in
    let cleanHostname := GoStrings.ReplaceAll cleanHostname "*" "wildcard" in
    ingressName +:+ "-" +:+ cleanHostname.

(** [hostnameMatches] of this revision: the two tests in the other order. *)
Definition hostnameMatches (ingressHost listenerHost : string) : bool :=
  if GoStrings.HasPrefix listenerHost "*."
  then
    let fqdn := GoStrings.TrimPrefix listenerHost "*." in
    GoStrings.HasSuffix ingressHost fqdn && negb (GoStrings.EqualFold ingressHost fqdn)
  else GoStrings.EqualFold ingressHost listenerHost.

(** The path value [compareHTTPRouteRule] reads from a rule. *)
Definition rulePath (a : HTTPRouteRule) : string :=
  match rr_Matches a with
  | m :: _ =>
      match rm_Path m with
      | Some p => default EmptyString (pm_Value p)
      | None => EmptyString
      end
  | [] => EmptyString
  end.

(** The backend name [compareHTTPRouteRule] reads from a rule. *)
Definition ruleBackend (a : HTTPRouteRule) : string :=
  match rr_BackendRefs a with
  | b :: _ => bor_Name (br_Ref b)
  | [] => EmptyString
  end.

(** [compareHTTPRouteRule] *)
Definition compareHTTPRouteRule (a b : HTTPRouteRule) : Z :=
  let aPath := rulePath a in
  let bPath := rulePath b in
  let cmp := GoStrings.Compare aPath bPath in
  if negb (cmp =? 0) then cmp
  else
    let aBackend := ruleBackend a in
    let bBackend := ruleBackend b in
    GoStrings.Compare aBackend bBackend.

(** [mapBackendRef] of this revision: a pointer to a reference without a
    weight. *)
Definition mapBackendRef (namespace : string) (ref : IngressBackend)
    : Client (option HTTPBackendRef) :=
  objectRef <- resolveObjectRef namespace ref ;;
  ret (Some {| br_Ref := objectRef; br_Weight := None |}).

Definition noBackend (path : string) : error :=
  ErrMessage ("no backend found for path '" +:+ path +:+ "'").

(** The loop of [mapToHTTPRouteRules] over the paths of one rule. *)
Fixpoint mapPaths (namespace : string) (paths : list HTTPIngressPath)
    (result : list HTTPRouteRule) : Client (list HTTPRouteRule) :=
  match paths with
  | [] => ret result
  | path :: rest =>
      let pathMatch := createPathMatch path in
      backendRef <- mapBackendRef namespace (hip_Backend path) ;;
      match backendRef with
      | None => fail (noBackend (hip_Path path))
      | Some ref =>
          mapPaths namespace rest
            (result ++ [ {| rr_Matches := [ {| rm_Path := Some pathMatch |} ];
                            rr_BackendRefs := [ref] |} ])
      end
  end.

(** The loop of [mapToHTTPRouteRules] over the rules. *)
Fixpoint mapRules (namespace : string) (rules : list IngressRule)
    (result : list HTTPRouteRule) : Client (list HTTPRouteRule) :=
  match rules with
  | [] => ret result
  | rule :: rest =>
      match rule_HTTP rule with
      | Some paths =>
          result' <- mapPaths namespace paths result ;;
          mapRules namespace rest result'
      | None => mapRules namespace rest result
      end
  end.

(** [mapToHTTPRouteRules] *)
Definition mapToHTTPRouteRules (namespace : string) (rules : list IngressRule)
    : Client (list HTTPRouteRule) :=
  result <- mapRules namespace rules [] ;;
  ret (GoSlices.SortStableFunc compareHTTPRouteRule result).

(** [groupRulesByHostname]: the rules of each host, in the order of the
    ingress.  Reading an absent key of the Go map gives the nil slice. *)
Definition groupRulesByHostname (rules : list IngressRule) : gmap string (list IngressRule) :=
  foldl
    (fun result rule =>
       let hostname := rule_Host rule in
       let existingRules := default [] (result !! hostname) in
       <[hostname := existingRules ++ [rule]]> result)
    ∅ rules.

(** [compareParentRef]: a nil pointer is compared as the empty string. *)
Definition compareParentRef (a b : ParentReference) : Z :=
  let aGroup := default EmptyString (pr_Group a) in
  let bGroup := default EmptyString (pr_Group b) in
  let cmp := GoStrings.Compare aGroup bGroup in
  if negb (cmp =? 0) then cmp
  else
    let aKind := default EmptyString (pr_Kind a) in
    let bKind := default EmptyString (pr_Kind b) in
    let cmp := GoStrings.Compare aKind bKind in
    if negb (cmp =? 0) then cmp
    else
      let aNamespace := default EmptyString (pr_Namespace a) in
      let bNamespace := default EmptyString (pr_Namespace b) in
      let cmp := GoStrings.Compare aNamespace bNamespace in
      if negb (cmp =? 0) then cmp
      else
        let cmp := GoStrings.Compare (pr_Name a) (pr_Name b) in
        if negb (cmp =? 0) then cmp
        else
          let aSectionName := default EmptyString (pr_SectionName a) in
          let bSectionName := default EmptyString (pr_SectionName b) in
          GoStrings.Compare aSectionName bSectionName.

(** The key under which [groupGatewaysByHostNameAndMapToParentRefs] files
    a listener: its hostname, the empty string when it has none. *)
Definition listenerKey (listener : Listener) : string :=
  match l_Hostname listener with
  | None => EmptyString
  | Some h => h
  end.

(** One iteration of the listener loop of
    [groupGatewaysByHostNameAndMapToParentRefs]. *)
Definition groupGateways_step (ingressNamespace : string) (gateway : Gateway)
    (result : gmap string (list ParentReference)) (listener : Listener)
    : gmap string (list ParentReference) :=
  if negb (isListenerAccessibleFromNamespace listener (gw_Namespace gateway) ingressNamespace)
  then result
  else
    let hostname := listenerKey listener in
    let existingParentRefs := default [] (result !! hostname) in
    <[hostname := existingParentRefs ++ [createParentRef gateway listener]]> result.

(** [groupGatewaysByHostNameAndMapToParentRefs] *)
Definition groupGatewaysByHostNameAndMapToParentRefs (ingressNamespace : string)
    (gateways : list Gateway) : gmap string (list ParentReference) :=
  foldl
    (fun result gateway =>
       foldl (groupGateways_step ingressNamespace gateway) result (gw_Listeners gateway))
    ∅ gateways.

(** The loop of [findMatchingGateways] over the entries of the map.  Go
    visits the entries of a map in an order it does not specify, which may
    differ from one [range] to the next; [visited] lists the entries in the
    order of one run. *)
Definition collectMatching (ingressHost : string)
    (visited : list (string * list ParentReference)) : list ParentReference :=
  foldl
    (fun result entry =>
       let '(hostname, references) := entry in
       if String.eqb hostname EmptyString || hostnameMatches ingressHost hostname
       then result ++ references
       else result)
    [] visited.

(** [findMatchingGateways] of this revision, on one order of visit. *)
Definition findMatchingGateways (ingressHost : string)
    (visited : list (string * list ParentReference)) : list ParentReference :=
  GoSlices.SortStableFunc compareParentRef (collectMatching ingressHost visited).

(** The orders in which one pass visits its maps: [rangeRules] for the loop
    of [Reconcile] over the grouped rules, [rangeRefs] for the loop of the
    call of [findMatchingGateways] made for a hostname. *)
Record Ranges := {
  rangeRules : gmap string (list IngressRule) -> list (string * list IngressRule);
  rangeRefs : string -> gmap string (list ParentReference)
              -> list (string * list ParentReference)
}.

(** The body of the loop of [Reconcile] over the grouped rules; [continue]
    is a return of the body without a write. *)
Definition reconcileGroup (req : NamespacedName) (owner : OwnerReference)
    (visitedRefs : list (string * list ParentReference))
    (hostname : string) (matchingRules : list IngressRule) : Client unit :=
  let routeName := (fst req, generateHTTPRouteName (snd req) hostname) in
  let routeParentRefs := findMatchingGateways hostname visitedRefs in
  if (length routeParentRefs =? 0)%nat then ret tt
  else
    let routeHostnames :=
      if negb (String.eqb hostname EmptyString) then [hostname] else [] in
    routeRules <- mapToHTTPRouteRules (fst req) matchingRules ;;
    if (length routeRules =? 0)%nat then ret tt
    else
      let spec := {| rs_ParentRefs := routeParentRefs;
                     rs_Hostnames := routeHostnames;
                     rs_Rules := routeRules |} in
      reconcileHTTPRoute routeName owner spec ;;;
      ret tt.

(** The loop of [Reconcile] over the grouped rules: the first error ends
    the pass. *)
Fixpoint reconcileGroups (req : NamespacedName) (owner : OwnerReference)
    (visitedRefs : string -> list (string * list ParentReference))
    (visitedRules : list (string * list IngressRule)) : Client unit :=
  match visitedRules with
  | [] => ret tt
  | (hostname, matchingRules) :: rest =>
      reconcileGroup req owner (visitedRefs hostname) hostname matchingRules ;;;
      reconcileGroups req owner visitedRefs rest
  end.

(** [Reconcile] of this revision.  The default backend of the ingress is
    not read. *)
Definition Reconcile (ranges : Ranges) (req : NamespacedName) : Client unit :=
  fun c =>
    match c_Ingresses c !! req with
    | None => (c, Ok tt)
    | Some ingress =>
        let gateways := c_Gateways c in
        if (length gateways =? 0)%nat then (c, Ok tt)
        else if (length (ispec_Rules (ing_Spec ingress)) =? 0)%nat then (c, Ok tt)
        else
          let owner := createOwnerReference ingress in
          let ingressRules := groupRulesByHostname (ispec_Rules (ing_Spec ingress)) in
          let parentRefs :=
            groupGatewaysByHostNameAndMapToParentRefs (ing_Namespace ingress) gateways in
          reconcileGroups req owner (fun hostname => rangeRefs ranges hostname parentRefs)
            (rangeRules ranges ingressRules) c
    end.

End Grouped.

(* ===================================================================== *)
(** ** Notions used to state the properties *)
(* ===================================================================== *)

(** A gateway without the listeners the ingress namespace may not attach to. *)
Definition accessibleOnly (ingressNamespace : string) (gateway : Gateway) : Gateway :=
  {| gw_Group := gw_Group gateway; gw_Kind := gw_Kind gateway;
     gw_Name := gw_Name gateway; gw_Namespace := gw_Namespace gateway;
     gw_Listeners :=
       List.filter
         (fun listener =>
            isListenerAccessibleFromNamespace listener (gw_Namespace gateway) ingressNamespace)
         (gw_Listeners gateway) |}.

(** The backend asks for a port by name and the service it names is not in
    the cluster: the case in which [mapBackendRef] fails. *)
Definition missingNamedPort (namespace : string) (backend : IngressBackend) (c : Cluster)
    : Prop :=
  ib_Resource backend = None
  /\ exists service,
       ib_Service backend = Some service
       /\ sbp_Number (isb_Port service) = 0
       /\ sbp_Name (isb_Port service) <> EmptyString
       /\ c_Services c !! (namespace, isb_Name service) = None.

(** No listener the namespace may attach to is without a hostname or has a
    hostname that starts with a star. *)
Definition noCatchAllListener (ingressNamespace : string) (gateways : list Gateway) : Prop :=
  forall gateway listener,
    In gateway gateways ->
    In listener (gw_Listeners gateway) ->
    isListenerAccessibleFromNamespace listener (gw_Namespace gateway) ingressNamespace = true ->
    exists h, l_Hostname listener = Some h /\ GoStrings.HasPrefix h "*" = false.

(** The order [compareHTTPRouteRule] decides: not above. *)
Definition ruleLe (a b : HTTPRouteRule) : Prop := Grouped.compareHTTPRouteRule a b <= 0.

(** The lexicographic order on (path value, name of the first backend). *)
Definition lexLe (a b : HTTPRouteRule) : Prop :=
  String.ltb (Grouped.rulePath a) (Grouped.rulePath b) = true
  \/ (Grouped.rulePath a = Grouped.rulePath b
      /\ String.leb (Grouped.ruleBackend a) (Grouped.ruleBackend b) = true).

(** The path values of a declaration in the order it declares them; a rule
    without an HTTP section gives one rule without a match when there is a
    default backend. *)
Definition declaredPaths (rules : list IngressRule) (defaultBackendRef : option HTTPBackendRef)
    : list string :=
  flat_map
    (fun rule =>
       match rule_HTTP rule with
       | Some paths => List.map hip_Path paths
       | None =>
           match defaultBackendRef with
           | Some _ => [EmptyString]
           | None => []
           end
       end)
    rules.

(** The hostname as it enters the route name. *)
Definition cleanHostname (hostname : string) : string :=
  GoStrings.ReplaceAll (GoStrings.ReplaceAll hostname "." "-") "*" "wildcard".

(** A client computation that leaves the cluster as it found it. *)
Definition readonly {A} (m : Client A) : Prop := forall c, fst (m c) = c.

(** Two clusters with the same ingresses, gateways and services. *)
Definition sameInputs (c c' : Cluster) : Prop :=
  c_Ingresses c' = c_Ingresses c
  /\ c_Gateways c' = c_Gateways c
  /\ c_Services c' = c_Services c.

(** A client computation that writes routes only. *)
Definition keepsInputs {A} (m : Client A) : Prop := forall c, sameInputs c (fst (m c)).

(** A string with its ASCII capitals folded onto small letters. *)
Fixpoint foldString (s : string) : string :=
  match s with
  | EmptyString => EmptyString
  | String a s' => String (GoStrings.fold_byte a) (foldString s')
  end.

(** The bytes of a string. *)
Definition bytes (s : string) : list ascii := list_ascii_of_string s.

(** The distinct elements of a list in the order of their first appearance. *)
Fixpoint firstOccurrences (l : list string) : list string :=
  match l with
  | [] => []
  | x :: l' => x :: List.filter (fun y => negb (String.eqb y x)) (firstOccurrences l')
  end.

(** The listener may be used from the namespace and takes the hostname: it
    has no hostname of its own or [hostnameMatches] accepts the pair. *)
Definition admits (ingressNamespace hostname : string) (gateway : Gateway) (listener : Listener)
    : bool :=
  isListenerAccessibleFromNamespace listener (gw_Namespace gateway) ingressNamespace
  && match l_Hostname listener with
     | None => true
     | Some h => hostnameMatches hostname h
     end.

(** The listener may be used from the namespace and has no hostname or one
    that starts with a star. *)
Definition catchAllListener (ingressNamespace : string) (gateway : Gateway) (listener : Listener)
    : bool :=
  isListenerAccessibleFromNamespace listener (gw_Namespace gateway) ingressNamespace
  && match l_Hostname listener with
     | None => true
     | Some h => GoStrings.HasPrefix h "*"
     end.

(** The keys under which [findMatchingGateways] remembers the references
    it has collected. *)
Definition keysOf (result : list ParentReference) : list string :=
  List.map parentRefKey result.

(** The loop state of [findMatchingGateways] is consistent: the map holds
    the keys of the references collected so far, each once. *)
Definition matchingState (st : gmap string bool * list ParentReference) : Prop :=
  (forall k, seen (fst st) k = true <-> In k (keysOf (snd st)))
  /\ List.NoDup (keysOf (snd st)).

(** What an ingress declares, in order: its paths, and one entry without a
    path for every rule without an HTTP section when there is a default
    backend. *)
Definition declaredItems (rules : list IngressRule) (defaultBackendRef : option HTTPBackendRef)
    : list (option HTTPIngressPath) :=
  flat_map
    (fun rule =>
       match rule_HTTP rule with
       | Some paths => List.map Some paths
       | None =>
           match defaultBackendRef with
           | Some _ => [None]
           | None => []
           end
       end)
    rules.

(** The rule [createHTTPRouteRules] makes of one declared entry.  For a
    path: one match, [createPathMatch] of that path, and the reference
    resolved for the backend of that path, followed by the default backend
    unless the two are equal under [isEqual].  For a rule without an HTTP
    section: no match and the default backend alone. *)
Definition translates (ns : string) (dflt : option HTTPBackendRef) (c : Cluster)
    (item : option HTTPIngressPath) (rule : HTTPRouteRule) : Prop :=
  match item with
  | Some path =>
      exists ref,
        mapBackendRef ns (hip_Backend path) c = (c, Ok ref)
        /\ rule = {| rr_Matches := [ {| rm_Path := Some (createPathMatch path) |} ];
                     rr_BackendRefs :=
                       match dflt with
                       | Some d => if isEqual ref d then [ref] else [ref; d]
                       | None => [ref]
                       end |}
  | None =>
      exists d, dflt = Some d /\ rule = {| rr_Matches := []; rr_BackendRefs := [d] |}
  end.

(** A client computation whose result depends on the services only. *)
Definition servicesOnly {A} (m : Client A) : Prop :=
  forall c c', c_Services c = c_Services c' -> snd (m c) = snd (m c').

(** The name of the route of a hostname. *)
Definition routeKey (req : NamespacedName) (hostname : string) : NamespacedName :=
  (fst req, generateHTTPRouteName (snd req) hostname).

(** The route the hostname loop means to store for a hostname: none when
    the rules cannot be translated, when there is no rule, or when no
    listener takes the hostname. *)
Definition plannedRoute (req : NamespacedName) (ingress : Ingress) (gateways : list Gateway)
    (dflt : option HTTPBackendRef) (c : Cluster) (hostname : string) : option HTTPRoute :=
  match snd (createHTTPRouteRules (fst req)
               (matchingRulesFor hostname (ispec_Rules (ing_Spec ingress))) dflt c) with
  | Err _ => None
  | Ok rules =>
      if (length rules =? 0)%nat then None
      else if (length (findMatchingGateways (fst req) hostname gateways) =? 0)%nat then None
      else
        Some {| hr_Meta := {| om_Name := generateHTTPRouteName (snd req) hostname;
                              om_Namespace := fst req;
                              om_OwnerReferences := [createOwnerReference ingress] |};
                hr_Spec := {| rs_ParentRefs := findMatchingGateways (fst req) hostname gateways;
                              rs_Hostnames := [hostname];
                              rs_Rules := rules |} |}
  end.

(** The order [compareParentRef] decides: not above. *)
Definition refLe (a b : ParentReference) : Prop := Grouped.compareParentRef a b <= 0.

(** The five strings [compareParentRef] reads from a reference, in the
    order it compares them. *)
Definition refFields (a : ParentReference) : list string :=
  [ default EmptyString (pr_Group a); default EmptyString (pr_Kind a);
    default EmptyString (pr_Namespace a); pr_Name a;
    default EmptyString (pr_SectionName a) ].

(** Comparing two rows of strings column by column: the first column that
    differs decides. *)
Fixpoint lexCompare (x y : list string) : Z :=
  match x, y with
  | a :: x', b :: y' =>
      let cmp := GoStrings.Compare a b in
      if negb (cmp =? 0) then cmp else lexCompare x' y'
  | _, _ => 0
  end.

(** An order in which a [range] may visit the entries of a map: every entry
    once. *)
Definition visits {V} (m : gmap string V) (visited : list (string * V)) : Prop :=
  Permutation visited (map_to_list m).

(** The listener may be used from the namespace and its key in the grouped
    map is empty or accepted by [hostnameMatches] for the hostname. *)
Definition takes (ingressNamespace hostname : string) (gateway : Gateway) (listener : Listener)
    : bool :=
  isListenerAccessibleFromNamespace listener (gw_Namespace gateway) ingressNamespace
  && (String.eqb (Grouped.listenerKey listener) EmptyString
      || Grouped.hostnameMatches hostname (Grouped.listenerKey listener)).

(** One reference per listener that [takes] the hostname, gateway by
    gateway and listener by listener. *)
Definition takenRefs (ingressNamespace hostname : string) (gateways : list Gateway)
    : list ParentReference :=
  flat_map
    (fun gateway =>
       List.map (createParentRef gateway)
         (List.filter (takes ingressNamespace hostname gateway) (gw_Listeners gateway)))
    gateways.

(** The references of the entries whose key satisfies [keep]. *)
Definition refsUnder {V} (keep : string -> bool) (entries : list (string * list V)) : list V :=
  flat_map (fun entry => if keep (fst entry) then snd entry else []) entries.

(** Two rules [compareHTTPRouteRule] does not tell apart. *)
Definition tiedRules (a b : HTTPRouteRule) : bool := Grouped.compareHTTPRouteRule a b =? 0.

(** A rule with the weights of its backend references left unset, as the
    revision with [mapToHTTPRouteRules] builds them. *)
Definition withoutWeight (rule : HTTPRouteRule) : HTTPRouteRule :=
  {| rr_Matches := rr_Matches rule;
     rr_BackendRefs :=
       List.map (fun b => {| br_Ref := br_Ref b; br_Weight := None |}) (rr_BackendRefs rule) |}.

(** Every range of the pass visits every entry of its map once. *)
Definition validRanges (ranges : Grouped.Ranges) : Prop :=
  (forall m, visits m (Grouped.rangeRules ranges m))
  /\ (forall hostname m, visits m (Grouped.rangeRefs ranges hostname m)).

(** The name of the route of a hostname in the grouped revision. *)
Definition groupKey (req : NamespacedName) (hostname : string) : NamespacedName :=
  (fst req, Grouped.generateHTTPRouteName (snd req) hostname).

(** The route the grouped revision means to store for a hostname: none
    when no listener takes the hostname, when the rules cannot be
    translated, or when there is no rule. *)
Definition plannedGroupRoute (req : NamespacedName) (ingress : Ingress)
    (gateways : list Gateway) (c : Cluster) (hostname : string) : option HTTPRoute :=
  let routeParentRefs :=
    GoSlices.SortStableFunc Grouped.compareParentRef
      (takenRefs (ing_Namespace ingress) hostname gateways) in
  if (length routeParentRefs =? 0)%nat then None
  else
    match snd (Grouped.mapToHTTPRouteRules (fst req)
                 (matchingRulesFor hostname (ispec_Rules (ing_Spec ingress))) c) with
    | Err _ => None
    | Ok routeRules =>
        if (length routeRules =? 0)%nat then None
        else
          Some {| hr_Meta := {| om_Name := Grouped.generateHTTPRouteName (snd req) hostname;
                                om_Namespace := fst req;
                                om_OwnerReferences := [createOwnerReference ingress] |};
                  hr_Spec := {| rs_ParentRefs := routeParentRefs;
                                rs_Hostnames :=
                                  if String.eqb hostname EmptyString then [] else [hostname];
                                rs_Rules := routeRules |} |}
    end.

(** The object of a factory with the namespace, the name and the owner
    that [GetOrCreate] sets on it. *)
Definition withIdentity (key : NamespacedName) (owner : OwnerReference) (made : HTTPRoute)
    : HTTPRoute :=
  {| hr_Meta := {| om_Name := snd key; om_Namespace := fst key;
                   om_OwnerReferences := [owner] |};
     hr_Spec := hr_Spec made |}.

(** A string of bytes below 0x80. *)
Fixpoint asciiString (s : string) : bool :=
  match s with
  | EmptyString => true
  | String c s' => (nat_of_ascii c <? 128)%nat && asciiString s'
  end.

Definition asciiOption (o : option string) : bool :=
  match o with
  | Some s => asciiString s
  | None => true
  end.

Definition asciiParentRef (p : ParentReference) : bool :=
  asciiOption (pr_Group p) && asciiOption (pr_Kind p) && asciiOption (pr_Namespace p)
  && asciiString (pr_Name p) && asciiOption (pr_SectionName p).

Definition asciiRouteMatch (m : HTTPRouteMatch) : bool :=
  match rm_Path m with
  | Some p => asciiOption (pm_Type p) && asciiOption (pm_Value p)
  | None => true
  end.

Definition asciiBackendRef (b : HTTPBackendRef) : bool :=
  asciiOption (bor_Group (br_Ref b)) && asciiOption (bor_Kind (br_Ref b))
  && asciiString (bor_Name (br_Ref b)) && asciiOption (bor_Namespace (br_Ref b)).

Definition asciiRule (r : HTTPRouteRule) : bool :=
  forallb asciiRouteMatch (rr_Matches r) && forallb asciiBackendRef (rr_BackendRefs r).

(** Every string of the spec is ASCII. *)
Definition asciiSpec (s : HTTPRouteSpec) : bool :=
  forallb asciiParentRef (rs_ParentRefs s) && forallb asciiString (rs_Hostnames s)
  && forallb asciiRule (rs_Rules s).

(** Every string of the JSON value, keys included, is ASCII. *)
Fixpoint asciiJSON (j : JSON) : bool :=
  match j with
  | JString s => asciiString s
  | JNumber _ => true
  | JArray items => forallb asciiJSON items
  | JObject fields => forallb (fun kv => asciiString (fst kv) && asciiJSON (snd kv)) fields
  end.

(** The value of a hexadecimal digit. *)
Definition unhex (c : ascii) : option nat :=
  let n := nat_of_ascii c in
  if ((48 <=? n) && (n <=? 57))%nat then Some (n - 48)%nat
  else if ((97 <=? n) && (n <=? 102))%nat then Some (n - 87)%nat
  else None.

(** Reading back what [escapeByte] wrote: the byte and the rest of the
    text. *)
Definition unescapeByte (s : string) : option (ascii * string) :=
  match s with
  | String c r =>
      if Ascii.eqb c "034"%char then None
      else if Ascii.eqb c "092"%char
      then
        match r with
        | String e r' =>
            if Ascii.eqb e "u"%char
            then
              match r' with
              | String _ (String _ (String x (String y r''))) =>
                  match unhex x, unhex y with
                  | Some a, Some b => Some (ascii_of_nat (16 * a + b), r'')
                  | _, _ => None
                  end
              | _ => None
              end
            else if Ascii.eqb e "b"%char then Some (ascii_of_nat 8, r')
            else if Ascii.eqb e "f"%char then Some (ascii_of_nat 12, r')
            else if Ascii.eqb e "n"%char then Some (ascii_of_nat 10, r')
            else if Ascii.eqb e "r"%char then Some (ascii_of_nat 13, r')
            else if Ascii.eqb e "t"%char then Some (ascii_of_nat 9, r')
            else Some (e, r')
        | EmptyString => None
        end
      else Some (c, r)
  | EmptyString => None
  end.

(** A byte of a number: a digit or the sign. *)
Definition numberByte (c : ascii) : bool :=
  let n := nat_of_ascii c in
  ((48 <=? n) && (n <=? 57))%nat || Ascii.eqb c "-"%char.

(** A text in front of which a number ends: it is empty or starts with a
    byte that is not a byte of a number. *)
Definition numberEnd (r : string) : bool :=
  match r with
  | EmptyString => true
  | String c _ => negb (numberByte c)
  end.

(** A byte with which a JSON value starts. *)
Definition valueStart (c : ascii) : bool :=
  numberByte c || Ascii.eqb c "034"%char || Ascii.eqb c "["%char || Ascii.eqb c "{"%char.

(** The key of the first field of a list of fields. *)
Definition firstKey (l : list (string * JSON)) : option string :=
  match l with
  | [] => None
  | kv :: _ => Some (fst kv)
  end.

(** A text made of bytes of a number. *)
Fixpoint numberBytes (s : string) : bool :=
  match s with
  | EmptyString => true
  | String c s' => numberByte c && numberBytes s'
  end.

(** The object [reconcileHTTPRoute] creates when none is stored. *)
Definition createdRoute (name : NamespacedName) (owner : OwnerReference)
    (spec : HTTPRouteSpec) : HTTPRoute :=
  {| hr_Meta := {| om_Name := snd name; om_Namespace := fst name;
                   om_OwnerReferences := [owner] |};
     hr_Spec := spec |}.

(* ===================================================================== *)
(** ** Concrete clusters used by the examples below *)
(* ===================================================================== *)

Module Fixtures.

Definition listener (name : string) (hostname : option string) (from : option string)
    : Listener :=
  {| l_Name := name;
     l_Hostname := hostname;
     l_AllowedRoutes :=
       match from with
       | Some f => Some {| ar_Namespaces := Some {| rn_From := Some f |} |}
       | None => None
       end |}.

Definition gateway (name namespace : string) (listeners : list Listener) : Gateway :=
  {| gw_Group := "gateway.networking.k8s.io"; gw_Kind := "Gateway";
     gw_Name := name; gw_Namespace := namespace; gw_Listeners := listeners |}.

Definition byNumber (service : string) (port : Z) : IngressBackend :=
  {| ib_Service := Some {| isb_Name := service;
                           isb_Port := {| sbp_Name := EmptyString; sbp_Number := port |} |};
     ib_Resource := None |}.

Definition byName (service portName : string) : IngressBackend :=
  {| ib_Service := Some {| isb_Name := service;
                           isb_Port := {| sbp_Name := portName; sbp_Number := 0 |} |};
     ib_Resource := None |}.

Definition prefixPath (path : string) (backend : IngressBackend) : HTTPIngressPath :=
  {| hip_Path := path; hip_PathType := Some PathTypePrefix; hip_Backend := backend |}.

Definition hostRule (host : string) (paths : list HTTPIngressPath) : IngressRule :=
  {| rule_Host := host; rule_HTTP := Some paths |}.

Definition ingress (rules : list IngressRule) (defaultBackend : option IngressBackend)
    : Ingress :=
  {| ing_Name := "web"; ing_Namespace := "demo"; ing_UID := "uid-1";
     ing_Spec := {| ispec_DefaultBackend := defaultBackend; ispec_Rules := rules |} |}.

Definition req : NamespacedName := ("demo", "web").

Definition cluster (ing : Ingress) (gateways : list Gateway) : Cluster :=
  {| c_Ingresses := {[ req := ing ]};
     c_Gateways := gateways;
     c_Services := ∅;
     c_HTTPRoutes := ∅;
     c_Writes := [] |}.

Definition reconciler : IngressReconciler := {| RequireHostname := false |}.

(** A gateway whose single listener takes every hostname. *)
Definition catchAll : Gateway := gateway "gw" "demo" [listener "http" None None].

(** A gateway with an exact-hostname listener only. *)
Definition exactOnly : Gateway :=
  gateway "gw" "demo" [listener "http" (Some "app.example.com") None].

(** A listener that selects namespaces by label. *)
Definition selectorListener : Listener :=
  listener "http" None (Some NamespacesFromSelector).

(** Two hostnames that differ only in a dot against a dash. *)
Definition dotDash : Ingress :=
  ingress [hostRule "a.b" [prefixPath "/" (byNumber "s1" 80)];
           hostRule "a-b" [prefixPath "/" (byNumber "s2" 80)]] None.

(** The second hostname names a port of a service that does not exist. *)
Definition missingService : Ingress :=
  ingress [hostRule "a.example.com" [prefixPath "/" (byNumber "s1" 80)];
           hostRule "b.example.com" [prefixPath "/" (byName "gone" "http")]] None.

(** One hostname whose paths are declared in descending order. *)
Definition descending : Ingress :=
  ingress [hostRule "a.example.com" [prefixPath "/b" (byNumber "s1" 80);
                                     prefixPath "/a" (byNumber "s2" 80)]] None.

(** No rules, a default backend. *)
Definition defaultOnly : Ingress := ingress [] (Some (byNumber "fallback" 80)).

(** What the two revisions make of the rules of [descending]. *)
Definition sortedRules : list HTTPRouteRule :=
  Eval vm_compute in
    match snd (Grouped.mapToHTTPRouteRules "demo" (ispec_Rules (ing_Spec descending))
                 (cluster descending [catchAll])) with
    | Ok rules => rules
    | Err _ => []
    end.

Definition plainRules : list HTTPRouteRule :=
  Eval vm_compute in
    match snd (createHTTPRouteRules "demo" (ispec_Rules (ing_Spec descending)) None
                 (cluster descending [catchAll])) with
    | Ok rules => rules
    | Err _ => []
    end.

Definition owner : OwnerReference := createOwnerReference dotDash.

(** The owner reference a recreated ingress of the same name would carry. *)
Definition formerOwner : OwnerReference :=
  {| or_APIVersion := "networking.k8s.io/v1"; or_Kind := "Ingress"; or_Name := "web";
     or_UID := "uid-0"; or_Controller := Some true; or_BlockOwnerDeletion := Some true |}.

Definition foreignOwner : OwnerReference :=
  {| or_APIVersion := "apps/v1"; or_Kind := "Deployment"; or_Name := "web";
     or_UID := "uid-9"; or_Controller := Some true; or_BlockOwnerDeletion := Some true |}.

Definition someSpec : HTTPRouteSpec :=
  {| rs_ParentRefs := [createParentRef catchAll (listener "http" None None)];
     rs_Hostnames := ["a.example.com"];
     rs_Rules := [] |}.

Definition routeOf (o : OwnerReference) : HTTPRoute :=
  {| hr_Meta := {| om_Name := "web"; om_Namespace := "demo"; om_OwnerReferences := [o] |};
     hr_Spec := zeroSpec |}.

Definition withRoute (route : HTTPRoute) : Cluster :=
  {| c_Ingresses := ∅; c_Gateways := []; c_Services := ∅;
     c_HTTPRoutes := {[ req := route ]}; c_Writes := [] |}.

(** A service with a metrics port and two ports called http. *)
Definition apiService : Service :=
  {| svc_Ports := [ {| sp_Name := "metrics"; sp_Port := 9090 |};
                    {| sp_Name := "http"; sp_Port := 8080 |};
                    {| sp_Name := "http"; sp_Port := 8081 |} ] |}.

(** A cluster that holds [apiService] and nothing else. *)
Definition withService : Cluster :=
  {| c_Ingresses := ∅; c_Gateways := []; c_Services := {[ ("demo", "api") := apiService ]};
     c_HTTPRoutes := ∅; c_Writes := [] |}.

(** A backend that names a resource and a service at once. *)
Definition resourceBackend : IngressBackend :=
  {| ib_Service := Some {| isb_Name := "api";
                           isb_Port := {| sbp_Name := EmptyString; sbp_Number := 80 |} |};
     ib_Resource := Some {| tlor_APIGroup := Some "example.io";
                            tlor_Kind := "Bucket"; tlor_Name := "assets" |} |}.

(** Two hostnames with different route names. *)
Definition twoHosts : Ingress :=
  ingress [hostRule "a.example.com" [prefixPath "/" (byNumber "s1" 80)];
           hostRule "b.example.com" [prefixPath "/" (byNumber "s2" 80)]] None.

(** A reconciler that asks for hostnames. *)
Definition strict : IngressReconciler := {| RequireHostname := true |}.

(** Listeners under three keys of the grouped map, one of them out of reach
    of the namespace demo. *)
Definition mixed : list Gateway :=
  [ gateway "gw-b" "demo" [listener "wild" (Some "*.example.com") None;
                           listener "any" None None];
    gateway "gw-a" "infra" [listener "exact" (Some "a.example.com") (Some NamespacesFromAll);
                            listener "private" None None] ].

(** Two paths the comparison of rules does not tell apart, declared after
    a path that sorts behind them. *)
Definition ties : Ingress :=
  ingress [hostRule "a.example.com" [prefixPath "/b" (byNumber "s1" 80);
                                     prefixPath "/a" (byNumber "s2" 8080);
                                     prefixPath "/a" (byNumber "s2" 80)]] None.

Definition sortedTies : list HTTPRouteRule :=
  Eval vm_compute in
    match snd (Grouped.mapToHTTPRouteRules "demo" (ispec_Rules (ing_Spec ties))
                 (cluster ties [catchAll])) with
    | Ok rules => rules
    | Err _ => []
    end.

(** Go's map ranges in two orders: the entries as the map lists them, and
    the other way round. *)
Definition forwards : Grouped.Ranges :=
  {| Grouped.rangeRules := fun m => map_to_list m;
     Grouped.rangeRefs := fun _ m => map_to_list m |}.

Definition backwards : Grouped.Ranges :=
  {| Grouped.rangeRules := fun m => rev (map_to_list m);
     Grouped.rangeRefs := fun _ m => rev (map_to_list m) |}.

(** A rule without a host beside a rule with one. *)
Definition hostless : Ingress :=
  ingress [hostRule EmptyString [prefixPath "/" (byNumber "s1" 80)];
           hostRule "a.example.com" [prefixPath "/" (byNumber "s2" 80)]] None.

(** A path on the service that is also the default backend, a path on
    another service, and a rule without an HTTP section. *)
Definition withFallback : list IngressRule :=
  [ hostRule "a.example.com" [prefixPath "/" (byNumber "fallback" 80);
                              prefixPath "/x" (byNumber "s1" 80)];
    {| rule_Host := "a.example.com"; rule_HTTP := None |} ].

Definition fallbackRef : HTTPBackendRef :=
  {| br_Ref := {| bor_Group := Some EmptyString; bor_Kind := Some "Service";
                  bor_Name := "fallback"; bor_Namespace := Some "demo";
                  bor_Port := Some 80 |};
     br_Weight := Some 1 |}.

(** A listener that declares the empty hostname. *)
Definition emptyHostname : Gateway := gateway "gw" "demo" [listener "http" (Some EmptyString) None].

End Fixtures.

(* ===================================================================== *)
(** ** Properties *)
(* ===================================================================== *)

(** *** Strings *)

Lemma string_app_cons (a : ascii) (s t : string) : String a s +:+ t = String a (s +:+ t).
Proof. reflexivity. Qed.

Lemma string_app_nil_l (t : string) : EmptyString +:+ t = t.
Proof. reflexivity. Qed.

Lemma string_app_nil_r (s : string) : s +:+ EmptyString = s.
Proof.
  induction s as [|a s IH]; [reflexivity|]. rewrite string_app_cons, IH. reflexivity.
Qed.

Lemma string_app_assoc (s t u : string) : (s +:+ t) +:+ u = s +:+ (t +:+ u).
Proof. induction s as [|a s IH]; [reflexivity|]. rewrite !string_app_cons, IH. reflexivity. Qed.

Lemma EqualFold_refl (s : string) : GoStrings.EqualFold s s = true.
Proof.
  induction s as [|a s IH]; simpl; [reflexivity|].
  rewrite Ascii.eqb_refl, IH. reflexivity.
Qed.

Lemma isEqual_refl_spec (spec : HTTPRouteSpec) : isEqual spec spec = true.
Proof. unfold isEqual, marshal, marshal_HTTPRouteSpec. apply String.eqb_refl. Qed.

Lemma isEqual_refl_backendRef (ref : HTTPBackendRef) : isEqual ref ref = true.
Proof. unfold isEqual, marshal, marshal_HTTPBackendRef. apply String.eqb_refl. Qed.

Example generateHTTPRouteName_ex :
  generateHTTPRouteName "web" "*.example.com" = "web-wildcard-example-com".
Proof. reflexivity. Qed.

Example hostnameMatches_ex1 : hostnameMatches "a.example.com" "*.example.com" = true.
Proof. reflexivity. Qed.

Example hostnameMatches_ex2 : hostnameMatches "example.com" "*.example.com" = false.
Proof. reflexivity. Qed.

(** *** Hostname matching *)

(** A wildcard pattern is decided by the two tests on the text after the
    star and the dot. *)
Lemma hostnameMatches_wildcard (ingressHost suffix : string) :
  hostnameMatches ingressHost ("*." +:+ suffix)
  = negb (GoStrings.EqualFold ingressHost suffix) && GoStrings.HasSuffix ingressHost suffix.
Proof. destruct suffix; reflexivity. Qed.

(** The bare domain never matches its own wildcard pattern. *)
Lemma hostnameMatches_bare_domain (suffix : string) :
  hostnameMatches suffix ("*." +:+ suffix) = false.
Proof. rewrite hostnameMatches_wildcard, EqualFold_refl. reflexivity. Qed.

(** The two revisions of [hostnameMatches] agree. *)
Lemma hostnameMatches_revisions (ingressHost listenerHost : string) :
  Grouped.hostnameMatches ingressHost listenerHost = hostnameMatches ingressHost listenerHost.
Proof.
  unfold Grouped.hostnameMatches, hostnameMatches.
  destruct (GoStrings.HasPrefix listenerHost "*."); [apply andb_comm | reflexivity].
Qed.

(** C2, on the code: the suffix test of [hostnameMatches] looks for the text
    after the star and the dot without the dot in front of it and compares
    bytes exactly.  So a host that merely ends in the letters of the domain
    matches the wildcard although it is no subdomain, and a subdomain written
    in capitals does not match. *)
Theorem hostnameMatches_wildcard_without_separator :
  hostnameMatches "badexample.com" "*.example.com" = true
  /\ GoStrings.HasSuffix "badexample.com" ".example.com" = false
  /\ hostnameMatches "A.EXAMPLE.COM" "*.example.com" = false
  /\ Grouped.hostnameMatches "badexample.com" "*.example.com" = true.
Proof. repeat split; reflexivity. Qed.

(** *** Path translation *)

Lemma createPathMatch_value (path : HTTPIngressPath) :
  pm_Value (createPathMatch path) = Some (hip_Path path).
Proof.
  unfold createPathMatch. destruct (hip_PathType path) as [t|]; [|reflexivity].
  repeat (match goal with |- context [if ?b then _ else _] => destruct b end); reflexivity.
Qed.

Lemma createPathMatch_prefix (p : string) (b : IngressBackend) :
  createPathMatch {| hip_Path := p; hip_PathType := Some PathTypePrefix; hip_Backend := b |}
  = {| pm_Type := Some PathMatchPathPrefix; pm_Value := Some p |}.
Proof. reflexivity. Qed.

Lemma createPathMatch_exact (p : string) (b : IngressBackend) :
  createPathMatch {| hip_Path := p; hip_PathType := Some PathTypeExact; hip_Backend := b |}
  = {| pm_Type := Some PathMatchExact; pm_Value := Some p |}.
Proof. reflexivity. Qed.

Lemma createPathMatch_absent (p : string) (b : IngressBackend) :
  createPathMatch {| hip_Path := p; hip_PathType := None; hip_Backend := b |}
  = {| pm_Type := None; pm_Value := Some p |}.
Proof. reflexivity. Qed.

(** C5, on the code: [createPathMatch] translates the path type
    ImplementationSpecific to a regular-expression match, not to a prefix
    match; the path value is carried through. *)
Theorem createPathMatch_implementation_specific (p : string) (b : IngressBackend) :
  createPathMatch
    {| hip_Path := p; hip_PathType := Some PathTypeImplementationSpecific; hip_Backend := b |}
  = {| pm_Type := Some PathMatchRegularExpression; pm_Value := Some p |}
  /\ PathMatchRegularExpression <> PathMatchPathPrefix.
Proof. split; [reflexivity | discriminate]. Qed.

(** *** Namespace accessibility *)

Lemma listenerNsSelector_default (name : string) (hostname : option string) :
  listenerNsSelector {| l_Name := name; l_Hostname := hostname; l_AllowedRoutes := None |}
  = NamespacesFromSame.
Proof. reflexivity. Qed.

Lemma isListenerAccessible_iff (listener : Listener) (gatewayNamespace ingressNamespace : string) :
  isListenerAccessibleFromNamespace listener gatewayNamespace ingressNamespace = true
  <-> listenerNsSelector listener = NamespacesFromAll
      \/ (listenerNsSelector listener = NamespacesFromSame
          /\ gatewayNamespace = ingressNamespace).
Proof.
  unfold isListenerAccessibleFromNamespace.
  rewrite orb_true_iff, andb_true_iff, !String.eqb_eq. reflexivity.
Qed.

Lemma findMatching_listeners_filter ns hostname gateway listeners st :
  foldl (findMatching_step ns hostname gateway) st
    (List.filter (fun l => isListenerAccessibleFromNamespace l (gw_Namespace gateway) ns) listeners)
  = foldl (findMatching_step ns hostname gateway) st listeners.
Proof.
  revert st. induction listeners as [|l ls IH]; intros st; [reflexivity|].
  simpl. destruct (isListenerAccessibleFromNamespace l (gw_Namespace gateway) ns) eqn:E.
  - simpl. apply IH.
  - rewrite IH. f_equal. destruct st as [m r]. unfold findMatching_step. rewrite E. reflexivity.
Qed.

Lemma findMatchingGateways_accessibleOnly ns hostname gateways :
  findMatchingGateways ns hostname (List.map (accessibleOnly ns) gateways)
  = findMatchingGateways ns hostname gateways.
Proof.
  unfold findMatchingGateways. f_equal. generalize (∅ : gmap string bool, @nil ParentReference).
  induction gateways as [|g gs IH]; intros st; [reflexivity|].
  simpl. rewrite IH. f_equal.
  apply (findMatching_listeners_filter ns hostname (accessibleOnly ns g)).
Qed.

Lemma findCatchAll_listeners_filter ns gateway listeners acc :
  foldl (findCatchAll_step ns gateway) acc
    (List.filter (fun l => isListenerAccessibleFromNamespace l (gw_Namespace gateway) ns) listeners)
  = foldl (findCatchAll_step ns gateway) acc listeners.
Proof.
  revert acc. induction listeners as [|l ls IH]; intros acc; [reflexivity|].
  simpl. destruct (isListenerAccessibleFromNamespace l (gw_Namespace gateway) ns) eqn:E.
  - simpl. apply IH.
  - rewrite IH. f_equal. unfold findCatchAll_step. rewrite E. reflexivity.
Qed.

Lemma findCatchAllGateways_accessibleOnly ns gateways :
  findCatchAllGateways ns (List.map (accessibleOnly ns) gateways)
  = findCatchAllGateways ns gateways.
Proof.
  unfold findCatchAllGateways. generalize (@nil ParentReference).
  induction gateways as [|g gs IH]; intros acc; [reflexivity|].
  simpl. rewrite IH. f_equal.
  apply (findCatchAll_listeners_filter ns (accessibleOnly ns g)).
Qed.

(** C6 as stated fails: a listener whose policy selects namespaces by label
    is not admitted although the ingress lives in the gateway's namespace. *)
Lemma isListenerAccessible_selector_same_namespace :
  exists listener namespace,
    listenerNsSelector listener = NamespacesFromSelector
    /\ (listenerNsSelector listener = NamespacesFromAll \/ namespace = namespace)
    /\ isListenerAccessibleFromNamespace listener namespace namespace = false.
Proof.
  exists Fixtures.selectorListener, "demo".
  split; [reflexivity | split; [right; reflexivity | reflexivity]].
Qed.

(** C6, amended: a listener is admitted exactly when its policy is All, or
    its policy is Same (declared, or by default when none is declared) and
    the ingress namespace is the gateway's; under any other policy it is
    never admitted.  Both selections skip the listeners that fail the test
    before they look at a hostname: they return what they return on the
    gateways stripped of those listeners. *)
Theorem isListenerAccessible_exactly :
  forall (listener : Listener) (gatewayNamespace ingressNamespace hostname : string)
         (gateways : list Gateway),
    (isListenerAccessibleFromNamespace listener gatewayNamespace ingressNamespace = true
     <-> listenerNsSelector listener = NamespacesFromAll
         \/ (listenerNsSelector listener = NamespacesFromSame
             /\ gatewayNamespace = ingressNamespace))
    /\ (l_AllowedRoutes listener = None -> listenerNsSelector listener = NamespacesFromSame)
    /\ findMatchingGateways ingressNamespace hostname gateways
       = findMatchingGateways ingressNamespace hostname
           (List.map (accessibleOnly ingressNamespace) gateways)
    /\ findCatchAllGateways ingressNamespace gateways
       = findCatchAllGateways ingressNamespace
           (List.map (accessibleOnly ingressNamespace) gateways).
Proof.
  intros. split; [apply isListenerAccessible_iff|]. split.
  - intros H. unfold listenerNsSelector. rewrite H. reflexivity.
  - split; [symmetry; apply findMatchingGateways_accessibleOnly
           | symmetry; apply findCatchAllGateways_accessibleOnly].
Qed.

(** *** The JSON text of a value *)

Lemma escapeByte_readback (c : ascii) (r : string) :
  (nat_of_ascii c <? 128)%nat = true ->
  unescapeByte (Json.escapeByte c +:+ r) = Some (c, r).
Proof.
  destruct c as [b0 b1 b2 b3 b4 b5 b6 []]; [intros H; vm_compute in H; destruct b0, b1, b2, b3, b4, b5, b6; discriminate H|].
  intros _. destruct b0, b1, b2, b3, b4, b5, b6; reflexivity.
Qed.

Lemma escape_ascii_cons (c : ascii) (s : string) :
  (nat_of_ascii c <? 128)%nat = true ->
  Json.escape (String c s) = Json.escapeByte c +:+ Json.escape s.
Proof. intros H. unfold Json.escape. cbn [Json.escape_from]. rewrite H. reflexivity. Qed.

(** The escaped text of an ASCII string, closed by a quote, can be read
    back: it determines the string and what follows the quote. *)
Lemma escape_readback (s1 : string) :
  forall s2 r1 r2,
    asciiString s1 = true -> asciiString s2 = true ->
    Json.escape s1 +:+ String "034"%char r1 = Json.escape s2 +:+ String "034"%char r2 ->
    s1 = s2 /\ r1 = r2.
Proof.
  induction s1 as [|c1 s1 IH]; intros [|c2 s2] r1 r2 H1 H2 E.
  - injection E as ->. auto.
  - exfalso. cbn [asciiString] in H2. apply andb_true_iff in H2 as [Hc _].
    rewrite (escape_ascii_cons c2 s2 Hc), string_app_assoc in E.
    apply (f_equal unescapeByte) in E. rewrite escapeByte_readback in E by exact Hc.
    discriminate E.
  - exfalso. cbn [asciiString] in H1. apply andb_true_iff in H1 as [Hc _].
    rewrite (escape_ascii_cons c1 s1 Hc), string_app_assoc in E.
    apply (f_equal unescapeByte) in E. rewrite escapeByte_readback in E by exact Hc.
    discriminate E.
  - cbn [asciiString] in H1, H2.
    apply andb_true_iff in H1 as [Hc1 H1]. apply andb_true_iff in H2 as [Hc2 H2].
    rewrite (escape_ascii_cons c1 s1 Hc1), (escape_ascii_cons c2 s2 Hc2), !string_app_assoc in E.
    apply (f_equal unescapeByte) in E.
    rewrite !escapeByte_readback in E by assumption.
    injection E as -> E. destruct (IH s2 r1 r2 H1 H2 E) as [-> ->]. auto.
Qed.

Lemma quoted_readback (s1 s2 r1 r2 : string) :
  asciiString s1 = true -> asciiString s2 = true ->
  Json.quoted s1 +:+ r1 = Json.quoted s2 +:+ r2 ->
  s1 = s2 /\ r1 = r2.
Proof.
  unfold Json.quoted, Json.quote. intros H1 H2 E.
  rewrite !string_app_cons, !string_app_nil_l, !string_app_assoc, !string_app_cons,
    !string_app_nil_l in E.
  injection E as E. apply (escape_readback s1 s2 r1 r2 H1 H2 E).
Qed.

Lemma quoted_head (s r : string) : exists t, Json.quoted s +:+ r = String "034"%char t.
Proof.
  unfold Json.quoted, Json.quote. rewrite !string_app_cons. eexists. reflexivity.
Qed.

(** *** Numbers *)

Lemma numberBytes_readback (d1 : string) :
  forall d2 r1 r2,
    numberBytes d1 = true -> numberBytes d2 = true ->
    numberEnd r1 = true -> numberEnd r2 = true ->
    d1 +:+ r1 = d2 +:+ r2 -> d1 = d2 /\ r1 = r2.
Proof.
  induction d1 as [|c1 d1 IH]; intros [|c2 d2] r1 r2 H1 H2 E1 E2 E.
  - auto.
  - exfalso. rewrite string_app_nil_l, string_app_cons in E. subst r1. cbn in E1, H2.
    apply andb_true_iff in H2 as [H2 _]. rewrite H2 in E1. discriminate E1.
  - exfalso. rewrite string_app_nil_l, string_app_cons in E. subst r2. cbn in E2, H1.
    apply andb_true_iff in H1 as [H1 _]. rewrite H1 in E2. discriminate E2.
  - rewrite !string_app_cons in E. injection E as -> E.
    cbn [numberBytes] in H1, H2.
    apply andb_true_iff in H1 as [_ H1]. apply andb_true_iff in H2 as [_ H2].
    destruct (IH d2 r1 r2 H1 H2 E1 E2 E) as [-> ->]. auto.
Qed.

Lemma numberByte_digit (x : N) : numberByte (pretty_N_char x) = true.
Proof.
  destruct x as [|p]; [reflexivity|].
  do 4 (try reflexivity; destruct p as [p|p|]); reflexivity.
Qed.

Lemma numberBytes_pretty_N_go (x : N) :
  forall s, numberBytes s = true -> numberBytes (pretty_N_go x s) = true.
Proof.
  induction x as [x IH] using (well_founded_induction N.lt_wf_0). intros s Hs.
  destruct (decide (x = 0%N)) as [->|Hne].
  - rewrite pretty_N_go_0. exact Hs.
  - rewrite pretty_N_go_step by lia. apply IH.
    + apply N.div_lt; lia.
    + cbn [numberBytes]. rewrite numberByte_digit. exact Hs.
Qed.

Lemma numberBytes_pretty_Z (z : Z) : numberBytes (pretty z) = true.
Proof.
  assert (HN : forall n : N, numberBytes (pretty n) = true).
  { intros n. unfold pretty, pretty_N. destruct (decide (n = 0%N)); [reflexivity|].
    apply numberBytes_pretty_N_go. reflexivity. }
  destruct z as [|p|p]; [reflexivity | apply (HN (Npos p)) |].
  change (pretty (Z.neg p)) with ("-" +:+ pretty (Npos p)).
  rewrite string_app_cons. cbn [numberBytes]. rewrite string_app_nil_l. apply (HN (Npos p)).
Qed.

Lemma pretty_N_go_suffix (x : N) : forall s, exists p, pretty_N_go x s = p +:+ s.
Proof.
  induction x as [x IH] using (well_founded_induction N.lt_wf_0). intros s.
  destruct (decide (x = 0%N)) as [->|Hne].
  - exists EmptyString. rewrite pretty_N_go_0. reflexivity.
  - rewrite pretty_N_go_step by lia.
    destruct (IH (x `div` 10)%N (N.div_lt x 10 ltac:(lia) ltac:(lia))
                (String (pretty_N_char (x `mod` 10)) s)) as [p Hp].
    exists (p +:+ String (pretty_N_char (x `mod` 10)) EmptyString).
    rewrite Hp, string_app_assoc, string_app_cons. reflexivity.
Qed.

Lemma pretty_N_nonempty (n : N) : pretty n <> EmptyString.
Proof.
  unfold pretty, pretty_N. destruct (decide (n = 0%N)) as [|Hne]; [discriminate|].
  rewrite pretty_N_go_step by lia.
  destruct (pretty_N_go_suffix (n `div` 10)%N (String (pretty_N_char (n `mod` 10)) EmptyString))
    as [p Hp].
  rewrite Hp. destruct p; discriminate.
Qed.

Lemma pretty_Z_head (z : Z) (r : string) :
  exists c t, pretty z +:+ r = String c t /\ numberByte c = true.
Proof.
  pose proof (numberBytes_pretty_Z z) as H.
  destruct (pretty z) as [|c t] eqn:E.
  - exfalso. destruct z as [|p|p]; [discriminate E | | discriminate E].
    apply (pretty_N_nonempty (Npos p)). exact E.
  - exists c, (t +:+ r). rewrite string_app_cons. cbn in H.
    apply andb_true_iff in H as [H _]. auto.
Qed.

Lemma pretty_Z_readback (z1 z2 : Z) (r1 r2 : string) :
  numberEnd r1 = true -> numberEnd r2 = true ->
  pretty z1 +:+ r1 = pretty z2 +:+ r2 -> z1 = z2 /\ r1 = r2.
Proof.
  intros E1 E2 E.
  destruct (numberBytes_readback (pretty z1) (pretty z2) r1 r2
              (numberBytes_pretty_Z z1) (numberBytes_pretty_Z z2) E1 E2 E) as [Hz ->].
  split; [|reflexivity]. apply (inj pretty). exact Hz.
Qed.


Ltac string_norm H :=
  repeat first [rewrite string_app_assoc in H | rewrite string_app_cons in H
               | rewrite string_app_nil_l in H].

Lemma JSON_induction (P : JSON -> Prop) :
  (forall s, P (JString s)) ->
  (forall z, P (JNumber z)) ->
  (forall items, List.Forall P items -> P (JArray items)) ->
  (forall fields, List.Forall (fun kv => P (snd kv)) fields -> P (JObject fields)) ->
  forall j, P j.
Proof.
  intros Hs Hn Ha Ho. fix IH 1. intros [s|z|items|fields].
  - apply Hs.
  - apply Hn.
  - apply Ha. induction items as [|j items IHl]; constructor; [apply IH | exact IHl].
  - apply Ho. induction fields as [|[k v] fields IHl]; constructor; [apply IH | exact IHl].
Qed.

Lemma commas_cons {T} (txt : T -> string) (e : T) (l : list T) (close : ascii) (r : string) :
  Json.commas (List.map txt (e :: l)) +:+ String close r
  = txt e +:+ match l with
              | [] => String close r
              | _ => String ","%char (Json.commas (List.map txt l) +:+ String close r)
              end.
Proof.
  destruct l as [|e' l]; [reflexivity|].
  cbn [List.map Json.commas]. rewrite !string_app_assoc, string_app_cons. reflexivity.
Qed.

(** A list of texts separated by commas and closed by [close] can be read
    back when every text can and none starts with [close]. *)
Lemma commas_readback {T} (txt : T -> string) (ok : T -> bool) (close : ascii) (l1 : list T) :
  numberByte close = false ->
  close <> ","%char ->
  (forall e r, exists c t, txt e +:+ r = String c t /\ c <> close) ->
  List.Forall
    (fun e1 =>
       forall e2 r1 r2,
         ok e1 = true -> ok e2 = true -> numberEnd r1 = true -> numberEnd r2 = true ->
         txt e1 +:+ r1 = txt e2 +:+ r2 -> e1 = e2 /\ r1 = r2) l1 ->
  forall l2 r1 r2,
    forallb ok l1 = true -> forallb ok l2 = true ->
    Json.commas (List.map txt l1) +:+ String close r1
    = Json.commas (List.map txt l2) +:+ String close r2 ->
    l1 = l2 /\ r1 = r2.
Proof.
  intros Hclose Hcomma Hhead Hall. induction Hall as [|e1 l1 He1 _ IH]; intros [|e2 l2] r1 r2 H1 H2 E.
  - cbn in E. injection E as ->. auto.
  - exfalso. rewrite commas_cons in E. cbn [List.map Json.commas] in E.
    rewrite string_app_nil_l in E.
    destruct (Hhead e2 (match l2 with
                        | [] => String close r2
                        | _ => String ","%char (Json.commas (List.map txt l2) +:+ String close r2)
                        end)) as (c & t & Hc & Hne).
    rewrite Hc in E. injection E as E _. congruence.
  - exfalso. rewrite commas_cons in E. cbn [List.map Json.commas] in E.
    rewrite string_app_nil_l in E.
    destruct (Hhead e1 (match l1 with
                        | [] => String close r1
                        | _ => String ","%char (Json.commas (List.map txt l1) +:+ String close r1)
                        end)) as (c & t & Hc & Hne).
    rewrite Hc in E. injection E as E _. congruence.
  - rewrite !commas_cons in E. cbn [forallb] in H1, H2.
    apply andb_true_iff in H1 as [Ho1 H1]. apply andb_true_iff in H2 as [Ho2 H2].
    apply He1 in E; [| exact Ho1 | exact Ho2 | |].
    + destruct E as [-> E]. destruct l1 as [|x1 l1], l2 as [|x2 l2].
      * injection E as ->. auto.
      * injection E as E _. contradiction.
      * injection E as E _. symmetry in E. contradiction.
      * injection E as E. destruct (IH (x2 :: l2) r1 r2 H1 H2 E) as [-> ->]. auto.
    + destruct l1; cbn; [rewrite Hclose|]; reflexivity.
    + destruct l2; cbn; [rewrite Hclose|]; reflexivity.
Qed.

Lemma render_head (j : JSON) (r : string) :
  exists c t, Json.render j +:+ r = String c t /\ valueStart c = true.
Proof.
  destruct j as [s|z|items|fields]; cbn [Json.render].
  - destruct (quoted_head s r) as [t Ht]. rewrite Ht. eexists. eexists. split; reflexivity.
  - destruct (pretty_Z_head z r) as (c & t & Hc & Hn). rewrite Hc. exists c, t.
    split; [reflexivity|]. unfold valueStart. rewrite Hn. reflexivity.
  - rewrite string_app_assoc, string_app_cons. eexists. eexists. split; reflexivity.
  - rewrite string_app_assoc, string_app_cons. eexists. eexists. split; reflexivity.
Qed.

(** The text of a field: the key, a colon, the value. *)
Lemma field_head (kv : string * JSON) (r : string) :
  exists t, (Json.quoted (fst kv) +:+ ":" +:+ Json.render (snd kv)) +:+ r = String "034"%char t.
Proof.
  rewrite string_app_assoc. apply quoted_head.
Qed.

(** The text [json.Marshal] writes determines the value it was written
    for, as long as the strings are ASCII: a value followed by any text in
    front of which a number ends can be read back from the front. *)
Lemma render_readback (j1 : JSON) :
  forall j2 r1 r2,
    asciiJSON j1 = true -> asciiJSON j2 = true ->
    numberEnd r1 = true -> numberEnd r2 = true ->
    Json.render j1 +:+ r1 = Json.render j2 +:+ r2 ->
    j1 = j2 /\ r1 = r2.
Proof.
  induction j1 as [s1|z1|items1 IH|fields1 IH] using JSON_induction;
    intros j2 r1 r2 A1 A2 E1 E2 E.
  - destruct j2 as [s2|z2|items2|fields2].
    + cbn [Json.render] in E. destruct (quoted_readback s1 s2 r1 r2 A1 A2 E) as [-> ->]. auto.
    + exfalso. destruct (quoted_head s1 r1) as [t Ht].
      destruct (pretty_Z_head z2 r2) as (c & t' & Hc & Hn).
      cbn [Json.render] in E. rewrite Ht, Hc in E. injection E as <- _. discriminate Hn.
    + exfalso. destruct (quoted_head s1 r1) as [t Ht]. cbn [Json.render] in E.
      rewrite Ht, string_app_assoc, string_app_cons in E. discriminate E.
    + exfalso. destruct (quoted_head s1 r1) as [t Ht]. cbn [Json.render] in E.
      rewrite Ht, string_app_assoc, string_app_cons in E. discriminate E.
  - destruct j2 as [s2|z2|items2|fields2].
    + exfalso. destruct (quoted_head s2 r2) as [t Ht].
      destruct (pretty_Z_head z1 r1) as (c & t' & Hc & Hn).
      cbn [Json.render] in E. rewrite Ht, Hc in E. injection E as -> _. discriminate Hn.
    + cbn [Json.render] in E. destruct (pretty_Z_readback z1 z2 r1 r2 E1 E2 E) as [-> ->]. auto.
    + exfalso. destruct (pretty_Z_head z1 r1) as (c & t' & Hc & Hn). cbn [Json.render] in E.
      rewrite Hc, string_app_assoc, string_app_cons in E. injection E as -> _. discriminate Hn.
    + exfalso. destruct (pretty_Z_head z1 r1) as (c & t' & Hc & Hn). cbn [Json.render] in E.
      rewrite Hc, string_app_assoc, string_app_cons in E. injection E as -> _. discriminate Hn.
  - destruct j2 as [s2|z2|items2|fields2].
    + exfalso. destruct (quoted_head s2 r2) as [t Ht]. cbn [Json.render] in E.
      rewrite Ht, string_app_assoc, string_app_cons in E. discriminate E.
    + exfalso. destruct (pretty_Z_head z2 r2) as (c & t' & Hc & Hn). cbn [Json.render] in E.
      rewrite Hc, string_app_assoc, string_app_cons in E. injection E as <- _. discriminate Hn.
    + cbn [Json.render] in E.
      string_norm E.
      injection E as E. cbn [asciiJSON] in A1, A2.
      assert (Hhead : forall e r, exists c t, Json.render e +:+ r = String c t /\ c <> "]"%char).
      { intros e r. destruct (render_head e r) as (c & t & Hc & Hv). exists c, t.
        split; [exact Hc|]. intros ->. discriminate Hv. }
      destruct (commas_readback Json.render asciiJSON "]"%char items1 eq_refl
                  ltac:(discriminate) Hhead IH items2 r1 r2 A1 A2 E) as [-> ->].
      auto.
    + exfalso. cbn [Json.render] in E.
      rewrite !string_app_assoc, !string_app_cons in E. discriminate E.
  - destruct j2 as [s2|z2|items2|fields2].
    + exfalso. destruct (quoted_head s2 r2) as [t Ht]. cbn [Json.render] in E.
      rewrite Ht, string_app_assoc, string_app_cons in E. discriminate E.
    + exfalso. destruct (pretty_Z_head z2 r2) as (c & t' & Hc & Hn). cbn [Json.render] in E.
      rewrite Hc, string_app_assoc, string_app_cons in E. injection E as <- _. discriminate Hn.
    + exfalso. cbn [Json.render] in E.
      rewrite !string_app_assoc, !string_app_cons in E. discriminate E.
    + cbn [Json.render] in E.
      string_norm E.
      injection E as E. cbn [asciiJSON] in A1, A2.
      assert (Hhead : forall (e : string * JSON) r,
                 exists c t,
                   (Json.quoted (fst e) +:+ ":" +:+ Json.render (snd e)) +:+ r = String c t
                   /\ c <> "}"%char).
      { intros e r. destruct (field_head e r) as [t Ht]. exists "034"%char, t.
        split; [exact Ht | discriminate]. }
      assert (Hall : List.Forall
                (fun e1 : string * JSON =>
                   forall (e2 : string * JSON) s1 s2,
                     asciiString (fst e1) && asciiJSON (snd e1) = true ->
                     asciiString (fst e2) && asciiJSON (snd e2) = true ->
                     numberEnd s1 = true -> numberEnd s2 = true ->
                     (Json.quoted (fst e1) +:+ ":" +:+ Json.render (snd e1)) +:+ s1
                     = (Json.quoted (fst e2) +:+ ":" +:+ Json.render (snd e2)) +:+ s2 ->
                     e1 = e2 /\ s1 = s2) fields1).
      { eapply List.Forall_impl; [|exact IH].
        intros [k1 v1] Hv [k2 v2] s1 s2 B1 B2 F1 F2 F. cbn [fst snd] in *.
        apply andb_true_iff in B1 as [K1 V1]. apply andb_true_iff in B2 as [K2 V2].
        rewrite !string_app_assoc in F.
        destruct (quoted_readback k1 k2 _ _ K1 K2 F) as [-> F'].
        rewrite !string_app_cons, !string_app_nil_l in F'. injection F' as F'.
        destruct (Hv v2 s1 s2 V1 V2 F1 F2 F') as [-> ->]. auto. }
      destruct (commas_readback
                  (fun kv : string * JSON =>
                     Json.quoted (fst kv) +:+ ":" +:+ Json.render (snd kv))
                  (fun kv => asciiString (fst kv) && asciiJSON (snd kv))
                  "}"%char fields1 eq_refl ltac:(discriminate) Hhead Hall fields2 r1 r2 A1 A2 E)
        as [-> ->].
      auto.
Qed.

Lemma render_inj (j1 j2 : JSON) :
  asciiJSON j1 = true -> asciiJSON j2 = true ->
  Json.render j1 = Json.render j2 -> j1 = j2.
Proof.
  intros A1 A2 E.
  destruct (render_readback j1 j2 EmptyString EmptyString A1 A2 eq_refl eq_refl) as [H _];
    [rewrite !string_app_nil_r; exact E | exact H].
Qed.

(** *** The JSON values of the route types *)

Lemma map_inj_eq {A B} (f : A -> B) (l l' : list A) :
  (forall x y, f x = f y -> x = y) -> List.map f l = List.map f l' -> l = l'.
Proof.
  intros Hf. revert l'. induction l as [|x l IH]; intros [|y l'] E; try discriminate E.
  - reflexivity.
  - cbn in E. injection E as Hx E. rewrite (Hf x y Hx), (IH l' E). reflexivity.
Qed.

Lemma JString_inj (s t : string) : JString s = JString t -> s = t.
Proof. intros H. injection H as H. exact H. Qed.

Lemma JNumber_inj (x y : Z) : JNumber x = JNumber y -> x = y.
Proof. intros H. injection H as H. exact H. Qed.

(** An [omitempty] field in front of fields with other keys can be told
    apart from them. *)
Lemma opt_app_inj {A} (k : string) (enc : A -> JSON) (a a' : option A)
    (l l' : list (string * JSON)) :
  (forall x y, enc x = enc y -> x = y) ->
  firstKey l <> Some k -> firstKey l' <> Some k ->
  Json.opt k enc a ++ l = Json.opt k enc a' ++ l' -> a = a' /\ l = l'.
Proof.
  intros Hinj Hl Hl'. destruct a as [x|], a' as [y|]; cbn [Json.opt List.app]; intros H.
  - injection H as Hx Hr. rewrite (Hinj x y Hx). auto.
  - exfalso. apply Hl'. rewrite <- H. reflexivity.
  - exfalso. apply Hl. rewrite H. reflexivity.
  - auto.
Qed.

Lemma arr_app_inj {A} (k : string) (enc : A -> JSON) (v v' : list A)
    (l l' : list (string * JSON)) :
  (forall x y, enc x = enc y -> x = y) ->
  firstKey l <> Some k -> firstKey l' <> Some k ->
  Json.arr k enc v ++ l = Json.arr k enc v' ++ l' -> v = v' /\ l = l'.
Proof.
  intros Hinj Hl Hl'. destruct v as [|x v], v' as [|y v']; cbn [Json.arr List.app]; intros H.
  - auto.
  - exfalso. apply Hl. rewrite H. reflexivity.
  - exfalso. apply Hl'. rewrite <- H. reflexivity.
  - injection H as Hx Hm Hr.
    rewrite (Hinj x y Hx), (map_inj_eq enc v v' Hinj Hm). auto.
Qed.

Ltac first_key :=
  repeat match goal with
         | |- context [Json.opt _ _ ?o] => is_var o; destruct o
         | |- context [Json.arr _ _ ?v] => is_var v; destruct v
         end;
  cbn; discriminate.

Lemma parentReference_inj (p p' : ParentReference) :
  Json.parentReference p = Json.parentReference p' -> p = p'.
Proof.
  destruct p as [g k n nm sn], p' as [g' k' n' nm' sn']. unfold Json.parentReference.
  cbn [pr_Group pr_Kind pr_Namespace pr_Name pr_SectionName]. intros H.
  injection H as H.
  apply opt_app_inj in H as [-> H]; [|exact JString_inj|first_key|first_key].
  apply opt_app_inj in H as [-> H]; [|exact JString_inj|first_key|first_key].
  apply opt_app_inj in H as [-> H]; [|exact JString_inj|first_key|first_key].
  cbn [List.app] in H. injection H as -> H.
  rewrite <- (app_nil_r (Json.opt "sectionName" JString sn)),
          <- (app_nil_r (Json.opt "sectionName" JString sn')) in H.
  apply opt_app_inj in H as [-> _]; [|exact JString_inj|first_key|first_key].
  reflexivity.
Qed.

Lemma httpPathMatch_inj (m m' : HTTPPathMatch) :
  Json.httpPathMatch m = Json.httpPathMatch m' -> m = m'.
Proof.
  destruct m as [t v], m' as [t' v']. unfold Json.httpPathMatch. cbn [pm_Type pm_Value].
  intros H. injection H as H.
  apply opt_app_inj in H as [-> H]; [|exact JString_inj|first_key|first_key].
  rewrite <- (app_nil_r (Json.opt "value" JString v)),
          <- (app_nil_r (Json.opt "value" JString v')) in H.
  apply opt_app_inj in H as [-> _]; [|exact JString_inj|first_key|first_key].
  reflexivity.
Qed.

Lemma httpRouteMatch_inj (m m' : HTTPRouteMatch) :
  Json.httpRouteMatch m = Json.httpRouteMatch m' -> m = m'.
Proof.
  destruct m as [p], m' as [p']. unfold Json.httpRouteMatch. cbn [rm_Path].
  intros H. injection H as H.
  rewrite <- (app_nil_r (Json.opt "path" Json.httpPathMatch p)),
          <- (app_nil_r (Json.opt "path" Json.httpPathMatch p')) in H.
  apply opt_app_inj in H as [-> _]; [|exact httpPathMatch_inj|first_key|first_key].
  reflexivity.
Qed.

Lemma httpBackendRef_inj (b b' : HTTPBackendRef) :
  Json.httpBackendRef b = Json.httpBackendRef b' -> b = b'.
Proof.
  destruct b as [[g k nm n p] w], b' as [[g' k' nm' n' p'] w']. unfold Json.httpBackendRef.
  cbn [br_Ref br_Weight bor_Group bor_Kind bor_Name bor_Namespace bor_Port].
  intros H. injection H as H.
  apply opt_app_inj in H as [-> H]; [|exact JString_inj|first_key|first_key].
  apply opt_app_inj in H as [-> H]; [|exact JString_inj|first_key|first_key].
  cbn [List.app] in H. injection H as -> H.
  apply opt_app_inj in H as [-> H]; [|exact JString_inj|first_key|first_key].
  apply opt_app_inj in H as [-> H]; [|exact JNumber_inj|first_key|first_key].
  rewrite <- (app_nil_r (Json.opt "weight" JNumber w)),
          <- (app_nil_r (Json.opt "weight" JNumber w')) in H.
  apply opt_app_inj in H as [-> _]; [|exact JNumber_inj|first_key|first_key].
  reflexivity.
Qed.

Lemma httpRouteRule_inj (r r' : HTTPRouteRule) :
  Json.httpRouteRule r = Json.httpRouteRule r' -> r = r'.
Proof.
  destruct r as [m b], r' as [m' b']. unfold Json.httpRouteRule.
  cbn [rr_Matches rr_BackendRefs]. intros H. injection H as H.
  apply arr_app_inj in H as [-> H]; [|exact httpRouteMatch_inj|first_key|first_key].
  rewrite <- (app_nil_r (Json.arr "backendRefs" Json.httpBackendRef b)),
          <- (app_nil_r (Json.arr "backendRefs" Json.httpBackendRef b')) in H.
  apply arr_app_inj in H as [-> _]; [|exact httpBackendRef_inj|first_key|first_key].
  reflexivity.
Qed.

(** The JSON value of a spec holds every field of the spec. *)
Lemma httpRouteSpec_inj (s s' : HTTPRouteSpec) :
  Json.httpRouteSpec s = Json.httpRouteSpec s' -> s = s'.
Proof.
  destruct s as [p h r], s' as [p' h' r']. unfold Json.httpRouteSpec.
  cbn [rs_ParentRefs rs_Hostnames rs_Rules]. intros H. injection H as H.
  apply arr_app_inj in H as [-> H]; [|exact parentReference_inj|first_key|first_key].
  apply arr_app_inj in H as [-> H]; [|exact JString_inj|first_key|first_key].
  rewrite <- (app_nil_r (Json.arr "rules" Json.httpRouteRule r)),
          <- (app_nil_r (Json.arr "rules" Json.httpRouteRule r')) in H.
  apply arr_app_inj in H as [-> _]; [|exact httpRouteRule_inj|first_key|first_key].
  reflexivity.
Qed.

Lemma ascii_opt {A} (k : string) (enc : A -> JSON) (ok : A -> bool) (o : option A) :
  asciiString k = true ->
  (forall x, ok x = true -> asciiJSON (enc x) = true) ->
  match o with Some x => ok x | None => true end = true ->
  forallb (fun kv => asciiString (fst kv) && asciiJSON (snd kv)) (Json.opt k enc o) = true.
Proof.
  intros Hk Henc Ho. destruct o as [x|]; [|reflexivity].
  cbn. rewrite Hk, (Henc x Ho). reflexivity.
Qed.

Lemma ascii_arr {A} (k : string) (enc : A -> JSON) (ok : A -> bool) (v : list A) :
  asciiString k = true ->
  (forall x, ok x = true -> asciiJSON (enc x) = true) ->
  forallb ok v = true ->
  forallb (fun kv => asciiString (fst kv) && asciiJSON (snd kv)) (Json.arr k enc v) = true.
Proof.
  intros Hk Henc Hv.
  assert (Hm : forallb asciiJSON (List.map enc v) = true).
  { induction v as [|x v IH]; [reflexivity|]. cbn in Hv |- *.
    apply andb_true_iff in Hv as [Hx Hv]. rewrite (Henc x Hx), (IH Hv). reflexivity. }
  destruct v as [|x v]; [reflexivity|].
  cbn [Json.arr forallb fst snd asciiJSON]. rewrite Hk, Hm. reflexivity.
Qed.

Ltac split_ascii H :=
  repeat match type of H with
         | _ && _ = true => let H' := fresh "A" in apply andb_true_iff in H as [H H']
         end.

Ltac ascii_fields :=
  cbn [asciiJSON]; rewrite ?forallb_app; repeat (apply andb_true_iff; split);
  first [ apply (ascii_opt _ JString asciiString);
          [reflexivity | intros x Hx; exact Hx | assumption]
        | apply (ascii_opt _ JNumber (fun _ => true));
          [reflexivity | intros; reflexivity
          | match goal with |- match ?o with _ => _ end = true => destruct o; reflexivity end]
        | reflexivity
        | cbn; assumption ].

Lemma ascii_parentReference (p : ParentReference) :
  asciiParentRef p = true -> asciiJSON (Json.parentReference p) = true.
Proof.
  unfold asciiParentRef, Json.parentReference. intros H. split_ascii H. ascii_fields.
Qed.

Lemma ascii_httpPathMatch (m : HTTPPathMatch) :
  asciiOption (pm_Type m) && asciiOption (pm_Value m) = true ->
  asciiJSON (Json.httpPathMatch m) = true.
Proof.
  unfold Json.httpPathMatch. intros H. split_ascii H. ascii_fields.
Qed.

Lemma ascii_httpRouteMatch (m : HTTPRouteMatch) :
  asciiRouteMatch m = true -> asciiJSON (Json.httpRouteMatch m) = true.
Proof.
  unfold asciiRouteMatch, Json.httpRouteMatch. intros H. cbn [asciiJSON].
  apply (ascii_opt _ Json.httpPathMatch
           (fun p => asciiOption (pm_Type p) && asciiOption (pm_Value p)));
    [reflexivity | exact ascii_httpPathMatch | exact H].
Qed.

Lemma ascii_httpBackendRef (b : HTTPBackendRef) :
  asciiBackendRef b = true -> asciiJSON (Json.httpBackendRef b) = true.
Proof.
  unfold asciiBackendRef, Json.httpBackendRef. intros H. split_ascii H. ascii_fields.
Qed.

Lemma ascii_httpRouteRule (r : HTTPRouteRule) :
  asciiRule r = true -> asciiJSON (Json.httpRouteRule r) = true.
Proof.
  unfold asciiRule, Json.httpRouteRule. intros H. split_ascii H.
  cbn [asciiJSON]. rewrite !forallb_app.
  rewrite (ascii_arr _ Json.httpRouteMatch asciiRouteMatch)
    by (reflexivity || exact ascii_httpRouteMatch || assumption).
  rewrite (ascii_arr _ Json.httpBackendRef asciiBackendRef)
    by (reflexivity || exact ascii_httpBackendRef || assumption).
  reflexivity.
Qed.

Lemma ascii_httpRouteSpec (s : HTTPRouteSpec) :
  asciiSpec s = true -> asciiJSON (Json.httpRouteSpec s) = true.
Proof.
  unfold asciiSpec, Json.httpRouteSpec. intros H. split_ascii H.
  cbn [asciiJSON]. rewrite !forallb_app.
  rewrite (ascii_arr _ Json.parentReference asciiParentRef)
    by (reflexivity || exact ascii_parentReference || assumption).
  rewrite (ascii_arr _ JString asciiString)
    by (reflexivity || (intros x Hx; exact Hx) || assumption).
  rewrite (ascii_arr _ Json.httpRouteRule asciiRule)
    by (reflexivity || exact ascii_httpRouteRule || assumption).
  reflexivity.
Qed.

(** [isEqual] on specs is the comparison of the two JSON texts. *)
Lemma isEqual_texts (a b : HTTPRouteSpec) :
  isEqual a b = true
  <-> Json.render (Json.httpRouteSpec a) = Json.render (Json.httpRouteSpec b).
Proof. unfold isEqual, marshal, marshal_HTTPRouteSpec. apply String.eqb_eq. Qed.

(** On specs whose strings are ASCII the comparison of the JSON texts is
    equality of the specs. *)
Lemma isEqual_deep (a b : HTTPRouteSpec) :
  asciiSpec a = true -> asciiSpec b = true -> (isEqual a b = true <-> a = b).
Proof.
  intros Ha Hb. rewrite isEqual_texts. split.
  - intros H. apply httpRouteSpec_inj.
    apply render_inj; [apply ascii_httpRouteSpec; exact Ha
                      |apply ascii_httpRouteSpec; exact Hb | exact H].
  - intros ->. reflexivity.
Qed.

Lemma isEqual_backendRef_deep (a b : HTTPBackendRef) :
  asciiBackendRef a = true -> asciiBackendRef b = true -> (isEqual a b = true <-> a = b).
Proof.
  intros Ha Hb. unfold isEqual, marshal, marshal_HTTPBackendRef. rewrite String.eqb_eq. split.
  - intros H. apply httpBackendRef_inj.
    apply render_inj; [apply ascii_httpBackendRef; exact Ha
                      |apply ascii_httpBackendRef; exact Hb | exact H].
  - intros ->. reflexivity.
Qed.

(** *** The client *)

Ltac run_client :=
  unfold bind, ret, fail, getHTTPRoute, createHTTPRoute, updateHTTPRoute, getService in *;
  cbn beta iota in *.

Lemma isOwnedBy_iff (metadata : ObjectMeta) (owner : OwnerReference) :
  isOwnedBy metadata owner = true
  <-> exists reference,
        In reference (om_OwnerReferences metadata)
        /\ or_APIVersion reference = or_APIVersion owner
        /\ or_Kind reference = or_Kind owner
        /\ or_Name reference = or_Name owner.
Proof.
  unfold isOwnedBy. rewrite existsb_exists.
  split; intros (reference & Hin & H); exists reference.
  - rewrite !andb_true_iff, !String.eqb_eq in H. tauto.
  - rewrite !andb_true_iff, !String.eqb_eq. tauto.
Qed.

Lemma isOwnedBy_created (name namespace : string) (owner : OwnerReference) :
  isOwnedBy {| om_Name := name; om_Namespace := namespace; om_OwnerReferences := [owner] |} owner
  = true.
Proof. apply isOwnedBy_iff. exists owner. simpl. tauto. Qed.

Lemma reconcileHTTPRoute_create (c : Cluster) name owner spec :
  c_HTTPRoutes c !! name = None ->
  let httpRoute :=
    {| hr_Meta := {| om_Name := snd name; om_Namespace := fst name;
                     om_OwnerReferences := [owner] |};
       hr_Spec := spec |} in
  reconcileHTTPRoute name owner spec c
  = (storeHTTPRoute name httpRoute (WCreate name httpRoute) c, Ok Created).
Proof. intros H. unfold reconcileHTTPRoute. run_client. rewrite H. reflexivity. Qed.

Lemma reconcileHTTPRoute_update (c : Cluster) name route owner spec :
  c_HTTPRoutes c !! name = Some route ->
  isOwnedBy (hr_Meta route) owner = true ->
  isEqual (hr_Spec route) spec = false ->
  let httpRoute := {| hr_Meta := hr_Meta route; hr_Spec := spec |} in
  reconcileHTTPRoute name owner spec c
  = (storeHTTPRoute name httpRoute (WUpdate name httpRoute) c, Ok Updated).
Proof.
  intros H Ho He. unfold reconcileHTTPRoute. run_client. rewrite H, Ho, He. reflexivity.
Qed.

Lemma reconcileHTTPRoute_unchanged (c : Cluster) name route owner spec :
  c_HTTPRoutes c !! name = Some route ->
  isOwnedBy (hr_Meta route) owner = true ->
  isEqual (hr_Spec route) spec = true ->
  reconcileHTTPRoute name owner spec c = (c, Ok Unchanged).
Proof.
  intros H Ho He. unfold reconcileHTTPRoute. run_client. rewrite H, Ho, He. reflexivity.
Qed.

Lemma reconcileHTTPRoute_skipped (c : Cluster) name route owner spec :
  c_HTTPRoutes c !! name = Some route ->
  isOwnedBy (hr_Meta route) owner = false ->
  reconcileHTTPRoute name owner spec c = (c, Ok Skipped).
Proof.
  intros H Ho. unfold reconcileHTTPRoute. run_client. rewrite H, Ho. reflexivity.
Qed.

(** C4: an object that exists and is not owned by the reconciling
    declaration is left as it is, whatever the desired spec: the call ends
    without an error in the skipped branch, the cluster (the stored object
    and the list of writes with it) is the one before the call. *)
Theorem reconcileHTTPRoute_not_owned :
  forall (c : Cluster) (name : NamespacedName) (route : HTTPRoute)
         (owner : OwnerReference) (spec : HTTPRouteSpec),
    c_HTTPRoutes c !! name = Some route ->
    isOwnedBy (hr_Meta route) owner = false ->
    reconcileHTTPRoute name owner spec c = (c, Ok Skipped)
    /\ c_HTTPRoutes (fst (reconcileHTTPRoute name owner spec c)) !! name = Some route
    /\ c_Writes (fst (reconcileHTTPRoute name owner spec c)) = c_Writes c.
Proof.
  intros c name route owner spec H Ho.
  rewrite (reconcileHTTPRoute_skipped c name route owner spec H Ho). simpl. auto.
Qed.

Lemma reconcileHTTPRoute_not_owned_witness :
  reconcileHTTPRoute Fixtures.req Fixtures.owner Fixtures.someSpec
    (Fixtures.withRoute (Fixtures.routeOf Fixtures.foreignOwner))
  = (Fixtures.withRoute (Fixtures.routeOf Fixtures.foreignOwner), Ok Skipped)
  /\ c_HTTPRoutes
       (fst (reconcileHTTPRoute Fixtures.req Fixtures.owner Fixtures.someSpec
               (Fixtures.withRoute (Fixtures.routeOf Fixtures.foreignOwner)))) !! Fixtures.req
     = Some (Fixtures.routeOf Fixtures.foreignOwner)
  /\ c_Writes
       (fst (reconcileHTTPRoute Fixtures.req Fixtures.owner Fixtures.someSpec
               (Fixtures.withRoute (Fixtures.routeOf Fixtures.foreignOwner))))
     = c_Writes (Fixtures.withRoute (Fixtures.routeOf Fixtures.foreignOwner)).
Proof.
  apply (reconcileHTTPRoute_not_owned
           (Fixtures.withRoute (Fixtures.routeOf Fixtures.foreignOwner))
           Fixtures.req (Fixtures.routeOf Fixtures.foreignOwner)
           Fixtures.owner Fixtures.someSpec).
  - vm_compute. reflexivity.
  - vm_compute. reflexivity.
Defined.

(** Whatever the cluster holds, a second call with the same arguments
    writes nothing. *)
Lemma reconcileHTTPRoute_second_call (c : Cluster) name owner spec :
  let c1 := fst (reconcileHTTPRoute name owner spec c) in
  fst (reconcileHTTPRoute name owner spec c1) = c1
  /\ (snd (reconcileHTTPRoute name owner spec c1) = Ok Unchanged
      \/ snd (reconcileHTTPRoute name owner spec c1) = Ok Skipped).
Proof.
  destruct (c_HTTPRoutes c !! name) as [route|] eqn:H.
  - destruct (isOwnedBy (hr_Meta route) owner) eqn:Ho.
    + destruct (isEqual (hr_Spec route) spec) eqn:He.
      * rewrite (reconcileHTTPRoute_unchanged c name route owner spec H Ho He). simpl.
        rewrite (reconcileHTTPRoute_unchanged c name route owner spec H Ho He). auto.
      * rewrite (reconcileHTTPRoute_update c name route owner spec H Ho He). simpl.
        erewrite reconcileHTTPRoute_unchanged; [auto| | |].
        -- simpl. apply lookup_insert_eq.
        -- exact Ho.
        -- apply isEqual_refl_spec.
    + rewrite (reconcileHTTPRoute_skipped c name route owner spec H Ho). simpl.
      rewrite (reconcileHTTPRoute_skipped c name route owner spec H Ho). auto.
  - rewrite (reconcileHTTPRoute_create c name owner spec H). simpl.
    erewrite reconcileHTTPRoute_unchanged; [auto| | |].
    + simpl. apply lookup_insert_eq.
    + apply isOwnedBy_created.
    + apply isEqual_refl_spec.
Qed.

Lemma reconcileHTTPRoute_again (c : Cluster) name route owner spec :
  c_HTTPRoutes c !! name = Some route ->
  isOwnedBy (hr_Meta route) owner = true ->
  reconcileHTTPRoute name owner spec c
  = if isEqual (hr_Spec route) spec then (c, Ok Unchanged)
    else (storeHTTPRoute name {| hr_Meta := hr_Meta route; hr_Spec := spec |}
            (WUpdate name {| hr_Meta := hr_Meta route; hr_Spec := spec |}) c,
          Ok Updated).
Proof.
  intros Hl Ho. unfold reconcileHTTPRoute. run_client. rewrite Hl, Ho.
  destruct (isEqual (hr_Spec route) spec); reflexivity.
Qed.

(** C3: when no object of that name exists, the first call creates the
    object that carries the name, the namespace, the owner reference and
    the desired spec, with one create and nothing else changed.  A second
    call with the same name, owner and spec finds it owned and equal: it
    ends in the unchanged branch and leaves the cluster, the list of writes
    included, as the first call left it.  The comparison is [isEqual]: a
    second call with any spec is unchanged when [isEqual] finds the stored
    and the desired spec equal, and otherwise updates the object to the
    desired spec.  [isEqual] is true exactly when the JSON texts of the two
    specs are the same, and the text holds the whole spec: on specs whose
    strings are ASCII the texts are the same exactly when the specs are
    equal. *)
Theorem reconcileHTTPRoute_idempotent :
  forall (c : Cluster) (name : NamespacedName) (owner : OwnerReference) (spec : HTTPRouteSpec),
    c_HTTPRoutes c !! name = None ->
    exists c1 : Cluster,
      reconcileHTTPRoute name owner spec c = (c1, Ok Created)
      /\ c_HTTPRoutes c1 = <[name := createdRoute name owner spec]> (c_HTTPRoutes c)
      /\ c_Writes c1 = c_Writes c ++ [WCreate name (createdRoute name owner spec)]
      /\ sameInputs c c1
      /\ length (c_Writes c1) = S (length (c_Writes c))
      /\ reconcileHTTPRoute name owner spec c1 = (c1, Ok Unchanged)
      /\ (forall spec',
             reconcileHTTPRoute name owner spec' c1
             = if isEqual spec spec' then (c1, Ok Unchanged)
               else (storeHTTPRoute name
                       {| hr_Meta := hr_Meta (createdRoute name owner spec); hr_Spec := spec' |}
                       (WUpdate name
                          {| hr_Meta := hr_Meta (createdRoute name owner spec);
                             hr_Spec := spec' |}) c1,
                     Ok Updated))
      /\ (forall a b : HTTPRouteSpec,
             isEqual a b = true
             <-> Json.render (Json.httpRouteSpec a) = Json.render (Json.httpRouteSpec b))
      /\ (forall a b : HTTPRouteSpec,
             asciiSpec a = true -> asciiSpec b = true -> (isEqual a b = true <-> a = b)).
Proof.
  intros c name owner spec H.
  exists (storeHTTPRoute name (createdRoute name owner spec)
            (WCreate name (createdRoute name owner spec)) c).
  assert (Hl : c_HTTPRoutes
                 (storeHTTPRoute name (createdRoute name owner spec)
                    (WCreate name (createdRoute name owner spec)) c) !! name
               = Some (createdRoute name owner spec))
    by (simpl; apply lookup_insert_eq).
  split; [apply (reconcileHTTPRoute_create c name owner spec H)|].
  split; [reflexivity|]. split; [reflexivity|]. split; [repeat split|]. split.
  { simpl. rewrite length_app. simpl. lia. }
  split.
  { apply (reconcileHTTPRoute_unchanged _ name (createdRoute name owner spec) owner spec Hl).
    - apply isOwnedBy_created.
    - apply isEqual_refl_spec. }
  split.
  { intros spec'.
    apply (reconcileHTTPRoute_again _ name (createdRoute name owner spec) owner spec' Hl).
    apply isOwnedBy_created. }
  split; [exact isEqual_texts | exact isEqual_deep].
Qed.

Lemma reconcileHTTPRoute_idempotent_witness :
  exists c1 : Cluster,
    reconcileHTTPRoute Fixtures.req Fixtures.owner Fixtures.someSpec
      (Fixtures.cluster Fixtures.dotDash [Fixtures.catchAll])
    = (c1, Ok Created)
    /\ c_HTTPRoutes c1
       = <[Fixtures.req := createdRoute Fixtures.req Fixtures.owner Fixtures.someSpec]>
           (c_HTTPRoutes (Fixtures.cluster Fixtures.dotDash [Fixtures.catchAll]))
    /\ c_Writes c1
       = c_Writes (Fixtures.cluster Fixtures.dotDash [Fixtures.catchAll])
         ++ [WCreate Fixtures.req (createdRoute Fixtures.req Fixtures.owner Fixtures.someSpec)]
    /\ sameInputs (Fixtures.cluster Fixtures.dotDash [Fixtures.catchAll]) c1
    /\ length (c_Writes c1)
       = S (length (c_Writes (Fixtures.cluster Fixtures.dotDash [Fixtures.catchAll])))
    /\ reconcileHTTPRoute Fixtures.req Fixtures.owner Fixtures.someSpec c1 = (c1, Ok Unchanged)
    /\ (forall spec',
           reconcileHTTPRoute Fixtures.req Fixtures.owner spec' c1
           = if isEqual Fixtures.someSpec spec' then (c1, Ok Unchanged)
             else (storeHTTPRoute Fixtures.req
                     {| hr_Meta :=
                          hr_Meta (createdRoute Fixtures.req Fixtures.owner Fixtures.someSpec);
                        hr_Spec := spec' |}
                     (WUpdate Fixtures.req
                        {| hr_Meta :=
                             hr_Meta (createdRoute Fixtures.req Fixtures.owner Fixtures.someSpec);
                           hr_Spec := spec' |}) c1,
                   Ok Updated))
    /\ (forall a b : HTTPRouteSpec,
           isEqual a b = true
           <-> Json.render (Json.httpRouteSpec a) = Json.render (Json.httpRouteSpec b))
    /\ (forall a b : HTTPRouteSpec,
           asciiSpec a = true -> asciiSpec b = true -> (isEqual a b = true <-> a = b)).
Proof.
  apply (reconcileHTTPRoute_idempotent
           (Fixtures.cluster Fixtures.dotDash [Fixtures.catchAll])
           Fixtures.req Fixtures.owner Fixtures.someSpec).
  vm_compute. reflexivity.
Defined.

(** A spec that differs from the stored one in the port of one backend
    has another JSON text: the second call updates the object. *)
Example reconcileHTTPRoute_other_spec :
  asciiSpec Fixtures.someSpec = true
  /\ isEqual Fixtures.someSpec
       {| rs_ParentRefs := rs_ParentRefs Fixtures.someSpec;
          rs_Hostnames := ["b.example.com"];
          rs_Rules := [] |} = false.
Proof. split; vm_compute; reflexivity. Qed.

(** C10: [isOwnedBy] holds exactly when some owner reference of the object
    has the APIVersion, the Kind and the Name of the owner; the UID is not
    read.  So an object whose reference agrees on those three fields is
    owned whatever its UID, and a call with a different spec updates it. *)
Theorem isOwnedBy_ignores_uid :
  forall (c : Cluster) (name : NamespacedName) (route : HTTPRoute)
         (reference owner : OwnerReference) (spec : HTTPRouteSpec),
    c_HTTPRoutes c !! name = Some route ->
    In reference (om_OwnerReferences (hr_Meta route)) ->
    or_APIVersion reference = or_APIVersion owner ->
    or_Kind reference = or_Kind owner ->
    or_Name reference = or_Name owner ->
    (forall metadata,
        isOwnedBy metadata owner = true
        <-> exists r, In r (om_OwnerReferences metadata)
                      /\ or_APIVersion r = or_APIVersion owner
                      /\ or_Kind r = or_Kind owner
                      /\ or_Name r = or_Name owner)
    /\ isOwnedBy (hr_Meta route) owner = true
    /\ (isEqual (hr_Spec route) spec = false ->
        reconcileHTTPRoute name owner spec c
        = (storeHTTPRoute name {| hr_Meta := hr_Meta route; hr_Spec := spec |}
             (WUpdate name {| hr_Meta := hr_Meta route; hr_Spec := spec |}) c,
           Ok Updated)).
Proof.
  intros c name route reference owner spec H Hin Ha Hk Hn.
  assert (Ho : isOwnedBy (hr_Meta route) owner = true).
  { apply isOwnedBy_iff. exists reference. auto. }
  split; [intros metadata; apply isOwnedBy_iff|]. split; [exact Ho|].
  intros He. apply (reconcileHTTPRoute_update c name route owner spec H Ho He).
Qed.

Lemma isOwnedBy_ignores_uid_witness :
  (forall metadata,
      isOwnedBy metadata Fixtures.owner = true
      <-> exists r, In r (om_OwnerReferences metadata)
                    /\ or_APIVersion r = or_APIVersion Fixtures.owner
                    /\ or_Kind r = or_Kind Fixtures.owner
                    /\ or_Name r = or_Name Fixtures.owner)
  /\ isOwnedBy (hr_Meta (Fixtures.routeOf Fixtures.formerOwner)) Fixtures.owner = true
  /\ (isEqual (hr_Spec (Fixtures.routeOf Fixtures.formerOwner)) Fixtures.someSpec = false ->
      reconcileHTTPRoute Fixtures.req Fixtures.owner Fixtures.someSpec
        (Fixtures.withRoute (Fixtures.routeOf Fixtures.formerOwner))
      = (storeHTTPRoute Fixtures.req
           {| hr_Meta := hr_Meta (Fixtures.routeOf Fixtures.formerOwner);
              hr_Spec := Fixtures.someSpec |}
           (WUpdate Fixtures.req
              {| hr_Meta := hr_Meta (Fixtures.routeOf Fixtures.formerOwner);
                 hr_Spec := Fixtures.someSpec |})
           (Fixtures.withRoute (Fixtures.routeOf Fixtures.formerOwner)),
         Ok Updated)).
Proof.
  apply (isOwnedBy_ignores_uid
           (Fixtures.withRoute (Fixtures.routeOf Fixtures.formerOwner))
           Fixtures.req (Fixtures.routeOf Fixtures.formerOwner)
           Fixtures.formerOwner Fixtures.owner Fixtures.someSpec).
  - vm_compute. reflexivity.
  - simpl. left. reflexivity.
  - reflexivity.
  - reflexivity.
  - reflexivity.
Defined.

Example formerOwner_other_uid : or_UID Fixtures.formerOwner <> or_UID Fixtures.owner.
Proof. discriminate. Qed.

(** *** Route names *)

Lemma generateHTTPRouteName_clean (ingressName hostname : string) :
  generateHTTPRouteName ingressName hostname = ingressName +:+ "-" +:+ cleanHostname hostname.
Proof. reflexivity. Qed.

(** Two hostnames of one ingress get the same name exactly when they are
    the same after the replacements. *)
Lemma generateHTTPRouteName_eq_iff (ingressName h1 h2 : string) :
  generateHTTPRouteName ingressName h1 = generateHTTPRouteName ingressName h2
  <-> cleanHostname h1 = cleanHostname h2.
Proof.
  rewrite !generateHTTPRouteName_clean. split.
  - intros H. apply String.app_inj in H. apply String.app_inj in H. exact H.
  - intros ->. reflexivity.
Qed.

(** C1, on the code: the replacements of [generateHTTPRouteName] send a dot
    and a dash to the same byte, so the two distinct hostnames of the
    ingress get one name.  The pass creates the route of the first hostname
    and then updates that same object with the spec of the second: two
    writes, one stored route, holding the second hostname only. *)
Theorem generateHTTPRouteName_collision :
  "a.b" <> "a-b"
  /\ extractHostnames (ispec_Rules (ing_Spec Fixtures.dotDash)) = ["a.b"; "a-b"]
  /\ generateHTTPRouteName "web" "a.b" = generateHTTPRouteName "web" "a-b"
  /\ (let c := fst (Reconcile Fixtures.reconciler Fixtures.req
                      (Fixtures.cluster Fixtures.dotDash [Fixtures.catchAll])) in
      snd (Reconcile Fixtures.reconciler Fixtures.req
             (Fixtures.cluster Fixtures.dotDash [Fixtures.catchAll])) = Ok tt
      /\ List.map (fun w => match w with
                            | WCreate key obj => (true, key, rs_Hostnames (hr_Spec obj))
                            | WUpdate key obj => (false, key, rs_Hostnames (hr_Spec obj))
                            end) (c_Writes c)
         = [(true, ("demo", "web-a-b"), ["a.b"]); (false, ("demo", "web-a-b"), ["a-b"])]
      /\ List.map (fun kv => (fst kv, rs_Hostnames (hr_Spec (snd kv))))
           (map_to_list (c_HTTPRoutes c))
         = [(("demo", "web-a-b"), ["a-b"])]).
Proof.
  split; [discriminate|]. split; [vm_compute; reflexivity|].
  split; [reflexivity|]. cbv zeta. split; [vm_compute; reflexivity|].
  split; vm_compute; reflexivity.
Qed.

(** *** What a pass reads and what it writes *)

Lemma readonly_ret {A} (a : A) : readonly (ret a).
Proof. intros c. reflexivity. Qed.

Lemma readonly_fail {A} (e : error) : readonly (@fail A e).
Proof. intros c. reflexivity. Qed.

Lemma readonly_bind {A B} (m : Client A) (k : A -> Client B) :
  readonly m -> (forall a, readonly (k a)) -> readonly (bind m k).
Proof.
  intros Hm Hk c. unfold bind. specialize (Hm c).
  destruct (m c) as [c' [a|e]]; simpl in Hm; subst c'; [apply Hk | reflexivity].
Qed.

Lemma readonly_getService (key : NamespacedName) : readonly (getService key).
Proof. intros c. unfold getService. destruct (c_Services c !! key); reflexivity. Qed.

Create HintDb readonly.
#[local] Hint Resolve readonly_ret readonly_fail readonly_bind readonly_getService : readonly.

Lemma readonly_resolveObjectRef ns ref : readonly (resolveObjectRef ns ref).
Proof.
  unfold resolveObjectRef.
  destruct (ib_Resource ref); [auto with readonly|].
  destruct (ib_Service ref); [|auto with readonly].
  destruct (negb _); [auto with readonly|].
  destruct (negb _); auto with readonly.
Qed.
#[local] Hint Resolve readonly_resolveObjectRef : readonly.

Lemma readonly_mapBackendRef ns ref : readonly (mapBackendRef ns ref).
Proof. unfold mapBackendRef. auto with readonly. Qed.
#[local] Hint Resolve readonly_mapBackendRef : readonly.

Lemma readonly_mapDefaultBackend ns ingress : readonly (mapDefaultBackend ns ingress).
Proof. unfold mapDefaultBackend. destruct (ispec_DefaultBackend _); auto with readonly. Qed.

Lemma readonly_createRulesForPaths ns dflt paths :
  forall result, readonly (createRulesForPaths ns dflt paths result).
Proof.
  induction paths as [|path rest IH]; intros result; simpl; auto with readonly.
Qed.
#[local] Hint Resolve readonly_createRulesForPaths : readonly.

Lemma readonly_createRulesLoop ns dflt rules :
  forall result, readonly (createRulesLoop ns dflt rules result).
Proof.
  induction rules as [|rule rest IH]; intros result; simpl; [auto with readonly|].
  destruct (rule_HTTP rule); [auto with readonly|].
  destruct dflt; apply IH.
Qed.

Lemma readonly_createHTTPRouteRules ns rules dflt : readonly (createHTTPRouteRules ns rules dflt).
Proof. apply readonly_createRulesLoop. Qed.
#[local] Hint Resolve readonly_createHTTPRouteRules : readonly.

Lemma sameInputs_refl c : sameInputs c c.
Proof. repeat split. Qed.

Lemma sameInputs_trans c1 c2 c3 : sameInputs c1 c2 -> sameInputs c2 c3 -> sameInputs c1 c3.
Proof. intros (?&?&?) (?&?&?). repeat split; congruence. Qed.

Lemma keepsInputs_readonly {A} (m : Client A) : readonly m -> keepsInputs m.
Proof. intros H c. rewrite H. apply sameInputs_refl. Qed.

Lemma keepsInputs_bind {A B} (m : Client A) (k : A -> Client B) :
  keepsInputs m -> (forall a, keepsInputs (k a)) -> keepsInputs (bind m k).
Proof.
  intros Hm Hk c. unfold bind. specialize (Hm c).
  destruct (m c) as [c' [a|e]]; simpl in Hm; [|exact Hm].
  eapply sameInputs_trans; [exact Hm | apply Hk].
Qed.

Lemma keepsInputs_reconcileHTTPRoute name owner spec :
  keepsInputs (reconcileHTTPRoute name owner spec).
Proof.
  intros c. unfold reconcileHTTPRoute. run_client.
  destruct (c_HTTPRoutes c !! name) as [route|]; [|repeat split].
  destruct (isOwnedBy _ _); [|repeat split].
  destruct (negb _); repeat split.
Qed.

Lemma keepsInputs_reconcileHostname req ingress gateways owner dflt hostname :
  keepsInputs (reconcileHostname req ingress gateways owner dflt hostname).
Proof.
  unfold reconcileHostname. apply keepsInputs_bind; [auto using keepsInputs_readonly with readonly|].
  intros rules. destruct (_ =? _)%nat; [auto using keepsInputs_readonly with readonly|].
  destruct (_ =? _)%nat; [auto using keepsInputs_readonly with readonly|].
  apply keepsInputs_bind; [apply keepsInputs_reconcileHTTPRoute|].
  auto using keepsInputs_readonly with readonly.
Qed.

Lemma keepsInputs_reconcileHostnames req ingress gateways owner dflt hostnames :
  keepsInputs (reconcileHostnames req ingress gateways owner dflt hostnames).
Proof.
  induction hostnames as [|h hs IH]; simpl; [auto using keepsInputs_readonly with readonly|].
  apply keepsInputs_bind; [apply keepsInputs_reconcileHostname | intros _; exact IH].
Qed.

(** What one round of the hostname loop writes: nothing, or one object under
    the generated name whose hostname set is the hostname alone. *)
Lemma reconcileHostname_write req ingress gateways owner dflt hostname c c' res :
  reconcileHostname req ingress gateways owner dflt hostname c = (c', res) ->
  c_Writes c' = c_Writes c
  \/ exists w obj,
       c_Writes c' = c_Writes c ++ [w]
       /\ (w = WCreate (fst req, generateHTTPRouteName (snd req) hostname) obj
           \/ w = WUpdate (fst req, generateHTTPRouteName (snd req) hostname) obj)
       /\ rs_Hostnames (hr_Spec obj) = [hostname]
       /\ c_HTTPRoutes c' !! (fst req, generateHTTPRouteName (snd req) hostname) = Some obj.
Proof.
  unfold reconcileHostname. unfold bind at 1.
  destruct (createHTTPRouteRules (fst req)
              (matchingRulesFor hostname (ispec_Rules (ing_Spec ingress))) dflt c)
    as [c1 [rules|e]] eqn:E;
    pose proof (readonly_createHTTPRouteRules (fst req)
                  (matchingRulesFor hostname (ispec_Rules (ing_Spec ingress))) dflt c) as H;
    rewrite E in H; simpl in H; subst c1;
    [|intros Hr; inversion Hr; left; reflexivity].
  destruct (length rules =? 0)%nat; [intros Hr; inversion Hr; left; reflexivity|].
  destruct (length (findMatchingGateways (fst req) hostname gateways) =? 0)%nat;
    [intros Hr; inversion Hr; left; reflexivity|].
  unfold bind, reconcileHTTPRoute. run_client.
  destruct (c_HTTPRoutes c !! (fst req, generateHTTPRouteName (snd req) hostname))
    as [route|].
  - destruct (isOwnedBy (hr_Meta route) owner); [|intros Hr; inversion Hr; left; reflexivity].
    destruct (negb _); intros Hr; inversion Hr; [|left; reflexivity].
    right. eexists. eexists. simpl. split; [reflexivity|]. split; [right; reflexivity|].
    split; [reflexivity|]. apply lookup_insert_eq.
  - intros Hr. inversion Hr.
    right. eexists. eexists. simpl. split; [reflexivity|]. split; [left; reflexivity|].
    split; [reflexivity|]. apply lookup_insert_eq.
Qed.

(** *** Backend resolution failures *)

Lemma missingNamedPort_sameInputs ns backend c c' :
  sameInputs c c' -> missingNamedPort ns backend c -> missingNamedPort ns backend c'.
Proof.
  intros (_ & _ & Hs) (Hr & service & H1 & H2 & H3 & H4).
  split; [exact Hr|]. exists service. rewrite Hs. auto.
Qed.

Lemma mapBackendRef_missing ns backend c :
  missingNamedPort ns backend c ->
  exists service,
    ib_Service backend = Some service
    /\ mapBackendRef ns backend c = (c, Err (ErrNotFound "Service" (ns, isb_Name service))).
Proof.
  intros (Hr & service & H1 & H2 & H3 & H4). exists service. split; [exact H1|].
  unfold mapBackendRef, resolveObjectRef. rewrite Hr, H1, H2.
  apply String.eqb_neq in H3. rewrite H3. cbn [negb Z.eqb]. run_client. rewrite H4. reflexivity.
Qed.

(** The only error of [mapBackendRef] is the service that was not found. *)
Lemma mapBackendRef_error ns backend c c' e :
  mapBackendRef ns backend c = (c', Err e) -> exists key, e = ErrNotFound "Service" key.
Proof.
  unfold mapBackendRef, resolveObjectRef.
  destruct (ib_Resource backend); [run_client; discriminate|].
  destruct (ib_Service backend) as [service|]; [|run_client; discriminate].
  destruct (negb (_ =? _)); [run_client; discriminate|].
  destruct (negb (String.eqb _ _)); [|run_client; discriminate].
  run_client. destruct (c_Services c !! _); [discriminate|].
  intros H. inversion H. eauto.
Qed.

Lemma createRulesForPaths_error ns dflt paths :
  forall result c c' e,
    createRulesForPaths ns dflt paths result c = (c', Err e) ->
    exists key, e = ErrNotFound "Service" key.
Proof.
  induction paths as [|path rest IH]; intros result c c' e; simpl.
  - run_client. discriminate.
  - unfold bind at 1.
    destruct (mapBackendRef ns (hip_Backend path) c) as [c1 [ref|e1]] eqn:E.
    + apply IH.
    + intros H. inversion H; subst. eapply mapBackendRef_error. exact E.
Qed.

Lemma createRulesForPaths_fails ns dflt paths path :
  forall result c,
    In path paths ->
    missingNamedPort ns (hip_Backend path) c ->
    exists key, createRulesForPaths ns dflt paths result c = (c, Err (ErrNotFound "Service" key)).
Proof.
  induction paths as [|p rest IH]; intros result c Hin Hm; [destruct Hin|].
  simpl. unfold bind at 1.
  pose proof (readonly_mapBackendRef ns (hip_Backend p) c) as Hro.
  destruct (mapBackendRef ns (hip_Backend p) c) as [c1 [ref|e1]] eqn:E; simpl in Hro; subst c1.
  - destruct Hin as [->|Hin].
    + destruct (mapBackendRef_missing ns _ c Hm) as (service & _ & E').
      rewrite E' in E. discriminate.
    + apply IH; assumption.
  - destruct (mapBackendRef_error _ _ _ _ _ E) as [key ->]. eauto.
Qed.

Lemma createRulesLoop_fails ns dflt rules rule paths path :
  forall result c,
    In rule rules ->
    rule_HTTP rule = Some paths ->
    In path paths ->
    missingNamedPort ns (hip_Backend path) c ->
    exists key, createRulesLoop ns dflt rules result c = (c, Err (ErrNotFound "Service" key)).
Proof.
  induction rules as [|r rest IH]; intros result c Hin Hh Hp Hm; [destruct Hin|].
  simpl. destruct (rule_HTTP r) as [ps|] eqn:Er.
  - unfold bind at 1.
    pose proof (readonly_createRulesForPaths ns dflt ps result c) as Hro.
    destruct (createRulesForPaths ns dflt ps result c) as [c1 [res|e1]] eqn:E;
      simpl in Hro; subst c1.
    + destruct Hin as [->|Hin].
      * rewrite Hh in Er. inversion Er; subst ps.
        destruct (createRulesForPaths_fails ns dflt paths path result c Hp Hm) as [key E'].
        rewrite E' in E. discriminate.
      * eapply IH; eassumption.
    + destruct (createRulesForPaths_error _ _ _ _ _ _ _ E) as [key ->]. eauto.
  - destruct Hin as [->|Hin]; [congruence|].
    destruct dflt; eapply IH; eassumption.
Qed.

Lemma matchingRulesFor_In hostname rules rule :
  In rule rules -> rule_Host rule = hostname -> In rule (matchingRulesFor hostname rules).
Proof.
  intros Hin Hh. unfold matchingRulesFor. apply filter_In. split; [exact Hin|].
  apply String.eqb_eq. exact Hh.
Qed.

Lemma reconcileHostname_fails req ingress gateways owner dflt hostname c e :
  createHTTPRouteRules (fst req)
    (matchingRulesFor hostname (ispec_Rules (ing_Spec ingress))) dflt c = (c, Err e) ->
  reconcileHostname req ingress gateways owner dflt hostname c = (c, Err e).
Proof. intros H. unfold reconcileHostname, bind. rewrite H. reflexivity. Qed.

Lemma reconcileHostnames_app req ingress gateways owner dflt pre post c :
  reconcileHostnames req ingress gateways owner dflt (pre ++ post) c
  = match reconcileHostnames req ingress gateways owner dflt pre c with
    | (c1, Ok _) => reconcileHostnames req ingress gateways owner dflt post c1
    | (c1, Err e) => (c1, Err e)
    end.
Proof.
  revert c. induction pre as [|h hs IH]; intros c; [reflexivity|].
  simpl. unfold bind.
  destruct (reconcileHostname req ingress gateways owner dflt h c) as [c1 [[]|e]];
    [apply IH | reflexivity].
Qed.

(** The pass after its guards, for an ingress with at least one rule host. *)
Lemma Reconcile_hostnames r req c ingress dflt :
  c_Ingresses c !! req = Some ingress ->
  c_Gateways c <> [] ->
  mapDefaultBackend (fst req) ingress c = (c, Ok dflt) ->
  extractHostnames (ispec_Rules (ing_Spec ingress)) <> [] ->
  Reconcile r req c
  = reconcileHostnames req ingress (c_Gateways c) (createOwnerReference ingress) dflt
      (extractHostnames (ispec_Rules (ing_Spec ingress))) c.
Proof.
  intros Hi Hg Hd Hh. unfold Reconcile. rewrite Hi.
  destruct (c_Gateways c) as [|g gs] eqn:Eg; [congruence|]. simpl length. simpl Nat.eqb.
  unfold bind at 1. rewrite Hd.
  destruct (extractHostnames (ispec_Rules (ing_Spec ingress))) as [|h hs]; [congruence|].
  reflexivity.
Qed.

(** C7 as stated fails: the second hostname of the ingress names a port of
    a service that is not there, the pass ends with the not-found error,
    and the route it had created for the first hostname is in the store. *)
Lemma Reconcile_keeps_earlier_writes :
  snd (Reconcile Fixtures.reconciler Fixtures.req
         (Fixtures.cluster Fixtures.missingService [Fixtures.catchAll]))
  = Err (ErrNotFound "Service" ("demo", "gone"))
  /\ List.map (fun w => match w with
                        | WCreate key _ => (true, key)
                        | WUpdate key _ => (false, key)
                        end)
       (c_Writes (fst (Reconcile Fixtures.reconciler Fixtures.req
                         (Fixtures.cluster Fixtures.missingService [Fixtures.catchAll]))))
     = [(true, ("demo", "web-a-example-com"))]
  /\ List.map fst
       (map_to_list
          (c_HTTPRoutes (fst (Reconcile Fixtures.reconciler Fixtures.req
                                (Fixtures.cluster Fixtures.missingService [Fixtures.catchAll])))))
     = [("demo", "web-a-example-com")].
Proof. repeat split; vm_compute; reflexivity. Qed.

(** C7, amended: when a backend among the rules of a hostname asks for a
    named port of a service that does not exist, the pass ends with the
    not-found error of a service.  The cluster it leaves is the one left by
    the hostnames in front of that one: their writes are kept, there is no
    rollback, and nothing is written for the failing hostname or after it. *)
Theorem Reconcile_backend_not_found :
  forall (r : IngressReconciler) (req : NamespacedName) (c c1 : Cluster) (ingress : Ingress)
         (dflt : option HTTPBackendRef) (pre post : list string) (hostname : string)
         (rule : IngressRule) (paths : list HTTPIngressPath) (path : HTTPIngressPath),
    c_Ingresses c !! req = Some ingress ->
    c_Gateways c <> [] ->
    mapDefaultBackend (fst req) ingress c = (c, Ok dflt) ->
    extractHostnames (ispec_Rules (ing_Spec ingress)) = pre ++ hostname :: post ->
    reconcileHostnames req ingress (c_Gateways c) (createOwnerReference ingress) dflt pre c
    = (c1, Ok tt) ->
    In rule (ispec_Rules (ing_Spec ingress)) ->
    rule_Host rule = hostname ->
    rule_HTTP rule = Some paths ->
    In path paths ->
    missingNamedPort (fst req) (hip_Backend path) c ->
    exists key, Reconcile r req c = (c1, Err (ErrNotFound "Service" key)).
Proof.
  intros r req c c1 ingress dflt pre post hostname rule paths path
         Hi Hg Hd Hh Hpre Hin Hhost Hhttp Hpath Hm.
  rewrite (Reconcile_hostnames r req c ingress dflt Hi Hg Hd);
    [|rewrite Hh; destruct pre; discriminate].
  rewrite Hh, reconcileHostnames_app, Hpre. simpl.
  assert (Hm1 : missingNamedPort (fst req) (hip_Backend path) c1).
  { eapply missingNamedPort_sameInputs; [|exact Hm].
    pose proof (keepsInputs_reconcileHostnames req ingress (c_Gateways c)
                  (createOwnerReference ingress) dflt pre c) as Hk.
    rewrite Hpre in Hk. exact Hk. }
  destruct (createRulesLoop_fails (fst req) dflt
              (matchingRulesFor hostname (ispec_Rules (ing_Spec ingress)))
              rule paths path [] c1
              (matchingRulesFor_In _ _ _ Hin Hhost) Hhttp Hpath Hm1) as [key E].
  exists key. unfold bind.
  rewrite (reconcileHostname_fails req ingress (c_Gateways c) _ dflt hostname c1 _ E).
  reflexivity.
Qed.

Lemma Reconcile_backend_not_found_witness :
  exists key,
    Reconcile Fixtures.reconciler Fixtures.req
      (Fixtures.cluster Fixtures.missingService [Fixtures.catchAll])
    = (fst (reconcileHostnames Fixtures.req Fixtures.missingService [Fixtures.catchAll]
              (createOwnerReference Fixtures.missingService) None ["a.example.com"]
              (Fixtures.cluster Fixtures.missingService [Fixtures.catchAll])),
       Err (ErrNotFound "Service" key)).
Proof.
  apply (Reconcile_backend_not_found
           Fixtures.reconciler Fixtures.req
           (Fixtures.cluster Fixtures.missingService [Fixtures.catchAll])
           (fst (reconcileHostnames Fixtures.req Fixtures.missingService [Fixtures.catchAll]
                   (createOwnerReference Fixtures.missingService) None ["a.example.com"]
                   (Fixtures.cluster Fixtures.missingService [Fixtures.catchAll])))
           Fixtures.missingService None ["a.example.com"] [] "b.example.com"
           (Fixtures.hostRule "b.example.com"
              [Fixtures.prefixPath "/" (Fixtures.byName "gone" "http")])
           [Fixtures.prefixPath "/" (Fixtures.byName "gone" "http")]
           (Fixtures.prefixPath "/" (Fixtures.byName "gone" "http"))).
  - vm_compute. reflexivity.
  - discriminate.
  - reflexivity.
  - vm_compute. reflexivity.
  - vm_compute. reflexivity.
  - simpl. right. left. reflexivity.
  - reflexivity.
  - reflexivity.
  - simpl. left. reflexivity.
  - split; [reflexivity|]. eexists. split; [reflexivity|].
    split; [reflexivity|]. split; [discriminate|]. vm_compute. reflexivity.
Defined.

(** *** The default backend without a catch-all listener *)

Lemma findCatchAll_listeners_none ns gateway listeners acc :
  (forall listener,
      In listener listeners ->
      isListenerAccessibleFromNamespace listener (gw_Namespace gateway) ns = true ->
      exists h, l_Hostname listener = Some h /\ GoStrings.HasPrefix h "*" = false) ->
  foldl (findCatchAll_step ns gateway) acc listeners = acc.
Proof.
  revert acc. induction listeners as [|l ls IH]; intros acc H; [reflexivity|].
  simpl. rewrite IH; [|intros; apply H; [right|]; assumption].
  unfold findCatchAll_step.
  destruct (isListenerAccessibleFromNamespace l (gw_Namespace gateway) ns) eqn:E;
    [|reflexivity].
  destruct (H l (or_introl eq_refl) E) as (h & -> & ->). reflexivity.
Qed.

Lemma findCatchAllGateways_none ns gateways :
  noCatchAllListener ns gateways -> findCatchAllGateways ns gateways = [].
Proof.
  unfold findCatchAllGateways. generalize (@nil ParentReference).
  induction gateways as [|g gs IH]; intros acc H; [reflexivity|].
  simpl. rewrite (findCatchAll_listeners_none ns g (gw_Listeners g) acc).
  - apply IH. intros gateway listener Hg. apply H. right. exact Hg.
  - intros listener Hl. apply (H g listener); [left; reflexivity | exact Hl].
Qed.

Lemma createDefaultBackendSpec_none ns backendRef gateways :
  findCatchAllGateways ns gateways = [] ->
  createDefaultBackendSpec ns backendRef gateways = Err noCatchAll.
Proof. intros H. unfold createDefaultBackendSpec. rewrite H. reflexivity. Qed.

(** A hostname that no listener takes is passed over without an error. *)
Lemma reconcileHostname_no_parent req ingress gateways owner dflt hostname rules c :
  createHTTPRouteRules (fst req)
    (matchingRulesFor hostname (ispec_Rules (ing_Spec ingress))) dflt c = (c, Ok rules) ->
  findMatchingGateways (fst req) hostname gateways = [] ->
  reconcileHostname req ingress gateways owner dflt hostname c = (c, Ok tt).
Proof.
  intros Hr Hp. unfold reconcileHostname, bind. rewrite Hr, Hp.
  destruct (length rules =? 0)%nat; reflexivity.
Qed.

(** C9 as stated fails: with no gateway in the cluster no listener is a
    catch-all, and the pass for an ingress that has a default backend only
    ends at its first guard, without an error and without a write. *)
Lemma Reconcile_no_gateways_is_silent :
  noCatchAllListener (fst Fixtures.req) []
  /\ ispec_Rules (ing_Spec Fixtures.defaultOnly) = []
  /\ RequireHostname Fixtures.reconciler = false
  /\ Reconcile Fixtures.reconciler Fixtures.req (Fixtures.cluster Fixtures.defaultOnly [])
     = (Fixtures.cluster Fixtures.defaultOnly [], Ok tt).
Proof.
  split; [intros gateway listener []|].
  split; [reflexivity|]. split; [reflexivity|]. vm_compute. reflexivity.
Qed.

(** C9, amended: for an ingress without rules and with a default backend
    that resolves, when hostnames are not required, the cluster has a
    gateway, and no accessible listener is without a hostname or has one
    that starts with a star, [createDefaultBackendSpec] fails and the pass
    returns that error without a write.  In the hostname loop a hostname
    without a parent reference is passed over without an error. *)
Theorem Reconcile_no_catch_all_gateway :
  forall (r : IngressReconciler) (req : NamespacedName) (c : Cluster) (ingress : Ingress)
         (backend : IngressBackend) (backendRef : HTTPBackendRef),
    c_Ingresses c !! req = Some ingress ->
    c_Gateways c <> [] ->
    ispec_Rules (ing_Spec ingress) = [] ->
    ispec_DefaultBackend (ing_Spec ingress) = Some backend ->
    mapBackendRef (fst req) backend c = (c, Ok backendRef) ->
    RequireHostname r = false ->
    noCatchAllListener (fst req) (c_Gateways c) ->
    createDefaultBackendSpec (fst req) backendRef (c_Gateways c) = Err noCatchAll
    /\ Reconcile r req c = (c, Err noCatchAll)
    /\ (forall other owner dflt hostname rules,
          createHTTPRouteRules (fst req)
            (matchingRulesFor hostname (ispec_Rules (ing_Spec other))) dflt c = (c, Ok rules) ->
          findMatchingGateways (fst req) hostname (c_Gateways c) = [] ->
          reconcileHostname req other (c_Gateways c) owner dflt hostname c = (c, Ok tt)).
Proof.
  intros r req c ingress backend backendRef Hi Hg Hr Hb Hm Hq Hn.
  pose proof (createDefaultBackendSpec_none (fst req) backendRef (c_Gateways c)
                (findCatchAllGateways_none _ _ Hn)) as Hs.
  split; [exact Hs|]. split.
  - unfold Reconcile. rewrite Hi.
    destruct (c_Gateways c) as [|g gs] eqn:Eg; [congruence|]. simpl length. simpl Nat.eqb.
    unfold bind at 1, mapDefaultBackend. rewrite Hb. unfold bind at 1. rewrite Hm.
    unfold ret at 1. rewrite Hr. cbn [extractHostnames foldl snd length Nat.eqb].
    rewrite Hq, Hs. reflexivity.
  - intros other owner dflt hostname rules. apply reconcileHostname_no_parent.
Qed.

Lemma Reconcile_no_catch_all_gateway_witness :
  createDefaultBackendSpec (fst Fixtures.req)
    {| br_Ref := {| bor_Group := Some EmptyString; bor_Kind := Some "Service";
                    bor_Name := "fallback"; bor_Namespace := Some "demo";
                    bor_Port := Some 80 |};
       br_Weight := Some 1 |}
    (c_Gateways (Fixtures.cluster Fixtures.defaultOnly [Fixtures.exactOnly]))
  = Err noCatchAll
  /\ Reconcile Fixtures.reconciler Fixtures.req
       (Fixtures.cluster Fixtures.defaultOnly [Fixtures.exactOnly])
     = (Fixtures.cluster Fixtures.defaultOnly [Fixtures.exactOnly], Err noCatchAll)
  /\ (forall other owner dflt hostname rules,
        createHTTPRouteRules (fst Fixtures.req)
          (matchingRulesFor hostname (ispec_Rules (ing_Spec other))) dflt
          (Fixtures.cluster Fixtures.defaultOnly [Fixtures.exactOnly])
        = (Fixtures.cluster Fixtures.defaultOnly [Fixtures.exactOnly], Ok rules) ->
        findMatchingGateways (fst Fixtures.req) hostname
          (c_Gateways (Fixtures.cluster Fixtures.defaultOnly [Fixtures.exactOnly])) = [] ->
        reconcileHostname Fixtures.req other
          (c_Gateways (Fixtures.cluster Fixtures.defaultOnly [Fixtures.exactOnly]))
          owner dflt hostname (Fixtures.cluster Fixtures.defaultOnly [Fixtures.exactOnly])
        = (Fixtures.cluster Fixtures.defaultOnly [Fixtures.exactOnly], Ok tt)).
Proof.
  apply (Reconcile_no_catch_all_gateway
           Fixtures.reconciler Fixtures.req
           (Fixtures.cluster Fixtures.defaultOnly [Fixtures.exactOnly])
           Fixtures.defaultOnly (Fixtures.byNumber "fallback" 80)).
  - vm_compute. reflexivity.
  - discriminate.
  - reflexivity.
  - reflexivity.
  - reflexivity.
  - reflexivity.
  - intros gateway listener Hg Hl Ha.
    destruct Hg as [<-|[]]. destruct Hl as [<-|[]].
    exists "app.example.com". split; reflexivity.
Defined.

(** *** The order of the rules *)

Lemma string_compare_refl (a : string) : String.compare a a = Eq.
Proof.
  pose proof (String.compare_antisym a a) as H.
  destruct (String.compare a a); [reflexivity | discriminate H | discriminate H].
Qed.

Lemma Compare_eq (a b : string) : GoStrings.Compare a b = 0 <-> a = b.
Proof.
  unfold GoStrings.Compare. split.
  - destruct (String.compare a b) eqn:E; [intros _|discriminate|discriminate].
    apply String.compare_eq_iff. exact E.
  - intros ->. rewrite string_compare_refl. reflexivity.
Qed.

Lemma Compare_antisym (a b : string) : GoStrings.Compare a b = - GoStrings.Compare b a.
Proof.
  unfold GoStrings.Compare. rewrite (String.compare_antisym a b).
  destruct (String.compare b a); reflexivity.
Qed.

Lemma Compare_le (a b : string) : GoStrings.Compare a b <= 0 <-> String.leb a b = true.
Proof.
  unfold GoStrings.Compare, String.leb.
  destruct (String.compare a b); split; intros H; try reflexivity; try lia; discriminate H.
Qed.

Lemma Compare_lt (a b : string) : GoStrings.Compare a b < 0 <-> String.ltb a b = true.
Proof.
  unfold GoStrings.Compare, String.ltb.
  destruct (String.compare a b); split; intros H; try reflexivity; try lia; discriminate H.
Qed.

Lemma Compare_le_trans (a b c : string) :
  GoStrings.Compare a b <= 0 -> GoStrings.Compare b c <= 0 -> GoStrings.Compare a c <= 0.
Proof.
  rewrite !Compare_le. intros H1 H2.
  apply Is_true_true. apply Is_true_true in H1, H2.
  exact (transitivity (R := String.le) H1 H2).
Qed.

Lemma Compare_lt_trans (a b c : string) :
  GoStrings.Compare a b < 0 -> GoStrings.Compare b c <= 0 -> GoStrings.Compare a c < 0.
Proof.
  intros H1 H2.
  assert (Hle : GoStrings.Compare a c <= 0) by (apply (Compare_le_trans a b c); lia).
  destruct (Z.eq_dec (GoStrings.Compare a c) 0) as [E|E]; [|lia].
  apply Compare_eq in E. subst c.
  rewrite (Compare_antisym b a) in H2. lia.
Qed.

(** [compareHTTPRouteRule] decides the lexicographic order on the pair of
    the path value and the name of the first backend. *)
Lemma ruleLe_lexLe (a b : HTTPRouteRule) : ruleLe a b <-> lexLe a b.
Proof.
  unfold ruleLe, lexLe, Grouped.compareHTTPRouteRule. cbv zeta.
  rewrite <- Compare_lt, <- Compare_le.
  destruct (GoStrings.Compare (Grouped.rulePath a) (Grouped.rulePath b) =? 0) eqn:E; simpl.
  - apply Z.eqb_eq in E. pose proof (proj1 (Compare_eq _ _) E) as Hp. split.
    + intros H. right. auto.
    + intros [H|[_ H]]; [lia | exact H].
  - apply Z.eqb_neq in E. split.
    + intros H. left. lia.
    + intros [H|[Hp _]]; [lia|]. apply Compare_eq in Hp. contradiction.
Qed.

Lemma compareHTTPRouteRule_antisym (a b : HTTPRouteRule) :
  Grouped.compareHTTPRouteRule a b = - Grouped.compareHTTPRouteRule b a.
Proof.
  unfold Grouped.compareHTTPRouteRule. cbv zeta.
  rewrite (Compare_antisym (Grouped.rulePath a)), (Compare_antisym (Grouped.ruleBackend a)).
  destruct (GoStrings.Compare (Grouped.rulePath b) (Grouped.rulePath a) =? 0) eqn:E.
  - apply Z.eqb_eq in E. rewrite E. reflexivity.
  - apply Z.eqb_neq in E.
    replace (- GoStrings.Compare (Grouped.rulePath b) (Grouped.rulePath a) =? 0) with false;
      [reflexivity|].
    symmetry. apply Z.eqb_neq. lia.
Qed.

Lemma ruleLe_total (a b : HTTPRouteRule) :
  ~ Grouped.compareHTTPRouteRule a b < 0 -> Grouped.compareHTTPRouteRule b a <= 0.
Proof. rewrite (compareHTTPRouteRule_antisym b a). lia. Qed.

Lemma ruleLe_trans (a b c : HTTPRouteRule) : ruleLe a b -> ruleLe b c -> ruleLe a c.
Proof.
  rewrite !ruleLe_lexLe. unfold lexLe. rewrite <- !Compare_lt, <- !Compare_le.
  intros [H1|[E1 H1]] [H2|[E2 H2]].
  - left. apply (Compare_lt_trans _ (Grouped.rulePath b)); lia.
  - left. rewrite <- E2. exact H1.
  - left. rewrite E1. exact H2.
  - right. split; [congruence|]. apply (Compare_le_trans _ (Grouped.ruleBackend b)); assumption.
Qed.

Section SortStableFacts.
Context {A : Type} (cmp : A -> A -> Z).
Hypothesis cmp_total : forall a b, ~ cmp a b < 0 -> cmp b a <= 0.
Hypothesis cmp_trans : forall a b c, cmp a b <= 0 -> cmp b c <= 0 -> cmp a c <= 0.

Lemma insert_Permutation (x : A) (sorted : list A) :
  Permutation (x :: sorted) (GoSlices.insert cmp x sorted).
Proof.
  induction sorted as [|y rest IH]; simpl; [reflexivity|].
  destruct (cmp x y <? 0); [reflexivity|].
  rewrite perm_swap. apply perm_skip. exact IH.
Qed.

Lemma insert_StronglySorted (x : A) (sorted : list A) :
  StronglySorted (fun a b => cmp a b <= 0) sorted ->
  StronglySorted (fun a b => cmp a b <= 0) (GoSlices.insert cmp x sorted).
Proof.
  induction 1 as [|y rest Hs IH Hall]; simpl; [repeat constructor|].
  destruct (cmp x y <? 0) eqn:E.
  - apply Z.ltb_lt in E. constructor; [constructor; assumption|].
    constructor; [lia|].
    eapply Forall_impl; [exact Hall|]. intros z Hz. simpl in Hz.
    apply (cmp_trans x y z); [lia | exact Hz].
  - apply Z.ltb_ge in E. constructor; [exact IH|].
    eapply Permutation_Forall; [apply insert_Permutation|].
    constructor; [apply cmp_total; lia | exact Hall].
Qed.

Lemma SortStableFunc_from (x acc : list A) :
  StronglySorted (fun a b => cmp a b <= 0) acc ->
  StronglySorted (fun a b => cmp a b <= 0)
    (foldl (fun sorted e => GoSlices.insert cmp e sorted) acc x)
  /\ Permutation (acc ++ x) (foldl (fun sorted e => GoSlices.insert cmp e sorted) acc x).
Proof.
  revert acc. induction x as [|e rest IH]; intros acc Hs; simpl.
  - split; [exact Hs|]. rewrite app_nil_r. reflexivity.
  - destruct (IH (GoSlices.insert cmp e acc) (insert_StronglySorted e acc Hs)) as [H1 H2].
    split; [exact H1|]. rewrite <- H2.
    rewrite <- Permutation_middle.
    apply (Permutation_app_tail rest (insert_Permutation e acc)).
Qed.

Lemma SortStableFunc_StronglySorted (x : list A) :
  StronglySorted (fun a b => cmp a b <= 0) (GoSlices.SortStableFunc cmp x).
Proof. apply SortStableFunc_from. constructor. Qed.

Lemma SortStableFunc_Permutation (x : list A) :
  Permutation x (GoSlices.SortStableFunc cmp x).
Proof. apply (SortStableFunc_from x []). constructor. Qed.
End SortStableFacts.

Lemma rulePath_created (path : HTTPIngressPath) (refs : list HTTPBackendRef) :
  Grouped.rulePath {| rr_Matches := [ {| rm_Path := Some (createPathMatch path) |} ];
                      rr_BackendRefs := refs |}
  = hip_Path path.
Proof. unfold Grouped.rulePath. simpl. rewrite createPathMatch_value. reflexivity. Qed.

Lemma createRulesForPaths_paths ns dflt paths :
  forall result c c' rules,
    createRulesForPaths ns dflt paths result c = (c', Ok rules) ->
    List.map Grouped.rulePath rules
    = List.map Grouped.rulePath result ++ List.map hip_Path paths.
Proof.
  induction paths as [|path rest IH]; intros result c c' rules; simpl.
  - run_client. intros H. inversion H. rewrite app_nil_r. reflexivity.
  - unfold bind at 1. destruct (mapBackendRef ns (hip_Backend path) c) as [c1 [ref|e]];
      [|discriminate].
    intros H. apply IH in H. rewrite H, List.map_app. simpl.
    rewrite rulePath_created, <- app_assoc. reflexivity.
Qed.

Lemma createRulesLoop_paths ns dflt rules :
  forall result c c' out,
    createRulesLoop ns dflt rules result c = (c', Ok out) ->
    List.map Grouped.rulePath out
    = List.map Grouped.rulePath result ++ declaredPaths rules dflt.
Proof.
  induction rules as [|rule rest IH]; intros result c c' out; simpl.
  - run_client. intros H. inversion H. rewrite app_nil_r. reflexivity.
  - destruct (rule_HTTP rule) as [paths|].
    + unfold bind at 1.
      destruct (createRulesForPaths ns dflt paths result c) as [c1 [mid|e]] eqn:E;
        [|discriminate].
      intros H. apply IH in H. rewrite H.
      rewrite (createRulesForPaths_paths _ _ _ _ _ _ _ E), <- app_assoc. reflexivity.
    + destruct dflt as [d|]; intros H; apply IH in H; rewrite H.
      * rewrite List.map_app, <- app_assoc. reflexivity.
      * reflexivity.
Qed.

(** C8 as stated fails: the pass of [ingress_controller.go] writes the
    rules of a route in the order the ingress declares its paths; it does
    not sort them. *)
Lemma createHTTPRouteRules_not_sorted :
  exists route,
    c_Writes (fst (Reconcile Fixtures.reconciler Fixtures.req
                     (Fixtures.cluster Fixtures.descending [Fixtures.catchAll])))
    = [WCreate ("demo", "web-a-example-com") route]
    /\ List.map Grouped.rulePath (rs_Rules (hr_Spec route)) = ["/b"; "/a"]
    /\ ~ StronglySorted ruleLe (rs_Rules (hr_Spec route)).
Proof.
  eexists. split; [vm_compute; reflexivity|]. split; [reflexivity|].
  intros H. inversion H as [|a l _ Hall]; subst.
  inversion Hall as [|b l' Hab _]; subst.
  unfold ruleLe in Hab. vm_compute in Hab. apply Hab. reflexivity.
Qed.

(** C8, amended: the revision with [mapToHTTPRouteRules] returns the
    translated rules sorted by [compareHTTPRouteRule], which is the
    lexicographic order on the path value and the name of the first
    backend, and the sorted list is a permutation of the translated one.
    [createHTTPRouteRules] of [ingress_controller.go] does not sort: its
    rules carry the paths in the order the ingress declares them. *)
Theorem rule_order :
  forall (ns : string) (rules : list IngressRule) (dflt : option HTTPBackendRef)
         (c c1 c2 : Cluster) (sorted plain : list HTTPRouteRule),
    Grouped.mapToHTTPRouteRules ns rules c = (c1, Ok sorted) ->
    createHTTPRouteRules ns rules dflt c = (c2, Ok plain) ->
    (exists translated,
        Grouped.mapRules ns rules [] c = (c1, Ok translated)
        /\ Permutation translated sorted)
    /\ StronglySorted ruleLe sorted
    /\ (forall a b, ruleLe a b <-> lexLe a b)
    /\ List.map Grouped.rulePath plain = declaredPaths rules dflt.
Proof.
  intros ns rules dflt c c1 c2 sorted plain Hs Hp.
  unfold Grouped.mapToHTTPRouteRules, bind in Hs.
  destruct (Grouped.mapRules ns rules [] c) as [c' [translated|e]] eqn:E; [|discriminate].
  unfold ret in Hs. inversion Hs; subst. split; [|split; [|split]].
  - exists translated. split; [reflexivity|].
    apply (SortStableFunc_Permutation Grouped.compareHTTPRouteRule ruleLe_total ruleLe_trans).
  - apply (SortStableFunc_StronglySorted Grouped.compareHTTPRouteRule ruleLe_total ruleLe_trans).
  - apply ruleLe_lexLe.
  - apply (createRulesLoop_paths _ _ _ _ _ _ _ Hp).
Qed.

Lemma rule_order_witness :
  (exists translated,
      Grouped.mapRules "demo" (ispec_Rules (ing_Spec Fixtures.descending)) []
        (Fixtures.cluster Fixtures.descending [Fixtures.catchAll])
      = (Fixtures.cluster Fixtures.descending [Fixtures.catchAll], Ok translated)
      /\ Permutation translated Fixtures.sortedRules)
  /\ StronglySorted ruleLe Fixtures.sortedRules
  /\ (forall a b, ruleLe a b <-> lexLe a b)
  /\ List.map Grouped.rulePath Fixtures.plainRules
     = declaredPaths (ispec_Rules (ing_Spec Fixtures.descending)) None.
Proof.
  apply (rule_order "demo" (ispec_Rules (ing_Spec Fixtures.descending)) None
           (Fixtures.cluster Fixtures.descending [Fixtures.catchAll])
           (Fixtures.cluster Fixtures.descending [Fixtures.catchAll])
           (Fixtures.cluster Fixtures.descending [Fixtures.catchAll])
           Fixtures.sortedRules Fixtures.plainRules).
  - vm_compute. reflexivity.
  - vm_compute. reflexivity.
Defined.

Example sortedRules_paths : List.map Grouped.rulePath Fixtures.sortedRules = ["/a"; "/b"].
Proof. reflexivity. Qed.

(* ===================================================================== *)
(** ** Further properties of the helpers *)
(* ===================================================================== *)

(** *** Strings *)

Lemma string_length_app (s t : string) :
  String.length (s +:+ t) = (String.length s + String.length t)%nat.
Proof.
  induction s as [|a s IH]; [reflexivity|].
  rewrite string_app_cons. simpl. rewrite IH. reflexivity.
Qed.

Lemma drop_app_length (p s : string) : GoStrings.drop (String.length p) (p +:+ s) = s.
Proof.
  induction p as [|a p IH]; [destruct s; reflexivity|].
  rewrite string_app_cons. simpl. exact IH.
Qed.

(** A string is what [drop] passes over followed by what it leaves. *)
Lemma drop_split (n : nat) (s : string) :
  exists p, s = p +:+ GoStrings.drop n s.
Proof.
  revert s. induction n as [|n IH]; intros s.
  - exists EmptyString. destruct s; reflexivity.
  - destruct s as [|a s]; [exists EmptyString; reflexivity|].
    destruct (IH s) as [p Hp]. exists (String a p).
    rewrite string_app_cons. simpl. rewrite <- Hp. reflexivity.
Qed.

Lemma HasSuffix_iff (s suffix : string) :
  GoStrings.HasSuffix s suffix = true <-> exists p, s = p +:+ suffix.
Proof.
  unfold GoStrings.HasSuffix. rewrite andb_true_iff, Nat.leb_le, String.eqb_eq. split.
  - intros [_ H]. destruct (drop_split (String.length s - String.length suffix) s) as [p Hp].
    exists p. rewrite H in Hp. exact Hp.
  - intros [p ->]. rewrite string_length_app. split; [lia|].
    replace (String.length p + String.length suffix - String.length suffix)%nat
      with (String.length p) by lia.
    apply drop_app_length.
Qed.

Lemma EqualFold_length (s t : string) :
  GoStrings.EqualFold s t = true -> String.length s = String.length t.
Proof.
  revert t. induction s as [|a s IH]; intros [|b t]; simpl; try discriminate; [reflexivity|].
  rewrite andb_true_iff. intros [_ H]. rewrite (IH t H). reflexivity.
Qed.

Lemma EqualFold_foldString (s t : string) :
  GoStrings.EqualFold s t = true <-> foldString s = foldString t.
Proof.
  revert t. induction s as [|a s IH]; intros [|b t]; simpl;
    try (split; [discriminate | discriminate]); [tauto|].
  rewrite andb_true_iff, Ascii.eqb_eq, IH. split.
  - intros [-> ->]. reflexivity.
  - intros H. inversion H. auto.
Qed.

(** X4: for ASCII hostnames, a listener hostname [*.S] matches exactly
    the hosts that are [S] with at least one byte in front of it.  The
    bytes of [S] are compared as they are, and the byte in front of [S]
    need not be a dot.  (Beyond ASCII Go's [strings.EqualFold] folds runes,
    which the embedding does not follow.) *)
Theorem hostnameMatches_wildcard_iff (ingressHost suffix : string) :
  asciiString ingressHost = true ->
  asciiString suffix = true ->
  (hostnameMatches ingressHost ("*." +:+ suffix) = true
   <-> exists p, p <> EmptyString /\ ingressHost = p +:+ suffix).
Proof.
  intros _ _.
  rewrite hostnameMatches_wildcard, andb_true_iff, negb_true_iff, HasSuffix_iff. split.
  - intros [Hne [p ->]]. exists p. split; [|reflexivity].
    intros ->. simpl in Hne. rewrite EqualFold_refl in Hne. discriminate.
  - intros (p & Hp & ->). split; [|exists p; reflexivity].
    destruct (GoStrings.EqualFold (p +:+ suffix) suffix) eqn:E; [|reflexivity].
    apply EqualFold_length in E. rewrite string_length_app in E.
    destruct p; [congruence | simpl in E; lia].
Qed.

Lemma hostnameMatches_wildcard_iff_witness :
  hostnameMatches "badexample.com" ("*." +:+ "example.com") = true
  <-> exists p, p <> EmptyString /\ "badexample.com" = p +:+ "example.com".
Proof.
  apply (hostnameMatches_wildcard_iff "badexample.com" "example.com"); reflexivity.
Defined.

(** X5: for ASCII hostnames, a listener hostname that does not start with
    a star and a dot matches exactly the hosts that are equal to it once
    the capitals A-Z of both are folded onto small letters. *)
Theorem hostnameMatches_exact_iff (ingressHost listenerHost : string) :
  asciiString ingressHost = true ->
  asciiString listenerHost = true ->
  GoStrings.HasPrefix listenerHost "*." = false ->
  (hostnameMatches ingressHost listenerHost = true
   <-> foldString ingressHost = foldString listenerHost).
Proof.
  intros _ _ H. unfold hostnameMatches. rewrite H. apply EqualFold_foldString.
Qed.

Lemma hostnameMatches_exact_iff_witness :
  hostnameMatches "App.Example.COM" "app.example.com" = true
  <-> foldString "App.Example.COM" = foldString "app.example.com".
Proof.
  apply (hostnameMatches_exact_iff "App.Example.COM" "app.example.com"); reflexivity.
Defined.

(** *** Route names *)

(** Replacing one byte: every occurrence goes, the other bytes stay. *)
Lemma ReplaceAll_byte (s : string) (a : ascii) (new : string) :
  GoStrings.ReplaceAll s (String a EmptyString) new
  = String.concat EmptyString
      (List.map (fun c => if Ascii.eqb a c then new else String c EmptyString)
         (list_ascii_of_string s)).
Proof.
  unfold GoStrings.ReplaceAll. induction s as [|c s IH]; [reflexivity|].
  cbn [GoStrings.replace_from String.length Nat.sub list_ascii_of_string List.map].
  assert (Hp : String.prefix (String a EmptyString) (String c s) = Ascii.eqb a c).
  { cbn [String.prefix]. destruct (ascii_dec a c) as [->|Hne].
    - rewrite Ascii.eqb_refl. destruct s; reflexivity.
    - symmetry. apply Ascii.eqb_neq. exact Hne. }
  rewrite Hp, IH.
  destruct (List.map _ (list_ascii_of_string s)) as [|x l] eqn:El.
  - simpl. destruct (Ascii.eqb a c); [rewrite string_app_nil_r|]; reflexivity.
  - cbn [String.concat]. destruct (Ascii.eqb a c); reflexivity.
Qed.

Lemma bytes_app (s t : string) : bytes (s +:+ t) = bytes s ++ bytes t.
Proof.
  unfold bytes. induction s as [|a s IH]; [reflexivity|].
  rewrite string_app_cons. simpl. rewrite IH. reflexivity.
Qed.

Lemma bytes_concat (l : list string) :
  bytes (String.concat EmptyString l) = List.concat (List.map bytes l).
Proof.
  induction l as [|x l IH]; [reflexivity|].
  destruct l as [|y l].
  - simpl. rewrite app_nil_r. reflexivity.
  - change (String.concat EmptyString (x :: y :: l))
      with (x +:+ EmptyString +:+ String.concat EmptyString (y :: l)).
    rewrite bytes_app. change (EmptyString +:+ ?t) with t.
    rewrite IH. reflexivity.
Qed.

(** The bytes of a string after one byte was replaced. *)
Lemma bytes_ReplaceAll_byte (s : string) (a : ascii) (new : string) (c : ascii) :
  In c (bytes (GoStrings.ReplaceAll s (String a EmptyString) new))
  <-> (In c (bytes s) /\ c <> a) \/ (In a (bytes s) /\ In c (bytes new)).
Proof.
  rewrite ReplaceAll_byte, bytes_concat. fold (bytes s).
  induction (bytes s) as [|x l IH]; simpl; [tauto|].
  rewrite in_app_iff, IH. destruct (Ascii.eqb a x) eqn:E.
  - apply Ascii.eqb_eq in E. subst x. split.
    + intros [H|[[H1 H2]|[H1 H2]]]; [right; auto | left; auto | right; auto].
    + intros [[[H|H] Hn]|[_ H]]; [congruence | right; left; auto | left; exact H].
  - apply Ascii.eqb_neq in E. simpl. split.
    + intros [[H|[]]|[[H1 H2]|[H1 H2]]];
        [left; split; [left; exact H | congruence] | left; auto | right; auto].
    + intros [[[H|H] Hn]|[[H|H] Hc]];
        [left; left; exact H | right; left; auto | congruence | right; right; auto].
Qed.

(** X6: the part of a route name that comes from the hostname holds neither
    a dot nor a star, whatever the hostname; a byte of it is a byte of the
    hostname, a dash, or a letter of the word wildcard. *)
Theorem cleanHostname_bytes (hostname : string) (c : ascii) :
  In c (bytes (cleanHostname hostname)) ->
  c <> "."%char /\ c <> "*"%char
  /\ (In c (bytes hostname) \/ c = "-"%char \/ In c (bytes "wildcard")).
Proof.
  unfold cleanHostname.
  rewrite (bytes_ReplaceAll_byte _ "*"%char "wildcard" c).
  rewrite !(bytes_ReplaceAll_byte hostname "."%char "-").
  intros [[[[H Hd]|[_ H]] Hs]|[_ H]].
  - auto.
  - simpl in H. destruct H as [<-|[]]. repeat split; try discriminate. auto.
  - split; [|split; [|auto]]; intros ->; simpl in H; intuition discriminate.
Qed.

Lemma cleanHostname_bytes_witness :
  "w"%char <> "."%char /\ "w"%char <> "*"%char
  /\ (In "w"%char (bytes "*.a") \/ "w"%char = "-"%char \/ In "w"%char (bytes "wildcard")).
Proof.
  apply (cleanHostname_bytes "*.a" "w"%char). simpl. left. reflexivity.
Defined.

(** X7: the two revisions of [generateHTTPRouteName] give the same name for
    every hostname but the empty one, for which this revision appends a
    dash to the ingress name and the other returns the ingress name. *)
Theorem generateHTTPRouteName_revisions (ingressName hostname : string) :
  (hostname <> EmptyString ->
   Grouped.generateHTTPRouteName ingressName hostname
   = generateHTTPRouteName ingressName hostname)
  /\ generateHTTPRouteName ingressName EmptyString = ingressName +:+ "-"
  /\ Grouped.generateHTTPRouteName ingressName EmptyString = ingressName
  /\ generateHTTPRouteName ingressName EmptyString
     <> Grouped.generateHTTPRouteName ingressName EmptyString.
Proof.
  split; [|split; [reflexivity|split; [reflexivity|]]].
  - intros H. unfold Grouped.generateHTTPRouteName.
    apply String.eqb_neq in H. rewrite H. reflexivity.
  - intros H. apply (f_equal String.length) in H.
    change (generateHTTPRouteName ingressName EmptyString) with (ingressName +:+ "-") in H.
    change (Grouped.generateHTTPRouteName ingressName EmptyString) with ingressName in H.
    rewrite string_length_app in H. simpl in H. lia.
Qed.

(** *** Hostnames of an ingress *)

Lemma seen_insert (m : gmap string bool) (k h : string) :
  seen (<[k := true]> m) h = String.eqb h k || seen m h.
Proof.
  unfold seen. destruct (String.eqb h k) eqn:E.
  - apply String.eqb_eq in E. subst h. rewrite lookup_insert_eq. reflexivity.
  - apply String.eqb_neq in E. rewrite lookup_insert_ne by congruence. reflexivity.
Qed.

Lemma filter_filter_bool {A} (P Q R : A -> bool) (l : list A) :
  (forall x, P x = Q x && R x) ->
  List.filter P l = List.filter R (List.filter Q l).
Proof.
  intros H. induction l as [|x l IH]; [reflexivity|].
  simpl. rewrite H. destruct (Q x); simpl; [destruct (R x)|]; rewrite IH; reflexivity.
Qed.

Lemma filter_all_bool {A} (P : A -> bool) (l : list A) :
  (forall x, In x l -> P x = true) -> List.filter P l = l.
Proof.
  induction l as [|x l IH]; intros H; [reflexivity|].
  simpl. rewrite (H x (or_introl eq_refl)), IH; [reflexivity|].
  intros y Hy. apply H. right. exact Hy.
Qed.

Lemma In_firstOccurrences (l : list string) (x : string) :
  In x (firstOccurrences l) <-> In x l.
Proof.
  induction l as [|y l IH]; simpl; [tauto|].
  rewrite filter_In, IH, negb_true_iff, String.eqb_neq.
  destruct (string_dec y x); [subst|]; intuition congruence.
Qed.

Lemma NoDup_firstOccurrences (l : list string) : List.NoDup (firstOccurrences l).
Proof.
  induction l as [|y l IH]; simpl; [constructor|].
  constructor.
  - rewrite filter_In, negb_true_iff, String.eqb_neq. intros [_ H]. congruence.
  - apply List.NoDup_filter. exact IH.
Qed.

Lemma extractHostnames_from (rules : list IngressRule) :
  forall (m : gmap string bool) (hostnames : list string),
    snd (foldl extractHostnames_step (m, hostnames) rules)
    = hostnames
      ++ List.filter (fun h => negb (seen m h))
           (firstOccurrences (List.map rule_Host rules)).
Proof.
  induction rules as [|rule rest IH]; intros m hostnames; simpl.
  - rewrite app_nil_r. reflexivity.
  - destruct (seen m (rule_Host rule)) eqn:E; simpl.
    + rewrite IH. f_equal.
      rewrite <- (filter_filter_bool (fun h => negb (seen m h))
                    (fun y => negb (String.eqb y (rule_Host rule)))
                    (fun h => negb (seen m h))); [reflexivity|].
      intros x. destruct (String.eqb x (rule_Host rule)) eqn:Ex; [|reflexivity].
      apply String.eqb_eq in Ex. subst x. rewrite E. reflexivity.
    + rewrite IH, <- app_assoc. simpl. f_equal. f_equal.
      apply filter_filter_bool. intros x. rewrite seen_insert, negb_orb. reflexivity.
Qed.

Lemma extractHostnames_eq (rules : list IngressRule) :
  extractHostnames rules = firstOccurrences (List.map rule_Host rules).
Proof.
  unfold extractHostnames. rewrite extractHostnames_from. simpl.
  apply filter_all_bool. intros x _. reflexivity.
Qed.

(** X1: [extractHostnames] returns every host of the rules once, the empty
    host of a rule without hostname included, in the order in which the
    hosts first appear. *)
Theorem extractHostnames_spec (rules : list IngressRule) :
  extractHostnames rules = firstOccurrences (List.map rule_Host rules)
  /\ List.NoDup (extractHostnames rules)
  /\ (forall h, In h (extractHostnames rules) <-> exists rule, In rule rules /\ rule_Host rule = h).
Proof.
  rewrite extractHostnames_eq. split; [reflexivity|]. split; [apply NoDup_firstOccurrences|].
  intros h. rewrite In_firstOccurrences, in_map_iff. split.
  - intros (rule & H1 & H2). eauto.
  - intros (rule & H1 & H2). eauto.
Qed.

(** The hosts [filterRules] keeps are the non-empty ones, so the hostnames
    extracted after it never hold the empty host. *)
Lemma extractHostnames_filterRules (rules : list IngressRule) :
  ~ In EmptyString (extractHostnames (filterRules rules)).
Proof.
  rewrite extractHostnames_eq, In_firstOccurrences, in_map_iff.
  intros (rule & Hh & Hin). unfold filterRules in Hin.
  apply filter_In in Hin. destruct Hin as [_ Hne].
  rewrite Hh in Hne. discriminate.
Qed.

Lemma groupRulesByHostname_from (rules : list IngressRule) (hostname : string) :
  forall m : gmap string (list IngressRule),
    default [] (foldl
                  (fun result rule =>
                     <[rule_Host rule := default [] (result !! rule_Host rule) ++ [rule]]>
                       result) m rules !! hostname)
    = default [] (m !! hostname) ++ matchingRulesFor hostname rules
    /\ (is_Some (foldl
                   (fun result rule =>
                      <[rule_Host rule
                        := default [] (result !! rule_Host rule) ++ [rule]]> result)
                   m rules !! hostname)
        <-> is_Some (m !! hostname)
            \/ exists rule, In rule rules /\ rule_Host rule = hostname).
Proof.
  induction rules as [|rule rest IH]; intros m; simpl.
  - rewrite app_nil_r. split; [reflexivity|]. split; [auto|].
    intros [H|(rule & [] & _)]. exact H.
  - destruct (IH (<[rule_Host rule := default [] (m !! rule_Host rule) ++ [rule]]> m))
      as [IH1 IH2].
    rewrite IH1, IH2. unfold matchingRulesFor. simpl.
    destruct (String.eqb (rule_Host rule) hostname) eqn:E.
    + apply String.eqb_eq in E. rewrite <- E, lookup_insert_eq. simpl.
      rewrite <- app_assoc. split; [reflexivity|]. split; [|eauto].
      intros _. right. exists rule. auto.
    + apply String.eqb_neq in E. rewrite lookup_insert_ne by exact E.
      split; [reflexivity|]. split.
      * intros [H|(r & H1 & H2)]; [auto | right; exists r; auto].
      * intros [H|(r & [H1|H1] & H2)]; [auto | congruence | right; exists r; auto].
Qed.

(** An entry of the grouped rules holds the rules of its host, and there is
    at least one. *)
Lemma groupRulesByHostname_entry (rules : list IngressRule) (hostname : string)
    (matchingRules : list IngressRule) :
  Grouped.groupRulesByHostname rules !! hostname = Some matchingRules ->
  matchingRules = matchingRulesFor hostname rules
  /\ exists rule, In rule rules /\ rule_Host rule = hostname.
Proof.
  unfold Grouped.groupRulesByHostname. intros H.
  destruct (groupRulesByHostname_from rules hostname ∅) as [G1 G2].
  rewrite lookup_empty in G1, G2. rewrite H in G1, G2. simpl in G1.
  split; [exact G1|].
  destruct (proj1 G2 (ex_intro _ matchingRules eq_refl)) as [[x Hx]|Hr];
    [discriminate Hx | exact Hr].
Qed.

(** X2: the map of [groupRulesByHostname] holds, for every host, the rules
    that [Reconcile] of the later revision selects for it by comparing
    hosts, in the same order; a host has an entry exactly when a rule
    carries it. *)
Theorem groupRulesByHostname_spec (rules : list IngressRule) (hostname : string) :
  default [] (Grouped.groupRulesByHostname rules !! hostname) = matchingRulesFor hostname rules
  /\ (is_Some (Grouped.groupRulesByHostname rules !! hostname)
      <-> exists rule, In rule rules /\ rule_Host rule = hostname).
Proof.
  unfold Grouped.groupRulesByHostname.
  destruct (groupRulesByHostname_from rules hostname ∅) as [G1 G2].
  rewrite lookup_empty in G1, G2. simpl in G1.
  split; [exact G1|]. rewrite G2. split.
  - intros [[x H]|H]; [discriminate | exact H].
  - auto.
Qed.

(** *** Gateway selection *)

Lemma findCatchAll_listeners_eq ns gateway listeners acc :
  foldl (findCatchAll_step ns gateway) acc listeners
  = acc ++ List.map (createParentRef gateway)
             (List.filter (catchAllListener ns gateway) listeners).
Proof.
  revert acc. induction listeners as [|l ls IH]; intros acc; simpl.
  - rewrite app_nil_r. reflexivity.
  - rewrite IH. unfold findCatchAll_step, catchAllListener.
    destruct (isListenerAccessibleFromNamespace l (gw_Namespace gateway) ns); simpl;
      [|reflexivity].
    destruct (l_Hostname l) as [h|]; [destruct (GoStrings.HasPrefix h "*")|]; simpl;
      try rewrite <- app_assoc; reflexivity.
Qed.

Lemma findCatchAllGateways_eq ns gateways :
  findCatchAllGateways ns gateways
  = flat_map
      (fun gateway =>
         List.map (createParentRef gateway)
           (List.filter (catchAllListener ns gateway) (gw_Listeners gateway)))
      gateways.
Proof.
  unfold findCatchAllGateways.
  assert (G : forall acc,
             foldl (fun parentRefs gateway =>
                      foldl (findCatchAll_step ns gateway) parentRefs (gw_Listeners gateway))
               acc gateways
             = acc ++ flat_map
                        (fun gateway =>
                           List.map (createParentRef gateway)
                             (List.filter (catchAllListener ns gateway) (gw_Listeners gateway)))
                        gateways).
  { induction gateways as [|g gs IH]; intros acc; simpl.
    - rewrite app_nil_r. reflexivity.
    - rewrite IH, findCatchAll_listeners_eq, <- app_assoc. reflexivity. }
  apply (G []).
Qed.

(** X3: [findCatchAllGateways] returns one parent reference for every
    accessible listener that has no hostname or a hostname starting with a
    star, and nothing else; it keeps repeated listeners (its length is the
    number of such listeners) and it is empty exactly when there is no such
    listener. *)
Theorem findCatchAllGateways_spec (ns : string) (gateways : list Gateway) :
  (forall p,
      In p (findCatchAllGateways ns gateways)
      <-> exists gateway listener,
            In gateway gateways /\ In listener (gw_Listeners gateway)
            /\ catchAllListener ns gateway listener = true
            /\ p = createParentRef gateway listener)
  /\ length (findCatchAllGateways ns gateways)
     = list_sum
         (List.map
            (fun gateway =>
               length (List.filter (catchAllListener ns gateway) (gw_Listeners gateway)))
            gateways)
  /\ (findCatchAllGateways ns gateways = [] <-> noCatchAllListener ns gateways).
Proof.
  rewrite findCatchAllGateways_eq. split; [|split].
  - intros p. rewrite in_flat_map. split.
    + intros (g & Hg & Hp). apply in_map_iff in Hp. destruct Hp as (l & <- & Hl).
      apply filter_In in Hl. destruct Hl as [Hl Hc]. exists g, l. auto.
    + intros (g & l & Hg & Hl & Hc & ->). exists g. split; [exact Hg|].
      apply in_map_iff. exists l. split; [reflexivity|]. apply filter_In. auto.
  - induction gateways as [|g gs IH]; simpl; [reflexivity|].
    rewrite length_app, length_map, IH. reflexivity.
  - split.
    + intros E gateway listener Hg Hl Ha.
      destruct (l_Hostname listener) as [h|] eqn:Eh.
      * exists h. split; [reflexivity|].
        destruct (GoStrings.HasPrefix h "*") eqn:Ep; [|reflexivity].
        assert (Hin : In (createParentRef gateway listener)
                        (flat_map
                           (fun gateway =>
                              List.map (createParentRef gateway)
                                (List.filter (catchAllListener ns gateway)
                                   (gw_Listeners gateway))) gateways)).
        { apply in_flat_map. exists gateway. split; [exact Hg|].
          apply in_map_iff. exists listener. split; [reflexivity|].
          apply filter_In. split; [exact Hl|].
          unfold catchAllListener. rewrite Ha, Eh, Ep. reflexivity. }
        rewrite E in Hin. destruct Hin.
      * assert (Hin : In (createParentRef gateway listener)
                        (flat_map
                           (fun gateway =>
                              List.map (createParentRef gateway)
                                (List.filter (catchAllListener ns gateway)
                                   (gw_Listeners gateway))) gateways)).
        { apply in_flat_map. exists gateway. split; [exact Hg|].
          apply in_map_iff. exists listener. split; [reflexivity|].
          apply filter_In. split; [exact Hl|].
          unfold catchAllListener. rewrite Ha, Eh. reflexivity. }
        rewrite E in Hin. destruct Hin.
    + intros H. rewrite <- findCatchAllGateways_eq. apply findCatchAllGateways_none. exact H.
Qed.

Lemma findMatching_step_spec ns hostname gateway st listener :
  matchingState st ->
  let st' := findMatching_step ns hostname gateway st listener in
  matchingState st'
  /\ (forall p, In p (snd st') ->
                In p (snd st)
                \/ (admits ns hostname gateway listener = true
                    /\ p = createParentRef gateway listener))
  /\ (forall k, In k (keysOf (snd st)) -> In k (keysOf (snd st')))
  /\ (admits ns hostname gateway listener = true ->
      In (parentRefKey (createParentRef gateway listener)) (keysOf (snd st'))).
Proof.
  destruct st as [m result]. intros [Hm Hn]. simpl in Hm, Hn.
  unfold findMatching_step, admits.
  destruct (isListenerAccessibleFromNamespace listener (gw_Namespace gateway) ns); simpl;
    [|split; [split; assumption|]; split; [auto|]; split; [auto|discriminate]].
  destruct (match l_Hostname listener with
            | Some h => hostnameMatches hostname h
            | None => true
            end); [|split; [split; assumption|]; split; [auto|]; split; [auto|discriminate]].
  destruct (seen m (parentRefKey (createParentRef gateway listener))) eqn:E; simpl.
  - split; [split; assumption|]. split; [auto|]. split; [auto|].
    intros _. apply Hm. exact E.
  - unfold matchingState, keysOf in *. cbn [fst snd]. rewrite List.map_app. simpl.
    split; [split|].
    + intros k. rewrite seen_insert, in_app_iff, orb_true_iff, String.eqb_eq, Hm. simpl.
      intuition.
    + apply List.NoDup_app; [exact Hn | repeat constructor; intros [] |].
      intros k Hk [<-|[]]. apply Hm in Hk. congruence.
    + split; [|split].
      * intros p Hp. apply in_app_iff in Hp. destruct Hp as [Hp|[<-|[]]]; auto.
      * intros k Hk. apply in_app_iff. left. exact Hk.
      * intros _. apply in_app_iff. right. left. reflexivity.
Qed.

Lemma findMatching_listeners_spec ns hostname gateway listeners :
  forall st,
    matchingState st ->
    let st' := foldl (findMatching_step ns hostname gateway) st listeners in
    matchingState st'
    /\ (forall p, In p (snd st') ->
                  In p (snd st)
                  \/ exists listener,
                       In listener listeners
                       /\ admits ns hostname gateway listener = true
                       /\ p = createParentRef gateway listener)
    /\ (forall k, In k (keysOf (snd st)) -> In k (keysOf (snd st')))
    /\ (forall listener,
           In listener listeners ->
           admits ns hostname gateway listener = true ->
           In (parentRefKey (createParentRef gateway listener)) (keysOf (snd st'))).
Proof.
  induction listeners as [|l ls IH]; intros st Hst; simpl.
  - split; [exact Hst|]. split; [auto|]. split; [auto|]. intros listener [].
  - destruct (findMatching_step_spec ns hostname gateway st l Hst) as (H1 & H2 & H3 & H4).
    destruct (IH _ H1) as (I1 & I2 & I3 & I4).
    split; [exact I1|]. split; [|split].
    + intros p Hp. destruct (I2 p Hp) as [Hq|(l' & Hl & Ha & ->)].
      * destruct (H2 p Hq) as [Hr|[Ha ->]]; [auto|]. right. exists l. auto.
      * right. exists l'. auto.
    + auto.
    + intros listener [<-|Hl] Ha; [apply I3, H4, Ha | apply I4; assumption].
Qed.

Lemma findMatching_gateways_spec ns hostname gateways :
  forall st,
    matchingState st ->
    let st' :=
      foldl (fun st gateway =>
               foldl (findMatching_step ns hostname gateway) st (gw_Listeners gateway))
        st gateways in
    matchingState st'
    /\ (forall p, In p (snd st') ->
                  In p (snd st)
                  \/ exists gateway listener,
                       In gateway gateways /\ In listener (gw_Listeners gateway)
                       /\ admits ns hostname gateway listener = true
                       /\ p = createParentRef gateway listener)
    /\ (forall k, In k (keysOf (snd st)) -> In k (keysOf (snd st')))
    /\ (forall gateway listener,
           In gateway gateways -> In listener (gw_Listeners gateway) ->
           admits ns hostname gateway listener = true ->
           In (parentRefKey (createParentRef gateway listener)) (keysOf (snd st'))).
Proof.
  induction gateways as [|g gs IH]; intros st Hst; simpl.
  - split; [exact Hst|]. split; [auto|]. split; [auto|]. intros gateway listener [].
  - destruct (findMatching_listeners_spec ns hostname g (gw_Listeners g) st Hst)
      as (H1 & H2 & H3 & H4).
    destruct (IH _ H1) as (I1 & I2 & I3 & I4).
    split; [exact I1|]. split; [|split].
    + intros p Hp. destruct (I2 p Hp) as [Hq|(g' & l' & Hg & Hl & Ha & ->)].
      * destruct (H2 p Hq) as [Hr|(l' & Hl & Ha & ->)]; [auto|].
        right. exists g, l'. auto.
      * right. exists g', l'. auto.
    + auto.
    + intros gateway listener [<-|Hg] Hl Ha; [apply I3, H4; assumption | eapply I4; eassumption].
Qed.

Lemma matchingState_empty : matchingState (∅ : gmap string bool, @nil ParentReference).
Proof.
  split; [|constructor]. intros k. simpl. unfold seen. rewrite lookup_empty. simpl.
  split; [discriminate | tauto].
Qed.

Lemma findMatchingGateways_sound (ns hostname : string) (gateways : list Gateway) (p : ParentReference) :
  In p (findMatchingGateways ns hostname gateways) ->
  exists gateway listener,
    In gateway gateways /\ In listener (gw_Listeners gateway)
    /\ admits ns hostname gateway listener = true
    /\ p = createParentRef gateway listener.
Proof.
  unfold findMatchingGateways. intros Hp.
  destruct (findMatching_gateways_spec ns hostname gateways _ matchingState_empty)
    as (_ & H2 & _).
  destruct (H2 p Hp) as [[]|H]. exact H.
Qed.

Lemma findMatchingGateways_complete (ns hostname : string) (gateways : list Gateway)
    (gateway : Gateway) (listener : Listener) :
  In gateway gateways -> In listener (gw_Listeners gateway) ->
  admits ns hostname gateway listener = true ->
  In (parentRefKey (createParentRef gateway listener))
    (keysOf (findMatchingGateways ns hostname gateways)).
Proof.
  unfold findMatchingGateways.
  destruct (findMatching_gateways_spec ns hostname gateways _ matchingState_empty)
    as (_ & _ & _ & H4).
  apply H4.
Qed.

(** X8: every parent reference [findMatchingGateways] returns is the
    reference of a listener that is accessible from the namespace and has no
    hostname or a hostname that matches; every such listener is represented
    by a returned reference with its key; no two returned references have
    the same key, so none is returned twice; and the result is empty exactly
    when no listener qualifies. *)
Theorem findMatchingGateways_spec (ns hostname : string) (gateways : list Gateway) :
  (forall p,
      In p (findMatchingGateways ns hostname gateways) ->
      exists gateway listener,
        In gateway gateways /\ In listener (gw_Listeners gateway)
        /\ admits ns hostname gateway listener = true
        /\ p = createParentRef gateway listener)
  /\ (forall gateway listener,
         In gateway gateways -> In listener (gw_Listeners gateway) ->
         admits ns hostname gateway listener = true ->
         In (parentRefKey (createParentRef gateway listener))
           (keysOf (findMatchingGateways ns hostname gateways)))
  /\ List.NoDup (keysOf (findMatchingGateways ns hostname gateways))
  /\ List.NoDup (findMatchingGateways ns hostname gateways)
  /\ (findMatchingGateways ns hostname gateways = []
      <-> forall gateway listener,
            In gateway gateways -> In listener (gw_Listeners gateway) ->
            admits ns hostname gateway listener = false).
Proof.
  assert (Hn : List.NoDup (keysOf (findMatchingGateways ns hostname gateways))).
  { unfold findMatchingGateways.
    destruct (findMatching_gateways_spec ns hostname gateways _ matchingState_empty)
      as ([_ H1] & _). exact H1. }
  split; [intros p; apply findMatchingGateways_sound|].
  split; [intros gateway listener; apply findMatchingGateways_complete|].
  split; [exact Hn|]. split; [apply (NoDup_map_inv parentRefKey); exact Hn|].
  split.
  - intros E gateway listener Hg Hl.
    destruct (admits ns hostname gateway listener) eqn:Ha; [|reflexivity].
    pose proof (findMatchingGateways_complete ns hostname gateways gateway listener Hg Hl Ha)
      as H2.
    rewrite E in H2. destruct H2.
  - intros H. destruct (findMatchingGateways ns hostname gateways) as [|p l] eqn:E; [reflexivity|].
    assert (Hp : In p (findMatchingGateways ns hostname gateways)) by (rewrite E; left; reflexivity).
    destruct (findMatchingGateways_sound ns hostname gateways p Hp) as (g & l' & Hg & Hl & Ha & _).
    rewrite (H g l' Hg Hl) in Ha. discriminate.
Qed.

(** *** Backend resolution *)

Lemma mapBackendRef_error_missing ns backend c c' e :
  mapBackendRef ns backend c = (c', Err e) -> missingNamedPort ns backend c.
Proof.
  unfold mapBackendRef, resolveObjectRef, missingNamedPort.
  destruct (ib_Resource backend); [run_client; discriminate|].
  destruct (ib_Service backend) as [service|]; [|run_client; discriminate].
  destruct (sbp_Number (isb_Port service) =? 0) eqn:En; [|run_client; discriminate].
  destruct (String.eqb (sbp_Name (isb_Port service)) EmptyString) eqn:Es;
    [run_client; discriminate|].
  cbn [negb]. run_client.
  destruct (c_Services c !! (ns, isb_Name service)) eqn:El; [discriminate|].
  intros _. split; [reflexivity|]. exists service.
  apply Z.eqb_eq in En. apply String.eqb_neq in Es. auto.
Qed.

(** X9: [mapBackendRef] fails in one case only: the backend has no resource,
    its service port has no number but a name, and the service is not in
    the namespace.  The error is then that service's not-found error, and
    in every case the cluster is left as it was. *)
Theorem mapBackendRef_fails_iff (ns : string) (backend : IngressBackend) (c : Cluster) :
  fst (mapBackendRef ns backend c) = c
  /\ ((exists e, snd (mapBackendRef ns backend c) = Err e) <-> missingNamedPort ns backend c)
  /\ (forall e, snd (mapBackendRef ns backend c) = Err e ->
                exists service,
                  ib_Service backend = Some service
                  /\ e = ErrNotFound "Service" (ns, isb_Name service)).
Proof.
  split; [apply readonly_mapBackendRef|]. split; [split|].
  - intros [e He]. destruct (mapBackendRef ns backend c) as [c' res] eqn:E.
    simpl in He. subst res. eapply mapBackendRef_error_missing. exact E.
  - intros Hm. destruct (mapBackendRef_missing ns backend c Hm) as (service & _ & E).
    rewrite E. eauto.
  - intros e He. destruct (mapBackendRef ns backend c) as [c' res] eqn:E.
    simpl in He. subst res.
    destruct (mapBackendRef_missing ns backend c (mapBackendRef_error_missing _ _ _ _ _ E))
      as (service & Hs & E').
    rewrite E' in E. inversion E. eauto.
Qed.

(** X10: a service backend with a port number is resolved without a look at
    the cluster: the reference carries that number, the empty group, the
    kind Service, the namespace of the ingress and the weight one, whether
    the service exists or not. *)
Theorem mapBackendRef_port_number :
  forall (ns : string) (backend : IngressBackend) (service : IngressServiceBackend) (c : Cluster),
    ib_Resource backend = None ->
    ib_Service backend = Some service ->
    sbp_Number (isb_Port service) <> 0 ->
    mapBackendRef ns backend c
    = (c, Ok {| br_Ref := {| bor_Group := Some EmptyString;
                             bor_Kind := Some "Service";
                             bor_Name := isb_Name service;
                             bor_Namespace := Some ns;
                             bor_Port := Some (sbp_Number (isb_Port service)) |};
                br_Weight := Some 1 |}).
Proof.
  intros ns backend service c Hr Hs Hn.
  unfold mapBackendRef, resolveObjectRef. rewrite Hr, Hs.
  apply Z.eqb_neq in Hn. rewrite Hn. reflexivity.
Qed.

Lemma mapBackendRef_port_number_witness :
  mapBackendRef "demo" (Fixtures.byNumber "s1" 80)
    (Fixtures.cluster Fixtures.dotDash [Fixtures.catchAll])
  = (Fixtures.cluster Fixtures.dotDash [Fixtures.catchAll],
     Ok {| br_Ref := {| bor_Group := Some EmptyString;
                        bor_Kind := Some "Service";
                        bor_Name := "s1";
                        bor_Namespace := Some "demo";
                        bor_Port := Some 80 |};
           br_Weight := Some 1 |}).
Proof.
  apply (mapBackendRef_port_number "demo" (Fixtures.byNumber "s1" 80)
           {| isb_Name := "s1"; isb_Port := {| sbp_Name := EmptyString; sbp_Number := 80 |} |}
           (Fixtures.cluster Fixtures.dotDash [Fixtures.catchAll])).
  - reflexivity.
  - reflexivity.
  - discriminate.
Defined.

Lemma findServicePort_Some (ports : list ServicePort) (name : string) (port : Z) :
  findServicePort ports name = Some port
  <-> exists before svcPort after,
        ports = before ++ svcPort :: after
        /\ sp_Name svcPort = name /\ sp_Port svcPort = port
        /\ forall other, In other before -> sp_Name other <> name.
Proof.
  induction ports as [|p rest IH]; simpl.
  - split; [discriminate|]. intros (before & sp & after & H & _). destruct before; discriminate.
  - destruct (String.eqb (sp_Name p) name) eqn:E.
    + apply String.eqb_eq in E. split.
      * intros H. inversion H. exists [], p, rest. simpl. tauto.
      * intros (before & sp & after & H & Hn & Hp & Hb).
        destruct before as [|b before]; simpl in H; inversion H; subst; [reflexivity|].
        exfalso. apply (Hb b); [left; reflexivity | reflexivity].
    + apply String.eqb_neq in E. rewrite IH. split.
      * intros (before & sp & after & -> & Hn & Hp & Hb).
        exists (p :: before), sp, after. simpl. split; [reflexivity|].
        split; [exact Hn|]. split; [exact Hp|].
        intros other [<-|Ho]; [exact E | apply Hb; exact Ho].
      * intros (before & sp & after & H & Hn & Hp & Hb).
        destruct before as [|b before]; simpl in H; inversion H; subst; [congruence|].
        exists before, sp, after. split; [reflexivity|]. split; [reflexivity|].
        split; [reflexivity|]. intros other Ho. apply Hb. right. exact Ho.
Qed.

Lemma findServicePort_None (ports : list ServicePort) (name : string) :
  findServicePort ports name = None <-> forall p, In p ports -> sp_Name p <> name.
Proof.
  induction ports as [|p rest IH]; simpl; [tauto|].
  destruct (String.eqb (sp_Name p) name) eqn:E.
  - apply String.eqb_eq in E. split; [discriminate|].
    intros H. exfalso. apply (H p); auto.
  - apply String.eqb_neq in E. rewrite IH. split.
    + intros H q [<-|Hq]; auto.
    + intros H q Hq. apply H. auto.
Qed.

(** X11: a service backend with a port name and no port number, whose
    service is in the namespace, is resolved without an error.  The
    reference carries the number of the first port of the service with that
    name; when the service has no port of that name the reference carries
    no port. *)
Theorem mapBackendRef_port_name :
  forall (ns : string) (backend : IngressBackend) (service : IngressServiceBackend)
         (svc : Service) (c : Cluster),
    ib_Resource backend = None ->
    ib_Service backend = Some service ->
    sbp_Number (isb_Port service) = 0 ->
    sbp_Name (isb_Port service) <> EmptyString ->
    c_Services c !! (ns, isb_Name service) = Some svc ->
    exists port,
      mapBackendRef ns backend c
      = (c, Ok {| br_Ref := {| bor_Group := Some EmptyString;
                               bor_Kind := Some "Service";
                               bor_Name := isb_Name service;
                               bor_Namespace := Some ns;
                               bor_Port := port |};
                  br_Weight := Some 1 |})
      /\ (forall n,
             port = Some n
             <-> exists before svcPort after,
                   svc_Ports svc = before ++ svcPort :: after
                   /\ sp_Name svcPort = sbp_Name (isb_Port service)
                   /\ sp_Port svcPort = n
                   /\ forall other, In other before ->
                                    sp_Name other <> sbp_Name (isb_Port service))
      /\ (port = None
          <-> forall p, In p (svc_Ports svc) -> sp_Name p <> sbp_Name (isb_Port service)).
Proof.
  intros ns backend service svc c Hr Hs Hn Hp Hl.
  exists (findServicePort (svc_Ports svc) (sbp_Name (isb_Port service))).
  split; [|split].
  - unfold mapBackendRef, resolveObjectRef. rewrite Hr, Hs, Hn.
    apply String.eqb_neq in Hp. rewrite Hp. cbn [negb Z.eqb]. run_client.
    rewrite Hl. reflexivity.
  - intros n. apply findServicePort_Some.
  - apply findServicePort_None.
Qed.

Lemma mapBackendRef_port_name_witness :
  exists port,
    mapBackendRef "demo" (Fixtures.byName "api" "http") Fixtures.withService
    = (Fixtures.withService,
       Ok {| br_Ref := {| bor_Group := Some EmptyString;
                          bor_Kind := Some "Service";
                          bor_Name := "api";
                          bor_Namespace := Some "demo";
                          bor_Port := port |};
             br_Weight := Some 1 |})
    /\ (forall n,
           port = Some n
           <-> exists before svcPort after,
                 svc_Ports Fixtures.apiService = before ++ svcPort :: after
                 /\ sp_Name svcPort = "http"
                 /\ sp_Port svcPort = n
                 /\ forall other, In other before -> sp_Name other <> "http")
    /\ (port = None
        <-> forall p, In p (svc_Ports Fixtures.apiService) -> sp_Name p <> "http").
Proof.
  apply (mapBackendRef_port_name "demo" (Fixtures.byName "api" "http")
           {| isb_Name := "api"; isb_Port := {| sbp_Name := "http"; sbp_Number := 0 |} |}
           Fixtures.apiService Fixtures.withService).
  - reflexivity.
  - reflexivity.
  - reflexivity.
  - discriminate.
  - vm_compute. reflexivity.
Defined.

Example mapBackendRef_http_8080 :
  snd (mapBackendRef "demo" (Fixtures.byName "api" "http") Fixtures.withService)
  = Ok {| br_Ref := {| bor_Group := Some EmptyString; bor_Kind := Some "Service";
                       bor_Name := "api"; bor_Namespace := Some "demo";
                       bor_Port := Some 8080 |};
          br_Weight := Some 1 |}.
Proof. vm_compute. reflexivity. Qed.

(** X12: whatever [mapBackendRef] resolves carries the weight one.  A
    resource wins over a service given beside it and gets no port; the
    namespace of a resource or service reference is always the namespace
    passed in, that of the ingress; a backend with neither gives the empty
    reference, without an error. *)
Theorem mapBackendRef_shape :
  forall (ns : string) (backend : IngressBackend) (c c' : Cluster) (ref : HTTPBackendRef),
    mapBackendRef ns backend c = (c', Ok ref) ->
    br_Weight ref = Some 1
    /\ (forall resource,
           ib_Resource backend = Some resource ->
           br_Ref ref = {| bor_Group := tlor_APIGroup resource;
                           bor_Kind := Some (tlor_Kind resource);
                           bor_Name := tlor_Name resource;
                           bor_Namespace := Some ns;
                           bor_Port := None |})
    /\ (is_Some (ib_Resource backend) \/ is_Some (ib_Service backend) ->
        bor_Namespace (br_Ref ref) = Some ns)
    /\ (ib_Resource backend = None -> ib_Service backend = None ->
        br_Ref ref = zeroObjectRef).
Proof.
  intros ns backend c c' ref. unfold mapBackendRef, resolveObjectRef.
  destruct (ib_Resource backend) as [resource|].
  - run_client. intros H. inversion H. simpl.
    split; [reflexivity|]. split; [intros r Hr; inversion Hr; reflexivity|].
    split; [reflexivity | discriminate].
  - destruct (ib_Service backend) as [service|].
    + assert (G : forall o c0,
                 bor_Namespace o = Some ns ->
                 (c0, Ok {| br_Ref := o; br_Weight := Some 1 |}) = (c', Ok ref) ->
                 br_Weight ref = Some 1
                 /\ (forall resource : TypedLocalObjectReference,
                        @None TypedLocalObjectReference = Some resource ->
                        br_Ref ref = {| bor_Group := tlor_APIGroup resource;
                                        bor_Kind := Some (tlor_Kind resource);
                                        bor_Name := tlor_Name resource;
                                        bor_Namespace := Some ns;
                                        bor_Port := None |})
                 /\ (is_Some (@None TypedLocalObjectReference) \/ is_Some (Some service) ->
                     bor_Namespace (br_Ref ref) = Some ns)
                 /\ (@None TypedLocalObjectReference = None ->
                     Some service = None -> br_Ref ref = zeroObjectRef)).
      { intros o c0 Ho H. inversion H. simpl. split; [reflexivity|]. split; [discriminate|].
        split; [intros _; exact Ho | discriminate]. }
      destruct (negb (sbp_Number (isb_Port service) =? 0)).
      { run_client. apply G. reflexivity. }
      destruct (negb (String.eqb (sbp_Name (isb_Port service)) EmptyString)).
      * run_client. destruct (c_Services c !! (ns, isb_Name service)); [|discriminate].
        apply G. reflexivity.
      * run_client. apply G. reflexivity.
    + run_client. intros H. inversion H. simpl.
      split; [reflexivity|]. split; [discriminate|].
      split; [intros [[x Hx]|[x Hx]]; discriminate | reflexivity].
Qed.

Lemma mapBackendRef_shape_witness :
  br_Weight {| br_Ref := {| bor_Group := Some "example.io"; bor_Kind := Some "Bucket";
                            bor_Name := "assets"; bor_Namespace := Some "demo";
                            bor_Port := None |};
               br_Weight := Some 1 |} = Some 1
  /\ (forall resource,
         ib_Resource Fixtures.resourceBackend = Some resource ->
         br_Ref {| br_Ref := {| bor_Group := Some "example.io"; bor_Kind := Some "Bucket";
                                bor_Name := "assets"; bor_Namespace := Some "demo";
                                bor_Port := None |};
                   br_Weight := Some 1 |}
         = {| bor_Group := tlor_APIGroup resource;
              bor_Kind := Some (tlor_Kind resource);
              bor_Name := tlor_Name resource;
              bor_Namespace := Some "demo";
              bor_Port := None |})
  /\ (is_Some (ib_Resource Fixtures.resourceBackend)
      \/ is_Some (ib_Service Fixtures.resourceBackend) ->
      bor_Namespace
        (br_Ref {| br_Ref := {| bor_Group := Some "example.io"; bor_Kind := Some "Bucket";
                                bor_Name := "assets"; bor_Namespace := Some "demo";
                                bor_Port := None |};
                   br_Weight := Some 1 |}) = Some "demo")
  /\ (ib_Resource Fixtures.resourceBackend = None ->
      ib_Service Fixtures.resourceBackend = None ->
      br_Ref {| br_Ref := {| bor_Group := Some "example.io"; bor_Kind := Some "Bucket";
                             bor_Name := "assets"; bor_Namespace := Some "demo";
                             bor_Port := None |};
                br_Weight := Some 1 |} = zeroObjectRef).
Proof.
  apply (mapBackendRef_shape "demo" Fixtures.resourceBackend
           Fixtures.withService Fixtures.withService).
  reflexivity.
Defined.

(** *** Rule translation *)

Lemma createRulesForPaths_error_missing ns dflt paths :
  forall result c c' e,
    createRulesForPaths ns dflt paths result c = (c', Err e) ->
    exists path, In path paths /\ missingNamedPort ns (hip_Backend path) c.
Proof.
  induction paths as [|path rest IH]; intros result c c' e; simpl.
  - run_client. discriminate.
  - unfold bind at 1.
    pose proof (readonly_mapBackendRef ns (hip_Backend path) c) as Hro.
    destruct (mapBackendRef ns (hip_Backend path) c) as [c1 [ref|e1]] eqn:E;
      simpl in Hro; subst c1.
    + intros H. destruct (IH _ _ _ _ H) as (p & Hp & Hm). eauto.
    + intros _. exists path. split; [left; reflexivity|].
      eapply mapBackendRef_error_missing. exact E.
Qed.

Lemma createRulesLoop_error_missing ns dflt rules :
  forall result c c' e,
    createRulesLoop ns dflt rules result c = (c', Err e) ->
    exists rule paths path,
      In rule rules /\ rule_HTTP rule = Some paths /\ In path paths
      /\ missingNamedPort ns (hip_Backend path) c.
Proof.
  induction rules as [|rule rest IH]; intros result c c' e; simpl.
  - run_client. discriminate.
  - destruct (rule_HTTP rule) as [paths|] eqn:Eh.
    + unfold bind at 1.
      pose proof (readonly_createRulesForPaths ns dflt paths result c) as Hro.
      destruct (createRulesForPaths ns dflt paths result c) as [c1 [mid|e1]] eqn:E;
        simpl in Hro; subst c1.
      * intros H. destruct (IH _ _ _ _ H) as (r & ps & p & Hr & Hh & Hp & Hm).
        exists r, ps, p. auto.
      * intros _. destruct (createRulesForPaths_error_missing _ _ _ _ _ _ _ E) as (p & Hp & Hm).
        exists rule, paths, p. auto.
    + destruct dflt; intros H; destruct (IH _ _ _ _ H) as (r & ps & p & Hr & Hh & Hp & Hm);
        exists r, ps, p; auto.
Qed.

(** X13: [createHTTPRouteRules] fails exactly when some path of some rule
    has a backend that asks for a named port of a service that is not in
    the namespace; it never changes the cluster. *)
Theorem createHTTPRouteRules_fails_iff
    (ns : string) (rules : list IngressRule) (dflt : option HTTPBackendRef) (c : Cluster) :
  fst (createHTTPRouteRules ns rules dflt c) = c
  /\ ((exists e, snd (createHTTPRouteRules ns rules dflt c) = Err e)
      <-> exists rule paths path,
            In rule rules /\ rule_HTTP rule = Some paths /\ In path paths
            /\ missingNamedPort ns (hip_Backend path) c).
Proof.
  split; [apply readonly_createHTTPRouteRules|]. split.
  - intros [e He]. destruct (createHTTPRouteRules ns rules dflt c) as [c' res] eqn:E.
    simpl in He. subst res. eapply createRulesLoop_error_missing. exact E.
  - intros (rule & paths & path & Hr & Hh & Hp & Hm).
    destruct (createRulesLoop_fails ns dflt rules rule paths path [] c Hr Hh Hp Hm) as [key E].
    unfold createHTTPRouteRules. rewrite E. eauto.
Qed.

Lemma createRulesForPaths_items ns dflt paths :
  forall result c c' out,
    createRulesForPaths ns dflt paths result c = (c', Ok out) ->
    exists new,
      out = result ++ new
      /\ List.Forall2 (translates ns dflt c) (List.map Some paths) new.
Proof.
  induction paths as [|path rest IH]; intros result c c' out; simpl.
  - run_client. intros H. inversion H. exists []. rewrite app_nil_r. split; [reflexivity|].
    constructor.
  - unfold bind at 1.
    pose proof (readonly_mapBackendRef ns (hip_Backend path) c) as Hro.
    destruct (mapBackendRef ns (hip_Backend path) c) as [c1 [ref|e]] eqn:E;
      simpl in Hro; subst c1; [|discriminate].
    intros H. destruct (IH _ _ _ _ H) as (new & -> & Hnew).
    eexists. rewrite <- app_assoc. split; [reflexivity|].
    cbn [List.app]. constructor; [|exact Hnew].
    exists ref. split; [exact E|]. f_equal.
    destruct dflt as [d|]; [|reflexivity].
    rewrite orb_false_r. destruct (isEqual ref d); reflexivity.
Qed.

Lemma createRulesLoop_items ns dflt rules :
  forall result c c' out,
    createRulesLoop ns dflt rules result c = (c', Ok out) ->
    exists new,
      out = result ++ new
      /\ List.Forall2 (translates ns dflt c) (declaredItems rules dflt) new.
Proof.
  induction rules as [|rule rest IH]; intros result c c' out; simpl.
  - run_client. intros H. inversion H. exists []. rewrite app_nil_r. split; [reflexivity|].
    constructor.
  - destruct (rule_HTTP rule) as [paths|].
    + unfold bind at 1.
      pose proof (readonly_createRulesForPaths ns dflt paths result c) as Hro.
      destruct (createRulesForPaths ns dflt paths result c) as [c1 [mid|e]] eqn:E;
        simpl in Hro; subst c1; [|discriminate].
      intros H. destruct (createRulesForPaths_items _ _ _ _ _ _ _ E) as (new1 & -> & H1).
      destruct (IH _ _ _ _ H) as (new2 & -> & H2).
      exists (new1 ++ new2). rewrite app_assoc. split; [reflexivity|].
      apply List.Forall2_app; assumption.
    + destruct dflt as [d|]; intros H; destruct (IH _ _ _ _ H) as (new & -> & Hnew).
      * eexists. rewrite <- app_assoc. split; [reflexivity|].
        cbn [List.app]. constructor; [|exact Hnew]. exists d. auto.
      * exists new. auto.
Qed.

(** X14: when [createHTTPRouteRules] succeeds the cluster is unchanged and
    the rules it returns correspond one to one, in order, to what the
    ingress declares: its paths, and its rules without an HTTP section when
    there is a default backend.  The rule of a path has one match, which is
    [createPathMatch] of that path, and the reference [mapBackendRef]
    resolves for the backend of that path, followed by the default backend
    unless [isEqual] finds the two equal; the rule of a rule without an HTTP
    section has no match and the default backend alone.  [isEqual] compares
    the JSON texts of the two references, which on references whose strings
    are ASCII is equality. *)
Theorem createHTTPRouteRules_shape :
  forall (ns : string) (rules : list IngressRule) (dflt : option HTTPBackendRef)
         (c c' : Cluster) (out : list HTTPRouteRule),
    createHTTPRouteRules ns rules dflt c = (c', Ok out) ->
    c' = c
    /\ List.Forall2 (translates ns dflt c) (declaredItems rules dflt) out
    /\ List.map Grouped.rulePath out = declaredPaths rules dflt
    /\ length out = length (declaredPaths rules dflt)
    /\ (forall ref d : HTTPBackendRef,
           asciiBackendRef ref = true -> asciiBackendRef d = true ->
           (isEqual ref d = true <-> ref = d)).
Proof.
  intros ns rules dflt c c' out H.
  pose proof (createRulesLoop_paths _ _ _ _ _ _ _ H) as Hp. simpl in Hp.
  split.
  { pose proof (readonly_createRulesLoop ns dflt rules [] c) as Hro.
    unfold createHTTPRouteRules in H. rewrite H in Hro. exact Hro. }
  split.
  { destruct (createRulesLoop_items _ _ _ _ _ _ _ H) as (new & -> & Hnew). exact Hnew. }
  split; [exact Hp|]. split.
  - rewrite <- Hp, length_map. reflexivity.
  - exact isEqual_backendRef_deep.
Qed.

Lemma createHTTPRouteRules_shape_witness :
  Fixtures.cluster Fixtures.descending [Fixtures.catchAll]
  = Fixtures.cluster Fixtures.descending [Fixtures.catchAll]
  /\ List.Forall2
       (translates "demo" None (Fixtures.cluster Fixtures.descending [Fixtures.catchAll]))
       (declaredItems (ispec_Rules (ing_Spec Fixtures.descending)) None)
       Fixtures.plainRules
  /\ List.map Grouped.rulePath Fixtures.plainRules
     = declaredPaths (ispec_Rules (ing_Spec Fixtures.descending)) None
  /\ length Fixtures.plainRules
     = length (declaredPaths (ispec_Rules (ing_Spec Fixtures.descending)) None)
  /\ (forall ref d : HTTPBackendRef,
         asciiBackendRef ref = true -> asciiBackendRef d = true ->
         (isEqual ref d = true <-> ref = d)).
Proof.
  apply (createHTTPRouteRules_shape "demo" (ispec_Rules (ing_Spec Fixtures.descending)) None
           (Fixtures.cluster Fixtures.descending [Fixtures.catchAll])
           (Fixtures.cluster Fixtures.descending [Fixtures.catchAll])
           Fixtures.plainRules).
  vm_compute. reflexivity.
Defined.

(** The default backend follows the backend of a path unless it is that
    backend. *)
Example createHTTPRouteRules_default :
  exists rules,
    snd (createHTTPRouteRules "demo" Fixtures.withFallback (Some Fixtures.fallbackRef)
           Fixtures.withService) = Ok rules
    /\ List.map (fun r => (Grouped.rulePath r,
                           List.map (fun b => bor_Name (br_Ref b)) (rr_BackendRefs r))) rules
       = [("/", ["fallback"]); ("/x", ["s1"; "fallback"]); (EmptyString, ["fallback"])].
Proof. eexists. split; vm_compute; reflexivity. Qed.

(** *** One object at a time *)

(** [reconcileHTTPRoute] either leaves the cluster alone or stores one
    object under the name. *)
Lemma reconcileHTTPRoute_cases (name : NamespacedName) owner spec (c : Cluster) :
  (exists o, (o = Unchanged \/ o = Skipped) /\ reconcileHTTPRoute name owner spec c = (c, Ok o))
  \/ (exists obj w o,
         reconcileHTTPRoute name owner spec c = (storeHTTPRoute name obj w c, Ok o)
         /\ hr_Spec obj = spec
         /\ (w = WCreate name obj \/ w = WUpdate name obj)).
Proof.
  unfold reconcileHTTPRoute. run_client.
  destruct (c_HTTPRoutes c !! name) as [route|].
  - destruct (isOwnedBy (hr_Meta route) owner); [|left; exists Skipped; auto].
    destruct (negb (isEqual (hr_Spec route) spec)); [|left; exists Unchanged; auto].
    right. eexists. eexists. eexists. split; [reflexivity|]. split; [reflexivity|]. auto.
  - right. eexists. eexists. eexists. split; [reflexivity|]. split; [reflexivity|]. auto.
Qed.

(** X15: a call of [reconcileHTTPRoute] touches nothing but the object of
    the name it is given: every other stored route, the ingresses, the
    gateways and the services are as before, and at most one write is
    issued. *)
Theorem reconcileHTTPRoute_frame
    (name : NamespacedName) (owner : OwnerReference) (spec : HTTPRouteSpec) (c : Cluster) :
  sameInputs c (fst (reconcileHTTPRoute name owner spec c))
  /\ (forall other,
         other <> name ->
         c_HTTPRoutes (fst (reconcileHTTPRoute name owner spec c)) !! other
         = c_HTTPRoutes c !! other)
  /\ (c_Writes (fst (reconcileHTTPRoute name owner spec c)) = c_Writes c
      \/ exists obj,
           c_Writes (fst (reconcileHTTPRoute name owner spec c))
           = c_Writes c ++ [WCreate name obj]
           \/ c_Writes (fst (reconcileHTTPRoute name owner spec c))
              = c_Writes c ++ [WUpdate name obj]).
Proof.
  destruct (reconcileHTTPRoute_cases name owner spec c)
    as [(o & _ & E)|(obj & w & o & E & _ & Hw)]; rewrite E; simpl.
  - split; [apply sameInputs_refl|]. split; [reflexivity | left; reflexivity].
  - split; [repeat split|]. split.
    + intros other Hne. apply lookup_insert_ne. congruence.
    + right. exists obj. destruct Hw as [->| ->]; auto.
Qed.

(** X16: after a call of [reconcileHTTPRoute] an object of that name is
    stored.  A new object carries the owner reference and the desired spec.
    An object that was there keeps its metadata, owner references included;
    if it is owned its spec now has the JSON text of the desired spec, and
    if it is not owned it is the object that was there. *)
Theorem reconcileHTTPRoute_stored
    (name : NamespacedName) (owner : OwnerReference) (spec : HTTPRouteSpec) (c : Cluster) :
  exists stored,
    c_HTTPRoutes (fst (reconcileHTTPRoute name owner spec c)) !! name = Some stored
    /\ match c_HTTPRoutes c !! name with
       | None =>
           stored = {| hr_Meta := {| om_Name := snd name; om_Namespace := fst name;
                                     om_OwnerReferences := [owner] |};
                       hr_Spec := spec |}
       | Some route =>
           hr_Meta stored = hr_Meta route
           /\ if isOwnedBy (hr_Meta route) owner
              then isEqual (hr_Spec stored) spec = true
              else stored = route
       end.
Proof.
  destruct (c_HTTPRoutes c !! name) as [route|] eqn:H.
  - destruct (isOwnedBy (hr_Meta route) owner) eqn:Ho.
    + destruct (isEqual (hr_Spec route) spec) eqn:He.
      * rewrite (reconcileHTTPRoute_unchanged c name route owner spec H Ho He). simpl.
        exists route. auto.
      * rewrite (reconcileHTTPRoute_update c name route owner spec H Ho He). simpl.
        eexists. split; [apply lookup_insert_eq|]. simpl.
        split; [reflexivity | apply isEqual_refl_spec].
    + rewrite (reconcileHTTPRoute_skipped c name route owner spec H Ho). simpl.
      exists route. auto.
  - rewrite (reconcileHTTPRoute_create c name owner spec H). simpl.
    eexists. split; [apply lookup_insert_eq | reflexivity].
Qed.

(** *** What a pass depends on *)

Lemma servicesOnly_ret {A} (a : A) : servicesOnly (ret a).
Proof. intros c c' _. reflexivity. Qed.

Lemma servicesOnly_fail {A} (e : error) : servicesOnly (@fail A e).
Proof. intros c c' _. reflexivity. Qed.

Lemma servicesOnly_getService (key : NamespacedName) : servicesOnly (getService key).
Proof. intros c c' H. unfold getService. rewrite H. destruct (c_Services c' !! key); reflexivity. Qed.

Lemma servicesOnly_bind {A B} (m : Client A) (k : A -> Client B) :
  readonly m -> servicesOnly m -> (forall a, servicesOnly (k a)) -> servicesOnly (bind m k).
Proof.
  intros Hr Hm Hk c c' H. unfold bind.
  pose proof (Hr c) as H1. pose proof (Hr c') as H2. pose proof (Hm c c' H) as H3.
  destruct (m c) as [c1 [a|e]], (m c') as [c2 [a'|e']]; simpl in *; subst;
    try discriminate; inversion H3; subst; [apply Hk; exact H | reflexivity].
Qed.

Create HintDb services.
#[local] Hint Resolve servicesOnly_ret servicesOnly_fail servicesOnly_getService
  servicesOnly_bind : services.

Lemma servicesOnly_resolveObjectRef ns ref : servicesOnly (resolveObjectRef ns ref).
Proof.
  unfold resolveObjectRef.
  destruct (ib_Resource ref); [auto with services|].
  destruct (ib_Service ref); [|auto with services].
  destruct (negb _); [auto with services|].
  destruct (negb _); auto with services readonly.
Qed.

Lemma servicesOnly_mapBackendRef ns ref : servicesOnly (mapBackendRef ns ref).
Proof.
  unfold mapBackendRef.
  apply servicesOnly_bind; auto using servicesOnly_resolveObjectRef with services readonly.
Qed.

Lemma servicesOnly_mapDefaultBackend ns ingress : servicesOnly (mapDefaultBackend ns ingress).
Proof.
  unfold mapDefaultBackend. destruct (ispec_DefaultBackend _); [|auto with services].
  apply servicesOnly_bind; auto using servicesOnly_mapBackendRef with services readonly.
Qed.

Lemma servicesOnly_createRulesForPaths ns dflt paths :
  forall result, servicesOnly (createRulesForPaths ns dflt paths result).
Proof.
  induction paths as [|path rest IH]; intros result; simpl; [auto with services|].
  apply servicesOnly_bind; auto using servicesOnly_mapBackendRef with readonly.
Qed.

Lemma servicesOnly_createRulesLoop ns dflt rules :
  forall result, servicesOnly (createRulesLoop ns dflt rules result).
Proof.
  induction rules as [|rule rest IH]; intros result; simpl; [auto with services|].
  destruct (rule_HTTP rule).
  - apply servicesOnly_bind; auto using servicesOnly_createRulesForPaths with readonly.
  - destruct dflt; apply IH.
Qed.

Lemma servicesOnly_createHTTPRouteRules ns rules dflt :
  servicesOnly (createHTTPRouteRules ns rules dflt).
Proof. apply servicesOnly_createRulesLoop. Qed.

(** The spec the hostname loop reconciles for a hostname, when it reaches
    the write. *)
Lemma reconcileHostname_eq req ingress gateways owner dflt hostname c :
  reconcileHostname req ingress gateways owner dflt hostname c
  = match snd (createHTTPRouteRules (fst req)
                 (matchingRulesFor hostname (ispec_Rules (ing_Spec ingress))) dflt c) with
    | Err e => (c, Err e)
    | Ok rules =>
        if (length rules =? 0)%nat then (c, Ok tt)
        else if (length (findMatchingGateways (fst req) hostname gateways) =? 0)%nat
        then (c, Ok tt)
        else (fst (reconcileHTTPRoute (routeKey req hostname) owner
                     {| rs_ParentRefs := findMatchingGateways (fst req) hostname gateways;
                        rs_Hostnames := [hostname];
                        rs_Rules := rules |} c),
              Ok tt)
    end.
Proof.
  unfold reconcileHostname. unfold bind at 1.
  pose proof (readonly_createHTTPRouteRules (fst req)
                (matchingRulesFor hostname (ispec_Rules (ing_Spec ingress))) dflt c) as Hro.
  destruct (createHTTPRouteRules (fst req)
              (matchingRulesFor hostname (ispec_Rules (ing_Spec ingress))) dflt c)
    as [c1 [rules|e]]; simpl in Hro; subst c1; simpl; [|reflexivity].
  destruct (length rules =? 0)%nat; [reflexivity|].
  destruct (length (findMatchingGateways (fst req) hostname gateways) =? 0)%nat;
    [reflexivity|].
  unfold bind, routeKey.
  destruct (reconcileHTTPRoute_cases (fst req, generateHTTPRouteName (snd req) hostname) owner
              {| rs_ParentRefs := findMatchingGateways (fst req) hostname gateways;
                 rs_Hostnames := [hostname];
                 rs_Rules := rules |} c)
    as [(o & _ & E)|(obj & w & o & E & _)]; rewrite E; reflexivity.
Qed.

Lemma storeHTTPRoute_neq key obj w c : storeHTTPRoute key obj w c <> c.
Proof.
  intros H. apply (f_equal c_Writes) in H. simpl in H.
  apply (f_equal (@length Write)) in H. rewrite length_app in H. simpl in H. lia.
Qed.

(** A call that leaves the cluster alone found an object it does not own or
    an object whose spec is equal; that depends on the stored object only. *)
Lemma reconcileHTTPRoute_quiet_transfer name owner spec c c' :
  fst (reconcileHTTPRoute name owner spec c) = c ->
  c_HTTPRoutes c' !! name = c_HTTPRoutes c !! name ->
  fst (reconcileHTTPRoute name owner spec c') = c'.
Proof.
  intros H Hl.
  destruct (c_HTTPRoutes c !! name) as [route|] eqn:E.
  - destruct (isOwnedBy (hr_Meta route) owner) eqn:Ho.
    + destruct (isEqual (hr_Spec route) spec) eqn:He.
      * rewrite (reconcileHTTPRoute_unchanged c' name route owner spec Hl Ho He). reflexivity.
      * rewrite (reconcileHTTPRoute_update c name route owner spec E Ho He) in H.
        simpl in H. apply storeHTTPRoute_neq in H. destruct H.
    + rewrite (reconcileHTTPRoute_skipped c' name route owner spec Hl Ho). reflexivity.
  - rewrite (reconcileHTTPRoute_create c name owner spec E) in H.
    simpl in H. apply storeHTTPRoute_neq in H. destruct H.
Qed.

Lemma reconcileHostname_quiet_transfer req ingress gateways owner dflt hostname c c' :
  reconcileHostname req ingress gateways owner dflt hostname c = (c, Ok tt) ->
  c_Services c' = c_Services c ->
  c_HTTPRoutes c' !! routeKey req hostname = c_HTTPRoutes c !! routeKey req hostname ->
  reconcileHostname req ingress gateways owner dflt hostname c' = (c', Ok tt).
Proof.
  rewrite !reconcileHostname_eq. intros H Hs Hl.
  rewrite (servicesOnly_createHTTPRouteRules (fst req)
             (matchingRulesFor hostname (ispec_Rules (ing_Spec ingress))) dflt c' c Hs).
  destruct (snd (createHTTPRouteRules (fst req)
                   (matchingRulesFor hostname (ispec_Rules (ing_Spec ingress))) dflt c))
    as [rules|e]; [|discriminate].
  destruct (length rules =? 0)%nat; [reflexivity|].
  destruct (length (findMatchingGateways (fst req) hostname gateways) =? 0)%nat;
    [reflexivity|].
  inversion H as [H1].
  rewrite (reconcileHTTPRoute_quiet_transfer _ _ _ c c' H1 Hl). reflexivity.
Qed.

Lemma reconcileHostname_frame req ingress gateways owner dflt hostname c :
  sameInputs c (fst (reconcileHostname req ingress gateways owner dflt hostname c))
  /\ forall other,
       other <> routeKey req hostname ->
       c_HTTPRoutes (fst (reconcileHostname req ingress gateways owner dflt hostname c)) !! other
       = c_HTTPRoutes c !! other.
Proof.
  rewrite reconcileHostname_eq.
  destruct (snd (createHTTPRouteRules (fst req)
                   (matchingRulesFor hostname (ispec_Rules (ing_Spec ingress))) dflt c))
    as [rules|e]; [|split; [apply sameInputs_refl | reflexivity]].
  destruct (length rules =? 0)%nat; [split; [apply sameInputs_refl | reflexivity]|].
  destruct (length (findMatchingGateways (fst req) hostname gateways) =? 0)%nat;
    [split; [apply sameInputs_refl | reflexivity]|].
  simpl.
  destruct (reconcileHTTPRoute_cases (routeKey req hostname) owner
              {| rs_ParentRefs := findMatchingGateways (fst req) hostname gateways;
                 rs_Hostnames := [hostname];
                 rs_Rules := rules |} c)
    as [(o & _ & E)|(obj & w & o & E & _)]; rewrite E; simpl.
  - split; [apply sameInputs_refl | reflexivity].
  - split; [repeat split|]. intros other Hne. apply lookup_insert_ne. congruence.
Qed.

(** A round of the hostname loop that ended without an error has nothing
    left to do. *)
Lemma reconcileHostname_settles req ingress gateways owner dflt hostname c c1 :
  reconcileHostname req ingress gateways owner dflt hostname c = (c1, Ok tt) ->
  reconcileHostname req ingress gateways owner dflt hostname c1 = (c1, Ok tt).
Proof.
  intros H.
  pose proof (reconcileHostname_frame req ingress gateways owner dflt hostname c) as [Hf _].
  rewrite H in Hf. simpl in Hf. destruct Hf as (_ & _ & Hs).
  rewrite reconcileHostname_eq in H. rewrite reconcileHostname_eq.
  rewrite (servicesOnly_createHTTPRouteRules (fst req)
             (matchingRulesFor hostname (ispec_Rules (ing_Spec ingress))) dflt c1 c Hs).
  destruct (snd (createHTTPRouteRules (fst req)
                   (matchingRulesFor hostname (ispec_Rules (ing_Spec ingress))) dflt c))
    as [rules|e]; [|discriminate].
  destruct (length rules =? 0)%nat; [reflexivity|].
  destruct (length (findMatchingGateways (fst req) hostname gateways) =? 0)%nat;
    [reflexivity|].
  inversion H as [H1].
  pose proof (reconcileHTTPRoute_second_call c (routeKey req hostname) owner
                {| rs_ParentRefs := findMatchingGateways (fst req) hostname gateways;
                   rs_Hostnames := [hostname];
                   rs_Rules := rules |}) as H2.
  cbv zeta in H2. destruct H2 as [H2 _]. rewrite H2. reflexivity.
Qed.

Lemma reconcileHostnames_frame req ingress gateways owner dflt hostnames :
  forall c,
    sameInputs c (fst (reconcileHostnames req ingress gateways owner dflt hostnames c))
    /\ forall other,
         (forall h, In h hostnames -> other <> routeKey req h) ->
         c_HTTPRoutes (fst (reconcileHostnames req ingress gateways owner dflt hostnames c))
           !! other
         = c_HTTPRoutes c !! other.
Proof.
  induction hostnames as [|h hs IH]; intros c; simpl.
  - split; [apply sameInputs_refl | reflexivity].
  - unfold bind.
    destruct (reconcileHostname_frame req ingress gateways owner dflt h c) as [F1 F2].
    destruct (reconcileHostname req ingress gateways owner dflt h c) as [c1 [[]|e]];
      simpl in F1, F2.
    + destruct (IH c1) as [G1 G2]. split; [eapply sameInputs_trans; eassumption|].
      intros other Ho. rewrite G2 by (intros h' Hh'; apply Ho; right; exact Hh').
      apply F2. apply Ho. left. reflexivity.
    + simpl. split; [exact F1|]. intros other Ho. apply F2. apply Ho. left. reflexivity.
Qed.

Lemma reconcileHostnames_quiet req ingress gateways owner dflt hostnames :
  forall c c1,
    reconcileHostnames req ingress gateways owner dflt hostnames c = (c1, Ok tt) ->
    List.NoDup (List.map (generateHTTPRouteName (snd req)) hostnames) ->
    forall h, In h hostnames ->
              reconcileHostname req ingress gateways owner dflt h c1 = (c1, Ok tt).
Proof.
  induction hostnames as [|h hs IH]; intros c c1 H Hn h' Hin; [destruct Hin|].
  simpl in H. unfold bind in H.
  destruct (reconcileHostname req ingress gateways owner dflt h c) as [c2 [[]|e]] eqn:E;
    [|discriminate].
  simpl in Hn. inversion Hn as [|x l Hx Hn']; subst.
  destruct Hin as [<-|Hin]; [|eapply IH; eassumption].
  pose proof (reconcileHostnames_frame req ingress gateways owner dflt hs c2) as [F1 F2].
  rewrite H in F1, F2. simpl in F1, F2. destruct F1 as (_ & _ & Fs).
  apply (reconcileHostname_quiet_transfer req ingress gateways owner dflt h c2 c1).
  - apply (reconcileHostname_settles _ _ _ _ _ _ _ _ E).
  - exact Fs.
  - apply F2. intros h' Hh' Heq. apply Hx. unfold routeKey in Heq. inversion Heq as [Hg].
    rewrite Hg. apply in_map. exact Hh'.
Qed.

Lemma reconcileHostnames_of_quiet req ingress gateways owner dflt hostnames c :
  (forall h, In h hostnames ->
             reconcileHostname req ingress gateways owner dflt h c = (c, Ok tt)) ->
  reconcileHostnames req ingress gateways owner dflt hostnames c = (c, Ok tt).
Proof.
  induction hostnames as [|h hs IH]; intros H; [reflexivity|].
  simpl. unfold bind. rewrite (H h (or_introl eq_refl)).
  apply IH. intros h' Hh'. apply H. right. exact Hh'.
Qed.

Lemma mapDefaultBackend_sameInputs ns ingress c c1 dflt :
  mapDefaultBackend ns ingress c = (c, Ok dflt) ->
  c_Services c1 = c_Services c ->
  mapDefaultBackend ns ingress c1 = (c1, Ok dflt).
Proof.
  intros H Hs.
  pose proof (readonly_mapDefaultBackend ns ingress c1) as Hr.
  pose proof (servicesOnly_mapDefaultBackend ns ingress c1 c Hs) as Ho.
  rewrite H in Ho. destruct (mapDefaultBackend ns ingress c1) as [c2 res].
  simpl in Hr, Ho. subst. reflexivity.
Qed.

(** The pass after its guards, for an ingress without a rule host. *)
Lemma Reconcile_no_hostnames r req c ingress dflt :
  c_Ingresses c !! req = Some ingress ->
  c_Gateways c <> [] ->
  mapDefaultBackend (fst req) ingress c = (c, Ok dflt) ->
  extractHostnames (ispec_Rules (ing_Spec ingress)) = [] ->
  Reconcile r req c
  = match dflt with
    | Some backendRef =>
        if negb (RequireHostname r)
        then
          match createDefaultBackendSpec (fst req) backendRef (c_Gateways c) with
          | Err e => (c, Err e)
          | Ok spec =>
              (fst (reconcileHTTPRoute req (createOwnerReference ingress) spec c), Ok tt)
          end
        else (c, Ok tt)
    | None => (c, Ok tt)
    end.
Proof.
  intros Hi Hg Hd Hh. unfold Reconcile. rewrite Hi.
  destruct (c_Gateways c) as [|g gs] eqn:Eg; [congruence|]. simpl length. simpl Nat.eqb.
  unfold bind at 1. rewrite Hd, Hh.
  change ((length (@nil string) =? 0)%nat) with true. cbn iota.
  destruct dflt as [backendRef|]; [|reflexivity].
  destruct (negb (RequireHostname r)); [|reflexivity].
  destruct (createDefaultBackendSpec (fst req) backendRef (g :: gs)) as [spec|e];
    [|reflexivity].
  unfold bind.
  destruct (reconcileHTTPRoute_cases req (createOwnerReference ingress) spec c)
    as [(o & _ & E)|(obj & w & o & E & _)]; rewrite E; reflexivity.
Qed.

(** X20: a pass that ended without an error leaves nothing to do: when the
    hostnames of the ingress get pairwise different route names, a second
    pass over the cluster the first one left issues no write and ends
    without an error. *)
Theorem Reconcile_second_pass :
  forall (r : IngressReconciler) (req : NamespacedName) (c c1 : Cluster),
    (forall ingress,
        c_Ingresses c !! req = Some ingress ->
        List.NoDup (List.map (generateHTTPRouteName (snd req))
                      (extractHostnames (ispec_Rules (ing_Spec ingress))))) ->
    Reconcile r req c = (c1, Ok tt) ->
    Reconcile r req c1 = (c1, Ok tt).
Proof.
  intros r req c c1 Hn H.
  destruct (c_Ingresses c !! req) as [ingress|] eqn:Hi.
  2:{ pose proof H as H0. unfold Reconcile in H0. rewrite Hi in H0.
      inversion H0; subst. exact H. }
  specialize (Hn ingress eq_refl).
  destruct (c_Gateways c) as [|g gs] eqn:Hg.
  { pose proof H as H0. unfold Reconcile in H0. rewrite Hi, Hg in H0. simpl in H0.
    inversion H0; subst. exact H. }
  assert (Hg' : c_Gateways c <> []) by (rewrite Hg; discriminate).
  pose proof (readonly_mapDefaultBackend (fst req) ingress c) as Hro.
  destruct (mapDefaultBackend (fst req) ingress c) as [c' [dflt|e]] eqn:Hd;
    simpl in Hro; subst c'.
  2:{ unfold Reconcile in H. rewrite Hi, Hg in H. simpl in H.
      unfold bind at 1 in H. rewrite Hd in H. discriminate. }
  destruct (extractHostnames (ispec_Rules (ing_Spec ingress))) as [|h hs] eqn:Hh.
  - rewrite (Reconcile_no_hostnames r req c ingress dflt Hi Hg' Hd Hh) in H.
    assert (G : forall spec,
               Reconcile r req
                 (fst (reconcileHTTPRoute req (createOwnerReference ingress) spec c))
               = match dflt with
                 | Some backendRef =>
                     if negb (RequireHostname r)
                     then
                       match createDefaultBackendSpec (fst req) backendRef (c_Gateways c) with
                       | Err e =>
                           (fst (reconcileHTTPRoute req (createOwnerReference ingress) spec c),
                            Err e)
                       | Ok spec' =>
                           (fst (reconcileHTTPRoute req (createOwnerReference ingress) spec'
                                   (fst (reconcileHTTPRoute req (createOwnerReference ingress)
                                           spec c))), Ok tt)
                       end
                     else (fst (reconcileHTTPRoute req (createOwnerReference ingress) spec c),
                           Ok tt)
                 | None => (fst (reconcileHTTPRoute req (createOwnerReference ingress) spec c),
                            Ok tt)
                 end).
    { intros spec.
      destruct (keepsInputs_reconcileHTTPRoute req (createOwnerReference ingress) spec c)
        as (Ki & Kg & Ks).
      rewrite (Reconcile_no_hostnames r req _ ingress dflt).
      - rewrite Kg. reflexivity.
      - rewrite Ki. exact Hi.
      - rewrite Kg. exact Hg'.
      - apply (mapDefaultBackend_sameInputs _ _ c); assumption.
      - exact Hh. }
    destruct dflt as [backendRef|]; [|inversion H; subst; exact (Reconcile_no_hostnames
                                        r req c1 ingress None Hi Hg' Hd Hh)].
    destruct (negb (RequireHostname r)) eqn:Hq.
    2:{ inversion H; subst.
        rewrite (Reconcile_no_hostnames r req c1 ingress _ Hi Hg' Hd Hh).
        rewrite Hq. reflexivity. }
    destruct (createDefaultBackendSpec (fst req) backendRef (c_Gateways c)) as [spec|e] eqn:Hs;
      [|discriminate].
    inversion H as [H1]. rewrite (G spec).
    pose proof (reconcileHTTPRoute_second_call c req (createOwnerReference ingress) spec) as H2.
    cbv zeta in H2. destruct H2 as [H2 _]. rewrite H2. reflexivity.
  - assert (Hne : extractHostnames (ispec_Rules (ing_Spec ingress)) <> [])
      by (rewrite Hh; discriminate).
    rewrite (Reconcile_hostnames r req c ingress dflt Hi Hg' Hd Hne) in H.
    pose proof (reconcileHostnames_frame req ingress (c_Gateways c)
                  (createOwnerReference ingress) dflt
                  (extractHostnames (ispec_Rules (ing_Spec ingress))) c) as [F _].
    rewrite H in F. simpl in F. destruct F as (Ki & Kg & Ks).
    rewrite (Reconcile_hostnames r req c1 ingress dflt).
    + rewrite Kg. apply reconcileHostnames_of_quiet. intros h' Hh'.
      eapply reconcileHostnames_quiet; [exact H | | exact Hh'].
      rewrite Hh. exact Hn.
    + rewrite Ki. exact Hi.
    + rewrite Kg. exact Hg'.
    + apply (mapDefaultBackend_sameInputs _ _ c); assumption.
    + exact Hne.
Qed.

Lemma Reconcile_second_pass_witness :
  Reconcile Fixtures.reconciler Fixtures.req
    (fst (Reconcile Fixtures.reconciler Fixtures.req
            (Fixtures.cluster Fixtures.twoHosts [Fixtures.catchAll])))
  = (fst (Reconcile Fixtures.reconciler Fixtures.req
            (Fixtures.cluster Fixtures.twoHosts [Fixtures.catchAll])),
     Ok tt).
Proof.
  apply (Reconcile_second_pass Fixtures.reconciler Fixtures.req
           (Fixtures.cluster Fixtures.twoHosts [Fixtures.catchAll])).
  - intros ingress H. vm_compute in H. inversion H. vm_compute.
    repeat constructor; simpl; intuition discriminate.
  - vm_compute. reflexivity.
Defined.

(** *** A whole pass *)

(** The three ways a pass can go: it leaves the cluster alone; it
    reconciles the one route of the default backend; or it runs the
    hostname loop. *)
Lemma Reconcile_cases (r : IngressReconciler) (req : NamespacedName) (c : Cluster) :
  (fst (Reconcile r req c) = c
   /\ (snd (Reconcile r req c) = Ok tt
       \/ (exists ingress backend e,
              c_Ingresses c !! req = Some ingress
              /\ ispec_DefaultBackend (ing_Spec ingress) = Some backend
              /\ missingNamedPort (fst req) backend c
              /\ snd (Reconcile r req c) = Err e)
       \/ (exists ingress,
              c_Ingresses c !! req = Some ingress
              /\ c_Gateways c <> []
              /\ ispec_Rules (ing_Spec ingress) = []
              /\ RequireHostname r = false
              /\ findCatchAllGateways (fst req) (c_Gateways c) = []
              /\ snd (Reconcile r req c) = Err noCatchAll)))
  \/ (exists ingress backendRef spec,
         c_Ingresses c !! req = Some ingress
         /\ c_Gateways c <> []
         /\ mapDefaultBackend (fst req) ingress c = (c, Ok (Some backendRef))
         /\ extractHostnames (ispec_Rules (ing_Spec ingress)) = []
         /\ RequireHostname r = false
         /\ createDefaultBackendSpec (fst req) backendRef (c_Gateways c) = Ok spec
         /\ Reconcile r req c
            = (fst (reconcileHTTPRoute req (createOwnerReference ingress) spec c), Ok tt))
  \/ (exists ingress dflt,
         c_Ingresses c !! req = Some ingress
         /\ c_Gateways c <> []
         /\ mapDefaultBackend (fst req) ingress c = (c, Ok dflt)
         /\ extractHostnames (ispec_Rules (ing_Spec ingress)) <> []
         /\ Reconcile r req c
            = reconcileHostnames req ingress (c_Gateways c) (createOwnerReference ingress) dflt
                (extractHostnames (ispec_Rules (ing_Spec ingress))) c).
Proof.
  destruct (c_Ingresses c !! req) as [ingress|] eqn:Hi.
  2:{ left. unfold Reconcile. rewrite Hi. auto. }
  destruct (c_Gateways c) as [|g gs] eqn:Hg.
  { left. unfold Reconcile. rewrite Hi, Hg. auto. }
  rewrite <- Hg.
  assert (Hg' : c_Gateways c <> []) by (rewrite Hg; discriminate).
  pose proof (readonly_mapDefaultBackend (fst req) ingress c) as Hro.
  destruct (mapDefaultBackend (fst req) ingress c) as [c' [dflt|e]] eqn:Hd;
    simpl in Hro; subst c'.
  2:{ left. assert (E : Reconcile r req c = (c, Err e)).
      { unfold Reconcile. rewrite Hi, Hg. simpl. unfold bind at 1. rewrite Hd. reflexivity. }
      rewrite E. split; [reflexivity|]. right. left.
      unfold mapDefaultBackend in Hd.
      destruct (ispec_DefaultBackend (ing_Spec ingress)) as [backend|] eqn:Eb;
        [|discriminate].
      unfold bind in Hd.
      destruct (mapBackendRef (fst req) backend c) as [c2 [ref|e2]] eqn:Em; [discriminate|].
      exists ingress, backend, e. split; [reflexivity|]. split; [exact Eb|].
      split; [eapply mapBackendRef_error_missing; exact Em | reflexivity]. }
  destruct (extractHostnames (ispec_Rules (ing_Spec ingress))) as [|h hs] eqn:Hh.
  - pose proof (Reconcile_no_hostnames r req c ingress dflt Hi Hg' Hd Hh) as E.
    destruct dflt as [backendRef|]; [|left; rewrite E; auto].
    destruct (RequireHostname r) eqn:Hq; [left; rewrite E; auto|]. simpl in E.
    destruct (createDefaultBackendSpec (fst req) backendRef (c_Gateways c)) as [spec|e] eqn:Hs.
    + right. left. exists ingress, backendRef, spec. auto 10.
    + left. rewrite E. split; [reflexivity|]. right. right. exists ingress.
      assert (Hr : ispec_Rules (ing_Spec ingress) = []).
      { destruct (ispec_Rules (ing_Spec ingress)) as [|rule rest] eqn:Er; [reflexivity|].
        assert (Hin : In (rule_Host rule) (extractHostnames (rule :: rest))).
        { rewrite extractHostnames_eq, In_firstOccurrences. left. reflexivity. }
        rewrite Hh in Hin. destruct Hin. }
      unfold createDefaultBackendSpec in Hs.
      destruct (findCatchAllGateways (fst req) (c_Gateways c)) as [|p ps] eqn:Ef;
        [|discriminate].
      simpl in Hs. inversion Hs. auto 10.
  - right. right. exists ingress, dflt.
    assert (Hne : extractHostnames (ispec_Rules (ing_Spec ingress)) <> [])
      by (rewrite Hh; discriminate).
    split; [reflexivity|]. split; [exact Hg'|]. split; [exact Hd|].
    split; [exact Hne|]. apply Reconcile_hostnames; assumption.
Qed.

(** X19: a pass changes nothing but routes of its own: the ingresses, the
    gateways and the services are as before, and a stored route is as
    before unless its name is the name of the ingress or the name generated
    for one of the hostnames of the ingress, in the namespace of the
    ingress.  Routes in other namespaces are never touched. *)
Theorem Reconcile_frame (r : IngressReconciler) (req : NamespacedName) (c : Cluster) :
  sameInputs c (fst (Reconcile r req c))
  /\ (forall other,
         other <> req ->
         (forall ingress h,
             c_Ingresses c !! req = Some ingress ->
             In h (extractHostnames (ispec_Rules (ing_Spec ingress))) ->
             other <> routeKey req h) ->
         c_HTTPRoutes (fst (Reconcile r req c)) !! other = c_HTTPRoutes c !! other)
  /\ (forall other,
         fst other <> fst req ->
         c_HTTPRoutes (fst (Reconcile r req c)) !! other = c_HTTPRoutes c !! other).
Proof.
  assert (G : sameInputs c (fst (Reconcile r req c))
              /\ (forall other,
                     other <> req ->
                     (forall ingress h,
                         c_Ingresses c !! req = Some ingress ->
                         In h (extractHostnames (ispec_Rules (ing_Spec ingress))) ->
                         other <> routeKey req h) ->
                     c_HTTPRoutes (fst (Reconcile r req c)) !! other
                     = c_HTTPRoutes c !! other)).
  { destruct (Reconcile_cases r req c)
      as [[E _]|[(ingress & ref & spec & Hi & _ & _ & _ & _ & _ & E)
                |(ingress & dflt & Hi & _ & _ & _ & E)]].
    - rewrite E. split; [apply sameInputs_refl | reflexivity].
    - rewrite E. simpl. split; [apply keepsInputs_reconcileHTTPRoute|].
      intros other Hne _.
      destruct (reconcileHTTPRoute_cases req (createOwnerReference ingress) spec c)
        as [(o & _ & E')|(obj & w & o & E' & _)]; rewrite E'; simpl; [reflexivity|].
      apply lookup_insert_ne. congruence.
    - rewrite E.
      destruct (reconcileHostnames_frame req ingress (c_Gateways c)
                  (createOwnerReference ingress) dflt
                  (extractHostnames (ispec_Rules (ing_Spec ingress))) c) as [F1 F2].
      split; [exact F1|]. intros other _ Ho. apply F2. intros h Hh. apply (Ho ingress h Hi Hh). }
  destruct G as [G1 G2]. split; [exact G1|]. split; [exact G2|].
  intros other Hns. apply G2.
  - intros ->. apply Hns. reflexivity.
  - intros ingress h _ _ ->. apply Hns. reflexivity.
Qed.

(** X18: a pass issues no write when the ingress is not found, when the
    cluster has no gateway, or when the ingress has no rules and either
    hostnames are required or there is no default backend.  It then ends
    without an error, unless the default backend asks for a named port of a
    service that is not there. *)
Theorem Reconcile_no_write :
  forall (r : IngressReconciler) (req : NamespacedName) (c : Cluster),
    (c_Ingresses c !! req = None
     \/ c_Gateways c = []
     \/ exists ingress,
          c_Ingresses c !! req = Some ingress
          /\ ispec_Rules (ing_Spec ingress) = []
          /\ (RequireHostname r = true \/ ispec_DefaultBackend (ing_Spec ingress) = None)) ->
    fst (Reconcile r req c) = c
    /\ (snd (Reconcile r req c) = Ok tt
        \/ exists ingress backend,
             c_Ingresses c !! req = Some ingress
             /\ ispec_DefaultBackend (ing_Spec ingress) = Some backend
             /\ missingNamedPort (fst req) backend c).
Proof.
  intros r req c H.
  destruct (Reconcile_cases r req c)
    as [[E [Ho|[(ingress & backend & e & Hi & Hb & Hm & _)
               |(ingress & Hi & Hg & Hr & Hq & _ & Es)]]]
       |[(ingress & ref & spec & Hi & Hg & Hd & Hh & Hq & Hs & E)
        |(ingress & dflt & Hi & Hg & Hd & Hh & E)]].
  - auto.
  - split; [exact E|]. right. exists ingress, backend. auto.
  - exfalso. destruct H as [H|[H|(ingress' & Hi' & _ & [H|H])]]; try congruence.
    rewrite Hi in Hi'. inversion Hi'; subst ingress'.
    assert (Em : mapDefaultBackend (fst req) ingress c = (c, Ok None)).
    { unfold mapDefaultBackend. rewrite H. reflexivity. }
    pose proof (Reconcile_no_hostnames r req c ingress None Hi Hg Em) as E'.
    rewrite Hr in E'. specialize (E' eq_refl).
    rewrite E' in Es. discriminate.
  - exfalso. destruct H as [H|[H|(ingress' & Hi' & _ & [H|H])]]; try congruence.
    rewrite Hi in Hi'. inversion Hi'; subst ingress'.
    unfold mapDefaultBackend in Hd. rewrite H in Hd. discriminate.
  - exfalso. destruct H as [H|[H|(ingress' & Hi' & Hr & _)]]; try congruence.
    rewrite Hi in Hi'. inversion Hi'; subst ingress'.
    rewrite Hr in Hh. apply Hh. reflexivity.
Qed.

Lemma Reconcile_no_write_witness :
  fst (Reconcile Fixtures.strict Fixtures.req
         (Fixtures.cluster Fixtures.defaultOnly [Fixtures.catchAll]))
  = Fixtures.cluster Fixtures.defaultOnly [Fixtures.catchAll]
  /\ (snd (Reconcile Fixtures.strict Fixtures.req
             (Fixtures.cluster Fixtures.defaultOnly [Fixtures.catchAll])) = Ok tt
      \/ exists ingress backend,
           c_Ingresses (Fixtures.cluster Fixtures.defaultOnly [Fixtures.catchAll])
             !! Fixtures.req = Some ingress
           /\ ispec_DefaultBackend (ing_Spec ingress) = Some backend
           /\ missingNamedPort (fst Fixtures.req) backend
                (Fixtures.cluster Fixtures.defaultOnly [Fixtures.catchAll])).
Proof.
  apply (Reconcile_no_write Fixtures.strict Fixtures.req
           (Fixtures.cluster Fixtures.defaultOnly [Fixtures.catchAll])).
  right. right. exists Fixtures.defaultOnly.
  split; [vm_compute; reflexivity|]. split; [reflexivity|]. left. reflexivity.
Defined.

(** X17: for an ingress without rules whose default backend resolves, when
    hostnames are not required, some accessible listener is a catch-all and
    no route has the name of the ingress yet, the pass creates exactly one
    route.  It has the name of the ingress, the owner reference of the
    ingress, no hostname, the parent references of the catch-all listeners
    and one rule, without a match, on the default backend. *)
Theorem Reconcile_default_backend :
  forall (r : IngressReconciler) (req : NamespacedName) (c : Cluster) (ingress : Ingress)
         (backend : IngressBackend) (backendRef : HTTPBackendRef),
    c_Ingresses c !! req = Some ingress ->
    c_Gateways c <> [] ->
    ispec_Rules (ing_Spec ingress) = [] ->
    ispec_DefaultBackend (ing_Spec ingress) = Some backend ->
    mapBackendRef (fst req) backend c = (c, Ok backendRef) ->
    RequireHostname r = false ->
    findCatchAllGateways (fst req) (c_Gateways c) <> [] ->
    c_HTTPRoutes c !! req = None ->
    let route :=
      {| hr_Meta := {| om_Name := snd req; om_Namespace := fst req;
                       om_OwnerReferences := [createOwnerReference ingress] |};
         hr_Spec := {| rs_ParentRefs := findCatchAllGateways (fst req) (c_Gateways c);
                       rs_Hostnames := [];
                       rs_Rules := [ {| rr_Matches := []; rr_BackendRefs := [backendRef] |} ] |}
      |} in
    Reconcile r req c = (storeHTTPRoute req route (WCreate req route) c, Ok tt).
Proof.
  intros r req c ingress backend backendRef Hi Hg Hr Hb Hm Hq Hf Hn route.
  assert (Hd : mapDefaultBackend (fst req) ingress c = (c, Ok (Some backendRef))).
  { unfold mapDefaultBackend. rewrite Hb. unfold bind. rewrite Hm. reflexivity. }
  rewrite (Reconcile_no_hostnames r req c ingress _ Hi Hg Hd) by (rewrite Hr; reflexivity).
  rewrite Hq. cbn [negb]. unfold createDefaultBackendSpec.
  destruct (findCatchAllGateways (fst req) (c_Gateways c)) as [|p ps] eqn:Ef; [congruence|].
  cbn [length Nat.eqb].
  rewrite (reconcileHTTPRoute_create c req (createOwnerReference ingress) _ Hn).
  reflexivity.
Qed.

Lemma Reconcile_default_backend_witness :
  Reconcile Fixtures.reconciler Fixtures.req
    (Fixtures.cluster Fixtures.defaultOnly [Fixtures.catchAll])
  = (storeHTTPRoute Fixtures.req
       {| hr_Meta := {| om_Name := snd Fixtures.req; om_Namespace := fst Fixtures.req;
                        om_OwnerReferences := [createOwnerReference Fixtures.defaultOnly] |};
          hr_Spec :=
            {| rs_ParentRefs :=
                 findCatchAllGateways (fst Fixtures.req)
                   (c_Gateways (Fixtures.cluster Fixtures.defaultOnly [Fixtures.catchAll]));
               rs_Hostnames := [];
               rs_Rules :=
                 [ {| rr_Matches := [];
                      rr_BackendRefs :=
                        [ {| br_Ref := {| bor_Group := Some EmptyString;
                                          bor_Kind := Some "Service";
                                          bor_Name := "fallback";
                                          bor_Namespace := Some "demo";
                                          bor_Port := Some 80 |};
                             br_Weight := Some 1 |} ] |} ] |} |}
       (WCreate Fixtures.req
          {| hr_Meta := {| om_Name := snd Fixtures.req; om_Namespace := fst Fixtures.req;
                           om_OwnerReferences := [createOwnerReference Fixtures.defaultOnly] |};
             hr_Spec :=
               {| rs_ParentRefs :=
                    findCatchAllGateways (fst Fixtures.req)
                      (c_Gateways (Fixtures.cluster Fixtures.defaultOnly [Fixtures.catchAll]));
                  rs_Hostnames := [];
                  rs_Rules :=
                    [ {| rr_Matches := [];
                         rr_BackendRefs :=
                           [ {| br_Ref := {| bor_Group := Some EmptyString;
                                             bor_Kind := Some "Service";
                                             bor_Name := "fallback";
                                             bor_Namespace := Some "demo";
                                             bor_Port := Some 80 |};
                                br_Weight := Some 1 |} ] |} ] |} |})
       (Fixtures.cluster Fixtures.defaultOnly [Fixtures.catchAll]),
     Ok tt).
Proof.
  apply (Reconcile_default_backend Fixtures.reconciler Fixtures.req
           (Fixtures.cluster Fixtures.defaultOnly [Fixtures.catchAll])
           Fixtures.defaultOnly (Fixtures.byNumber "fallback" 80)).
  - vm_compute. reflexivity.
  - discriminate.
  - reflexivity.
  - reflexivity.
  - reflexivity.
  - reflexivity.
  - vm_compute. discriminate.
  - vm_compute. reflexivity.
Defined.

Lemma plannedRoute_services req ingress gateways dflt c c' hostname :
  c_Services c' = c_Services c ->
  plannedRoute req ingress gateways dflt c' hostname
  = plannedRoute req ingress gateways dflt c hostname.
Proof.
  intros Hs. unfold plannedRoute.
  rewrite (servicesOnly_createHTTPRouteRules (fst req)
             (matchingRulesFor hostname (ispec_Rules (ing_Spec ingress))) dflt c' c Hs).
  reflexivity.
Qed.

Lemma reconcileHostname_fresh req ingress gateways dflt hostname c c1 :
  reconcileHostname req ingress gateways (createOwnerReference ingress) dflt hostname c
  = (c1, Ok tt) ->
  c_HTTPRoutes c !! routeKey req hostname = None ->
  c_HTTPRoutes c1 !! routeKey req hostname
  = plannedRoute req ingress gateways dflt c hostname.
Proof.
  rewrite reconcileHostname_eq. unfold plannedRoute. intros H Hn.
  destruct (snd (createHTTPRouteRules (fst req)
                   (matchingRulesFor hostname (ispec_Rules (ing_Spec ingress))) dflt c))
    as [rules|e]; [|discriminate].
  destruct (length rules =? 0)%nat; [inversion H; subst; exact Hn|].
  destruct (length (findMatchingGateways (fst req) hostname gateways) =? 0)%nat;
    [inversion H; subst; exact Hn|].
  rewrite (reconcileHTTPRoute_create c (routeKey req hostname) _ _ Hn) in H.
  simpl in H. inversion H. simpl. apply lookup_insert_eq.
Qed.

Lemma routeKey_neq req (h h' : string) :
  generateHTTPRouteName (snd req) h <> generateHTTPRouteName (snd req) h' ->
  routeKey req h <> routeKey req h'.
Proof. intros H E. apply H. unfold routeKey in E. inversion E. reflexivity. Qed.

Lemma reconcileHostnames_fresh req ingress gateways dflt hostnames :
  forall c c1,
    reconcileHostnames req ingress gateways (createOwnerReference ingress) dflt hostnames c
    = (c1, Ok tt) ->
    List.NoDup (List.map (generateHTTPRouteName (snd req)) hostnames) ->
    (forall h, In h hostnames -> c_HTTPRoutes c !! routeKey req h = None) ->
    forall h, In h hostnames ->
              c_HTTPRoutes c1 !! routeKey req h
              = plannedRoute req ingress gateways dflt c h.
Proof.
  induction hostnames as [|h hs IH]; intros c c1 H Hn Habs h' Hin; [destruct Hin|].
  simpl in H. unfold bind in H.
  destruct (reconcileHostname req ingress gateways (createOwnerReference ingress) dflt h c)
    as [c2 [[]|e]] eqn:E; [|discriminate].
  simpl in Hn. inversion Hn as [|x l Hx Hn']; subst.
  assert (Hd : forall k, In k hs -> routeKey req h <> routeKey req k).
  { intros k Hk. apply routeKey_neq. intros Heq. apply Hx. rewrite Heq.
    apply in_map. exact Hk. }
  pose proof (reconcileHostname_frame req ingress gateways (createOwnerReference ingress)
                dflt h c) as [[_ [_ Fs]] Ff].
  rewrite E in Fs, Ff. simpl in Fs, Ff.
  destruct Hin as [<-|Hin].
  - pose proof (reconcileHostnames_frame req ingress gateways (createOwnerReference ingress)
                  dflt hs c2) as [_ G].
    rewrite H in G. simpl in G. rewrite (G _ Hd).
    apply (reconcileHostname_fresh _ _ _ _ _ _ _ E). apply Habs. left. reflexivity.
  - rewrite <- (plannedRoute_services req ingress gateways dflt c c2 h' Fs).
    apply (IH c2 c1 H Hn'); [|exact Hin].
    intros k Hk. rewrite Ff by (intros Heq; apply (Hd k Hk); symmetry; exact Heq).
    apply Habs. right. exact Hk.
Qed.

(** X21: one route per hostname.  When the hostnames of the ingress get
    pairwise different route names, none of these names is taken yet and the
    pass ends without an error, then for every hostname the store holds
    under its route name exactly the route planned for it: owned by the
    ingress, with that hostname alone, the parent references of the
    listeners that take it and the translated rules of that host; a
    hostname without rules or without a listener has no route. *)
Theorem Reconcile_one_route_per_hostname :
  forall (r : IngressReconciler) (req : NamespacedName) (c c1 : Cluster) (ingress : Ingress)
         (dflt : option HTTPBackendRef),
    c_Ingresses c !! req = Some ingress ->
    c_Gateways c <> [] ->
    mapDefaultBackend (fst req) ingress c = (c, Ok dflt) ->
    List.NoDup (List.map (generateHTTPRouteName (snd req))
                  (extractHostnames (ispec_Rules (ing_Spec ingress)))) ->
    (forall h, In h (extractHostnames (ispec_Rules (ing_Spec ingress))) ->
               c_HTTPRoutes c !! routeKey req h = None) ->
    Reconcile r req c = (c1, Ok tt) ->
    forall h,
      In h (extractHostnames (ispec_Rules (ing_Spec ingress))) ->
      c_HTTPRoutes c1 !! routeKey req h
      = plannedRoute req ingress (c_Gateways c) dflt c h
      /\ (forall route,
             plannedRoute req ingress (c_Gateways c) dflt c h = Some route ->
             rs_Hostnames (hr_Spec route) = [h]
             /\ om_OwnerReferences (hr_Meta route) = [createOwnerReference ingress]
             /\ rs_Rules (hr_Spec route) <> []
             /\ rs_ParentRefs (hr_Spec route) <> []).
Proof.
  intros r req c c1 ingress dflt Hi Hg Hd Hn Habs H h Hin.
  assert (Hne : extractHostnames (ispec_Rules (ing_Spec ingress)) <> []).
  { intros E. rewrite E in Hin. destruct Hin. }
  rewrite (Reconcile_hostnames r req c ingress dflt Hi Hg Hd Hne) in H.
  split.
  - eapply reconcileHostnames_fresh; eassumption.
  - unfold plannedRoute. intros route.
    destruct (snd (createHTTPRouteRules (fst req)
                     (matchingRulesFor h (ispec_Rules (ing_Spec ingress))) dflt c))
      as [rules|e]; [|discriminate].
    destruct rules as [|rule rules]; [discriminate|]. cbn [length Nat.eqb].
    destruct (findMatchingGateways (fst req) h (c_Gateways c)) as [|p ps]; [discriminate|].
    cbn [length Nat.eqb]. intros E. inversion E. simpl.
    split; [reflexivity|]. split; [reflexivity|]. split; discriminate.
Qed.

Lemma Reconcile_one_route_per_hostname_witness :
  c_HTTPRoutes (fst (Reconcile Fixtures.reconciler Fixtures.req
                       (Fixtures.cluster Fixtures.twoHosts [Fixtures.catchAll])))
    !! routeKey Fixtures.req "b.example.com"
  = plannedRoute Fixtures.req Fixtures.twoHosts
      (c_Gateways (Fixtures.cluster Fixtures.twoHosts [Fixtures.catchAll])) None
      (Fixtures.cluster Fixtures.twoHosts [Fixtures.catchAll]) "b.example.com"
  /\ (forall route,
         plannedRoute Fixtures.req Fixtures.twoHosts
           (c_Gateways (Fixtures.cluster Fixtures.twoHosts [Fixtures.catchAll])) None
           (Fixtures.cluster Fixtures.twoHosts [Fixtures.catchAll]) "b.example.com"
         = Some route ->
         rs_Hostnames (hr_Spec route) = ["b.example.com"]
         /\ om_OwnerReferences (hr_Meta route) = [createOwnerReference Fixtures.twoHosts]
         /\ rs_Rules (hr_Spec route) <> []
         /\ rs_ParentRefs (hr_Spec route) <> []).
Proof.
  apply (Reconcile_one_route_per_hostname Fixtures.reconciler Fixtures.req
           (Fixtures.cluster Fixtures.twoHosts [Fixtures.catchAll])
           (fst (Reconcile Fixtures.reconciler Fixtures.req
                   (Fixtures.cluster Fixtures.twoHosts [Fixtures.catchAll])))
           Fixtures.twoHosts None).
  - vm_compute. reflexivity.
  - discriminate.
  - reflexivity.
  - vm_compute. repeat constructor; simpl; intuition discriminate.
  - intros h Hh. vm_compute in Hh. destruct Hh as [<-|[<-|[]]]; vm_compute; reflexivity.
  - vm_compute. reflexivity.
  - vm_compute. right. left. reflexivity.
Defined.

(* ===================================================================== *)
(** ** The revision that groups by hostname, and the client helpers *)
(* ===================================================================== *)

(** *** Comparing parent references *)

Lemma lexCompare_antisym (x y : list string) : lexCompare x y = - lexCompare y x.
Proof.
  revert y. induction x as [|a x IH]; intros [|b y]; simpl; try reflexivity.
  rewrite (Compare_antisym a b).
  destruct (GoStrings.Compare b a =? 0) eqn:E.
  - apply Z.eqb_eq in E. rewrite E. simpl. apply IH.
  - apply Z.eqb_neq in E.
    replace (- GoStrings.Compare b a =? 0) with false; [reflexivity|].
    symmetry. apply Z.eqb_neq. lia.
Qed.

Lemma lexCompare_eq (x y : list string) :
  length x = length y -> (lexCompare x y = 0 <-> x = y).
Proof.
  revert y. induction x as [|a x IH]; intros [|b y] Hlen; simpl in *; try discriminate.
  - split; reflexivity.
  - injection Hlen as Hlen.
    destruct (GoStrings.Compare a b =? 0) eqn:E; simpl.
    + apply Z.eqb_eq, Compare_eq in E. subst b. rewrite (IH y Hlen).
      split; [intros ->; reflexivity | intros H; injection H; auto].
    + apply Z.eqb_neq in E. split; [intros H; contradiction|].
      intros H. injection H as -> _. exfalso. apply E. apply Compare_eq. reflexivity.
Qed.

Lemma lexCompare_trans (x y z : list string) :
  length x = length y -> length y = length z ->
  lexCompare x y <= 0 -> lexCompare y z <= 0 -> lexCompare x z <= 0.
Proof.
  revert y z. induction x as [|a x IH]; intros [|b y] [|c z] H1 H2; simpl in *;
    try discriminate; try lia.
  injection H1 as H1. injection H2 as H2.
  destruct (GoStrings.Compare a b =? 0) eqn:Eab; simpl.
  - apply Z.eqb_eq, Compare_eq in Eab. subst b.
    destruct (GoStrings.Compare a c =? 0) eqn:Eac; simpl; [|auto].
    apply IH; assumption.
  - apply Z.eqb_neq in Eab. intros Hab.
    destruct (GoStrings.Compare b c =? 0) eqn:Ebc; simpl.
    + apply Z.eqb_eq, Compare_eq in Ebc. subst c. intros _.
      replace (GoStrings.Compare a b =? 0) with false by (symmetry; apply Z.eqb_neq; exact Eab).
      simpl. exact Hab.
    + apply Z.eqb_neq in Ebc. intros Hbc.
      assert (Hlt : GoStrings.Compare a c < 0)
        by (apply (Compare_lt_trans a b c); lia).
      replace (GoStrings.Compare a c =? 0) with false by (symmetry; apply Z.eqb_neq; lia).
      simpl. lia.
Qed.

Lemma compareParentRef_fields (a b : ParentReference) :
  Grouped.compareParentRef a b = lexCompare (refFields a) (refFields b).
Proof.
  unfold Grouped.compareParentRef, refFields. cbv zeta. simpl.
  repeat (match goal with |- context [negb (?c =? 0)] => destruct (c =? 0) eqn:?; simpl end;
          try reflexivity).
  apply Z.eqb_eq. assumption.
Qed.

Lemma compareParentRef_antisym (a b : ParentReference) :
  Grouped.compareParentRef a b = - Grouped.compareParentRef b a.
Proof. rewrite !compareParentRef_fields. apply lexCompare_antisym. Qed.

Lemma refLe_total (a b : ParentReference) :
  ~ Grouped.compareParentRef a b < 0 -> Grouped.compareParentRef b a <= 0.
Proof. rewrite (compareParentRef_antisym b a). lia. Qed.

Lemma refLe_trans (a b c : ParentReference) : refLe a b -> refLe b c -> refLe a c.
Proof.
  unfold refLe. rewrite !compareParentRef_fields. apply lexCompare_trans; reflexivity.
Qed.

Lemma compareParentRef_zero (a b : ParentReference) :
  Grouped.compareParentRef a b = 0 <-> refFields a = refFields b.
Proof. rewrite compareParentRef_fields. apply lexCompare_eq. reflexivity. Qed.

Lemma refFields_createParentRef (g g' : Gateway) (l l' : Listener) :
  refFields (createParentRef g l) = refFields (createParentRef g' l') ->
  createParentRef g l = createParentRef g' l'.
Proof.
  unfold refFields, createParentRef. simpl. intros H. injection H as -> -> -> -> ->.
  reflexivity.
Qed.

Section SortedUnique.
Context {A : Type} (cmp : A -> A -> Z) (dom : A -> Prop).
Hypothesis cmp_antisym : forall a b, cmp a b = - cmp b a.
Hypothesis cmp_zero : forall a b, dom a -> dom b -> cmp a b = 0 -> a = b.

Lemma StronglySorted_head_le (a : A) (l : list A) (x : A) :
  StronglySorted (fun a b => cmp a b <= 0) (a :: l) -> In x (a :: l) -> cmp a x <= 0.
Proof.
  intros Hs [<-|Hx].
  - pose proof (cmp_antisym a a). lia.
  - apply StronglySorted_inv in Hs as [_ Hall].
    rewrite List.Forall_forall in Hall. apply Hall. exact Hx.
Qed.

Lemma StronglySorted_unique (l1 l2 : list A) :
  StronglySorted (fun a b => cmp a b <= 0) l1 ->
  StronglySorted (fun a b => cmp a b <= 0) l2 ->
  Permutation l1 l2 -> List.Forall dom l1 -> l1 = l2.
Proof.
  revert l2. induction l1 as [|a l1 IH]; intros l2 H1 H2 Hp Hd.
  - apply Permutation_nil in Hp. subst. reflexivity.
  - destruct l2 as [|b l2]; [apply Permutation_sym, Permutation_nil in Hp; discriminate|].
    assert (Hab : cmp a b <= 0).
    { apply (StronglySorted_head_le a l1 b H1).
      apply (Permutation_in b (Permutation_sym Hp)). left. reflexivity. }
    assert (Hba : cmp b a <= 0).
    { apply (StronglySorted_head_le b l2 a H2).
      apply (Permutation_in a Hp). left. reflexivity. }
    assert (E : a = b).
    { apply cmp_zero.
      - apply (List.Forall_inv Hd).
      - rewrite List.Forall_forall in Hd. apply Hd.
        apply (Permutation_in b (Permutation_sym Hp)). left. reflexivity.
      - pose proof (cmp_antisym a b). lia. }
    subst b. f_equal. apply IH.
    + apply StronglySorted_inv in H1 as [H1 _]. exact H1.
    + apply StronglySorted_inv in H2 as [H2 _]. exact H2.
    + apply (Permutation_cons_inv Hp).
    + apply (List.Forall_inv_tail Hd).
Qed.
End SortedUnique.

(** *** Gateways grouped by hostname *)

Lemma refsUnder_Permutation {V} (keep : string -> bool) (e1 e2 : list (string * list V)) :
  Permutation e1 e2 -> Permutation (refsUnder keep e1) (refsUnder keep e2).
Proof. apply Permutation_flat_map. Qed.

Lemma refsUnder_append {V} (keep : string -> bool) (m : gmap string (list V))
    (k : string) (x : V) :
  Permutation
    (refsUnder keep (map_to_list (<[k := default [] (m !! k) ++ [x]]> m)))
    (refsUnder keep (map_to_list m) ++ (if keep k then [x] else [])).
Proof.
  destruct (m !! k) as [old|] eqn:E; simpl.
  - rewrite <- (insert_delete_eq m k).
    rewrite (refsUnder_Permutation keep _ _
               (map_to_list_insert (delete k m) k (old ++ [x]) (lookup_delete_eq m k))).
    rewrite <- (refsUnder_Permutation keep _ _ (map_to_list_delete m k old E)).
    unfold refsUnder. simpl. destruct (keep k).
    + rewrite <- !app_assoc. apply Permutation_app_head. apply Permutation_app_comm.
    + rewrite app_nil_r. reflexivity.
  - rewrite (refsUnder_Permutation keep _ _ (map_to_list_insert m k [x] E)).
    unfold refsUnder. simpl. destruct (keep k).
    + apply Permutation_cons_append.
    + rewrite app_nil_r. reflexivity.
Qed.

Lemma groupGateways_listeners (keep : string -> bool) (ns : string) (g : Gateway)
    (ls : list Listener) :
  forall m,
    Permutation
      (refsUnder keep (map_to_list (foldl (Grouped.groupGateways_step ns g) m ls)))
      (refsUnder keep (map_to_list m)
       ++ List.map (createParentRef g)
            (List.filter
               (fun l => isListenerAccessibleFromNamespace l (gw_Namespace g) ns
                         && keep (Grouped.listenerKey l)) ls)).
Proof.
  induction ls as [|l ls IH]; intros m; simpl.
  - rewrite app_nil_r. reflexivity.
  - rewrite IH. unfold Grouped.groupGateways_step at 1.
    destruct (isListenerAccessibleFromNamespace l (gw_Namespace g) ns); simpl.
    + rewrite refsUnder_append. rewrite <- app_assoc. apply Permutation_app_head.
      destruct (keep (Grouped.listenerKey l)); reflexivity.
    + reflexivity.
Qed.

Lemma groupGateways_gateways (keep : string -> bool) (ns : string) (gs : list Gateway) :
  forall m,
    Permutation
      (refsUnder keep
         (map_to_list
            (foldl (fun result gateway =>
                      foldl (Grouped.groupGateways_step ns gateway) result
                        (gw_Listeners gateway)) m gs)))
      (refsUnder keep (map_to_list m)
       ++ flat_map
            (fun g =>
               List.map (createParentRef g)
                 (List.filter
                    (fun l => isListenerAccessibleFromNamespace l (gw_Namespace g) ns
                              && keep (Grouped.listenerKey l)) (gw_Listeners g))) gs).
Proof.
  induction gs as [|g gs IH]; intros m; simpl.
  - rewrite app_nil_r. reflexivity.
  - rewrite IH, groupGateways_listeners, <- app_assoc. reflexivity.
Qed.

Lemma collectMatching_from (host : string) (visited : list (string * list ParentReference)) :
  forall acc,
    foldl
      (fun result entry =>
         let '(hostname, references) := entry in
         if String.eqb hostname EmptyString || Grouped.hostnameMatches host hostname
         then result ++ references
         else result) acc visited
    = acc ++ refsUnder
               (fun k => String.eqb k EmptyString || Grouped.hostnameMatches host k) visited.
Proof.
  induction visited as [|[k refs] visited IH]; intros acc; simpl.
  - rewrite app_nil_r. reflexivity.
  - rewrite IH.
    destruct (String.eqb k EmptyString || Grouped.hostnameMatches host k); simpl.
    + rewrite <- app_assoc. reflexivity.
    + reflexivity.
Qed.

Lemma collectMatching_taken (ns host : string) (gateways : list Gateway)
    (visited : list (string * list ParentReference)) :
  visits (Grouped.groupGatewaysByHostNameAndMapToParentRefs ns gateways) visited ->
  Permutation (Grouped.collectMatching host visited) (takenRefs ns host gateways).
Proof.
  unfold visits, Grouped.collectMatching. intros Hv.
  rewrite collectMatching_from. simpl.
  rewrite (refsUnder_Permutation _ _ _ Hv).
  unfold Grouped.groupGatewaysByHostNameAndMapToParentRefs.
  rewrite groupGateways_gateways. rewrite map_to_list_empty. reflexivity.
Qed.

Lemma In_takenRefs (ns host : string) (gateways : list Gateway) (p : ParentReference) :
  In p (takenRefs ns host gateways)
  <-> exists gateway listener,
        In gateway gateways /\ In listener (gw_Listeners gateway)
        /\ takes ns host gateway listener = true
        /\ p = createParentRef gateway listener.
Proof.
  unfold takenRefs. rewrite in_flat_map. split.
  - intros (g & Hg & Hp). apply List.in_map_iff in Hp as (l & <- & Hl).
    apply List.filter_In in Hl as [Hl Ht]. exists g, l. auto.
  - intros (g & l & Hg & Hl & Ht & ->). exists g. split; [exact Hg|].
    apply List.in_map. apply List.filter_In. auto.
Qed.

Lemma takenRefs_created (ns host : string) (gateways : list Gateway) :
  List.Forall (fun p => exists g l, p = createParentRef g l) (takenRefs ns host gateways).
Proof.
  apply List.Forall_forall. intros p Hp. apply In_takenRefs in Hp as (g & l & _ & _ & _ & ->).
  exists g, l. reflexivity.
Qed.

Lemma findMatchingGateways_sorted_taken (ns host : string) (gateways : list Gateway)
    (visited : list (string * list ParentReference)) :
  visits (Grouped.groupGatewaysByHostNameAndMapToParentRefs ns gateways) visited ->
  Permutation (takenRefs ns host gateways) (Grouped.findMatchingGateways host visited)
  /\ StronglySorted refLe (Grouped.findMatchingGateways host visited).
Proof.
  intros Hv. unfold Grouped.findMatchingGateways. split.
  - rewrite <- (collectMatching_taken ns host gateways visited Hv).
    apply (SortStableFunc_Permutation Grouped.compareParentRef refLe_total refLe_trans).
  - apply (SortStableFunc_StronglySorted Grouped.compareParentRef refLe_total refLe_trans).
Qed.

(** X22: [compareParentRef] compares the five strings of a reference
    column by column, a nil pointer counting as the empty string.  It is
    antisymmetric, its order is transitive, and it returns 0 exactly when
    the five strings agree; on references made by [createParentRef] that is
    equality, while a reference with a nil pointer and one with a pointer to
    the empty string compare as equal without being equal. *)
Theorem compareParentRef_order :
  (forall a b, Grouped.compareParentRef a b = lexCompare (refFields a) (refFields b))
  /\ (forall a b, Grouped.compareParentRef a b = - Grouped.compareParentRef b a)
  /\ (forall a b c, refLe a b -> refLe b c -> refLe a c)
  /\ (forall a b, Grouped.compareParentRef a b = 0 <-> refFields a = refFields b)
  /\ (forall g l g' l',
         Grouped.compareParentRef (createParentRef g l) (createParentRef g' l') = 0
         <-> createParentRef g l = createParentRef g' l')
  /\ (exists a b, a <> b /\ Grouped.compareParentRef a b = 0).
Proof.
  split; [exact compareParentRef_fields|].
  split; [exact compareParentRef_antisym|].
  split; [exact refLe_trans|].
  split; [exact compareParentRef_zero|].
  split.
  - intros g l g' l'. rewrite compareParentRef_zero. split.
    + apply refFields_createParentRef.
    + intros ->. reflexivity.
  - exists {| pr_Group := None; pr_Kind := None; pr_Namespace := None;
              pr_Name := "gw"; pr_SectionName := None |},
           {| pr_Group := Some EmptyString; pr_Kind := None; pr_Namespace := None;
              pr_Name := "gw"; pr_SectionName := None |}.
    split; [discriminate | reflexivity].
Qed.

Lemma findMatchingGateways_closed (ns host : string) (gateways : list Gateway)
    (visited : list (string * list ParentReference)) :
  visits (Grouped.groupGatewaysByHostNameAndMapToParentRefs ns gateways) visited ->
  Grouped.findMatchingGateways host visited
  = GoSlices.SortStableFunc Grouped.compareParentRef (takenRefs ns host gateways).
Proof.
  intros Hv.
  destruct (findMatchingGateways_sorted_taken ns host gateways visited Hv) as [Hp Hs].
  apply (StronglySorted_unique Grouped.compareParentRef
           (fun p => exists g l, p = createParentRef g l)).
  - exact compareParentRef_antisym.
  - intros a b (g & l & ->) (g' & l' & ->) E.
    apply refFields_createParentRef. apply compareParentRef_zero. exact E.
  - exact Hs.
  - apply (SortStableFunc_StronglySorted Grouped.compareParentRef refLe_total refLe_trans).
  - rewrite <- Hp.
    apply (SortStableFunc_Permutation Grouped.compareParentRef refLe_total refLe_trans).
  - apply (Permutation_Forall Hp). apply takenRefs_created.
Qed.

(** X23: on the map built by [groupGatewaysByHostNameAndMapToParentRefs],
    whatever the order in which its entries are visited,
    [findMatchingGateways] of the grouped revision returns one reference per
    listener that is accessible from the namespace and has no hostname, the
    empty hostname or a matching one: repeats are kept, the references are
    sorted by [compareParentRef], and the result is empty exactly when no
    listener qualifies. *)
Theorem findMatchingGateways_grouped_spec (ns host : string) (gateways : list Gateway)
    (visited : list (string * list ParentReference)) :
  visits (Grouped.groupGatewaysByHostNameAndMapToParentRefs ns gateways) visited ->
  Permutation (takenRefs ns host gateways) (Grouped.findMatchingGateways host visited)
  /\ StronglySorted refLe (Grouped.findMatchingGateways host visited)
  /\ (forall p,
         In p (Grouped.findMatchingGateways host visited)
         <-> exists gateway listener,
               In gateway gateways /\ In listener (gw_Listeners gateway)
               /\ takes ns host gateway listener = true
               /\ p = createParentRef gateway listener)
  /\ (Grouped.findMatchingGateways host visited = []
      <-> forall gateway listener,
            In gateway gateways -> In listener (gw_Listeners gateway) ->
            takes ns host gateway listener = false).
Proof.
  intros Hv.
  destruct (findMatchingGateways_sorted_taken ns host gateways visited Hv) as [Hp Hs].
  split; [exact Hp|]. split; [exact Hs|]. split.
  - intros p. rewrite <- In_takenRefs. split; intros H.
    + apply (Permutation_in p (Permutation_sym Hp) H).
    + apply (Permutation_in p Hp H).
  - split.
    + intros E g l Hg Hl. destruct (takes ns host g l) eqn:Ht; [|reflexivity].
      assert (Hin : In (createParentRef g l) (takenRefs ns host gateways))
        by (apply In_takenRefs; exists g, l; auto).
      apply (Permutation_in _ Hp) in Hin. rewrite E in Hin. destruct Hin.
    + intros Hnone.
      destruct (Grouped.findMatchingGateways host visited) as [|p rest] eqn:E; [reflexivity|].
      assert (Hin : In p (takenRefs ns host gateways)).
      { apply (Permutation_in p (Permutation_sym Hp)). left. reflexivity. }
      apply In_takenRefs in Hin as (g & l & Hg & Hl & Ht & _).
      rewrite (Hnone g l Hg Hl) in Ht. discriminate Ht.
Qed.

Lemma findMatchingGateways_grouped_spec_witness :
  Permutation (takenRefs "demo" "a.example.com" Fixtures.mixed)
    (Grouped.findMatchingGateways "a.example.com"
       (map_to_list (Grouped.groupGatewaysByHostNameAndMapToParentRefs "demo" Fixtures.mixed)))
  /\ StronglySorted refLe
       (Grouped.findMatchingGateways "a.example.com"
          (map_to_list (Grouped.groupGatewaysByHostNameAndMapToParentRefs "demo" Fixtures.mixed)))
  /\ (forall p,
         In p (Grouped.findMatchingGateways "a.example.com"
                 (map_to_list
                    (Grouped.groupGatewaysByHostNameAndMapToParentRefs "demo" Fixtures.mixed)))
         <-> exists gateway listener,
               In gateway Fixtures.mixed /\ In listener (gw_Listeners gateway)
               /\ takes "demo" "a.example.com" gateway listener = true
               /\ p = createParentRef gateway listener)
  /\ (Grouped.findMatchingGateways "a.example.com"
        (map_to_list (Grouped.groupGatewaysByHostNameAndMapToParentRefs "demo" Fixtures.mixed))
      = []
      <-> forall gateway listener,
            In gateway Fixtures.mixed -> In listener (gw_Listeners gateway) ->
            takes "demo" "a.example.com" gateway listener = false).
Proof.
  apply (findMatchingGateways_grouped_spec "demo" "a.example.com" Fixtures.mixed).
  unfold visits. reflexivity.
Defined.

Example findMatchingGateways_grouped_mixed :
  List.map (fun p => (pr_Name p, default EmptyString (pr_SectionName p)))
    (Grouped.findMatchingGateways "a.example.com"
       (map_to_list (Grouped.groupGatewaysByHostNameAndMapToParentRefs "demo" Fixtures.mixed)))
  = [("gw-b", "any"); ("gw-b", "wild"); ("gw-a", "exact")].
Proof. vm_compute. reflexivity. Qed.

(** X24: the result of [findMatchingGateways] of the grouped revision does
    not depend on the order in which Go visits the entries of the map: two
    runs over the map of the same gateways return the same slice. *)
Theorem findMatchingGateways_any_order (ns host : string) (gateways : list Gateway)
    (visited visited' : list (string * list ParentReference)) :
  visits (Grouped.groupGatewaysByHostNameAndMapToParentRefs ns gateways) visited ->
  visits (Grouped.groupGatewaysByHostNameAndMapToParentRefs ns gateways) visited' ->
  Grouped.findMatchingGateways host visited = Grouped.findMatchingGateways host visited'.
Proof.
  intros Hv Hv'.
  rewrite (findMatchingGateways_closed ns host gateways visited Hv).
  rewrite (findMatchingGateways_closed ns host gateways visited' Hv').
  reflexivity.
Qed.

Lemma findMatchingGateways_any_order_witness :
  Grouped.findMatchingGateways "a.example.com"
    (map_to_list (Grouped.groupGatewaysByHostNameAndMapToParentRefs "demo" Fixtures.mixed))
  = Grouped.findMatchingGateways "a.example.com"
      (rev (map_to_list
              (Grouped.groupGatewaysByHostNameAndMapToParentRefs "demo" Fixtures.mixed))).
Proof.
  apply (findMatchingGateways_any_order "demo" "a.example.com" Fixtures.mixed).
  - unfold visits. reflexivity.
  - unfold visits. symmetry. apply Permutation_rev.
Defined.

(** Before the sort the two orders of visit give different slices. *)
Example collectMatching_order_matters :
  Grouped.collectMatching "a.example.com"
    (map_to_list (Grouped.groupGatewaysByHostNameAndMapToParentRefs "demo" Fixtures.mixed))
  <> Grouped.collectMatching "a.example.com"
       (rev (map_to_list
               (Grouped.groupGatewaysByHostNameAndMapToParentRefs "demo" Fixtures.mixed))).
Proof. vm_compute. discriminate. Qed.

Lemma admits_takes (ns host : string) (g : Gateway) (l : Listener) :
  admits ns host g l = true -> takes ns host g l = true.
Proof.
  unfold admits, takes, Grouped.listenerKey.
  destruct (isListenerAccessibleFromNamespace l (gw_Namespace g) ns); simpl; [|auto].
  destruct (l_Hostname l) as [h|]; [|reflexivity].
  rewrite hostnameMatches_revisions. intros ->. apply orb_true_r.
Qed.

Lemma takes_admits (ns host : string) (g : Gateway) (l : Listener) :
  l_Hostname l <> Some EmptyString ->
  takes ns host g l = true -> admits ns host g l = true.
Proof.
  unfold admits, takes, Grouped.listenerKey. intros Hne.
  destruct (isListenerAccessibleFromNamespace l (gw_Namespace g) ns); simpl; [|auto].
  destruct (l_Hostname l) as [h|]; [|reflexivity].
  rewrite hostnameMatches_revisions.
  destruct (String.eqb h EmptyString) eqn:E; simpl; [|auto].
  apply String.eqb_eq in E. subst h. contradiction.
Qed.

(** X25: the two revisions of [findMatchingGateways] against each other.
    Every reference the revision of the helper file selects is selected by
    the grouped revision; when no listener declares the empty hostname,
    every reference of the grouped revision is represented, by its key, in
    the result of the other.  A listener with the empty hostname is taken by
    the grouped revision for every hostname and by the other for the empty
    hostname only. *)
Theorem findMatchingGateways_revisions (ns host : string) (gateways : list Gateway)
    (visited : list (string * list ParentReference)) :
  visits (Grouped.groupGatewaysByHostNameAndMapToParentRefs ns gateways) visited ->
  (forall p,
      In p (findMatchingGateways ns host gateways) ->
      In p (Grouped.findMatchingGateways host visited))
  /\ ((forall gateway listener,
          In gateway gateways -> In listener (gw_Listeners gateway) ->
          l_Hostname listener <> Some EmptyString) ->
      forall p,
        In p (Grouped.findMatchingGateways host visited) ->
        In (parentRefKey p) (keysOf (findMatchingGateways ns host gateways))).
Proof.
  intros Hv.
  destruct (findMatchingGateways_sorted_taken ns host gateways visited Hv) as [Hp _].
  split.
  - intros p H. apply findMatchingGateways_sound in H as (g & l & Hg & Hl & Ha & ->).
    apply (Permutation_in _ Hp). apply In_takenRefs. exists g, l.
    split; [exact Hg|]. split; [exact Hl|]. split; [|reflexivity].
    apply admits_takes. exact Ha.
  - intros Hne p H. apply (Permutation_in _ (Permutation_sym Hp)) in H.
    apply In_takenRefs in H as (g & l & Hg & Hl & Ht & ->).
    apply (findMatchingGateways_complete ns host gateways g l Hg Hl).
    apply takes_admits; [apply (Hne g l Hg Hl) | exact Ht].
Qed.

Lemma findMatchingGateways_revisions_witness :
  (forall p,
      In p (findMatchingGateways "demo" "a.example.com" Fixtures.mixed) ->
      In p (Grouped.findMatchingGateways "a.example.com"
              (map_to_list
                 (Grouped.groupGatewaysByHostNameAndMapToParentRefs "demo" Fixtures.mixed))))
  /\ ((forall gateway listener,
          In gateway Fixtures.mixed -> In listener (gw_Listeners gateway) ->
          l_Hostname listener <> Some EmptyString) ->
      forall p,
        In p (Grouped.findMatchingGateways "a.example.com"
                (map_to_list
                   (Grouped.groupGatewaysByHostNameAndMapToParentRefs "demo" Fixtures.mixed))) ->
        In (parentRefKey p) (keysOf (findMatchingGateways "demo" "a.example.com" Fixtures.mixed))).
Proof.
  apply (findMatchingGateways_revisions "demo" "a.example.com" Fixtures.mixed).
  unfold visits. reflexivity.
Defined.

(** A listener with the empty hostname: taken by the grouped revision,
    not by the other. *)
Example findMatchingGateways_empty_hostname :
  findMatchingGateways "demo" "a.example.com" [Fixtures.emptyHostname] = []
  /\ Grouped.findMatchingGateways "a.example.com"
       (map_to_list
          (Grouped.groupGatewaysByHostNameAndMapToParentRefs "demo" [Fixtures.emptyHostname]))
     = [createParentRef Fixtures.emptyHostname (Fixtures.listener "http" (Some EmptyString) None)].
Proof. split; vm_compute; reflexivity. Qed.

(** *** Ties of the sort *)

Lemma filter_none_bool {A} (P : A -> bool) (l : list A) :
  (forall x, In x l -> P x = false) -> List.filter P l = [].
Proof.
  induction l as [|x l IH]; intros H; [reflexivity|].
  simpl. rewrite (H x (or_introl eq_refl)). apply IH.
  intros y Hy. apply H. right. exact Hy.
Qed.

Section SortStability.
Context {A : Type} (cmp : A -> A -> Z).
Hypothesis cmp_antisym : forall a b, cmp a b = - cmp b a.
Hypothesis cmp_trans : forall a b c, cmp a b <= 0 -> cmp b c <= 0 -> cmp a c <= 0.

Lemma cmp_antisym_total (a b : A) : ~ cmp a b < 0 -> cmp b a <= 0.
Proof. rewrite (cmp_antisym b a). lia. Qed.

Lemma cmp_refl (a : A) : cmp a a = 0.
Proof. pose proof (cmp_antisym a a). lia. Qed.

Lemma cmp_lt_le_trans (a b c : A) : cmp a b < 0 -> cmp b c <= 0 -> cmp a c < 0.
Proof.
  intros H1 H2.
  assert (H3 : cmp a c <= 0) by (apply (cmp_trans a b c); lia).
  destruct (Z.eq_dec (cmp a c) 0) as [E|E]; [|lia].
  assert (H4 : cmp c a <= 0) by (rewrite (cmp_antisym c a); lia).
  pose proof (cmp_trans b c a H2 H4) as H5. rewrite (cmp_antisym b a) in H5. lia.
Qed.

Lemma tied_not_below (a x z : A) : cmp a x = 0 -> cmp x z < 0 -> (cmp a z =? 0) = false.
Proof.
  intros H1 H2. apply Z.eqb_neq. intros H3.
  assert (H4 : cmp z a <= 0) by (rewrite (cmp_antisym z a); lia).
  assert (H5 : cmp a x <= 0) by lia.
  pose proof (cmp_trans z a x H4 H5) as H6. rewrite (cmp_antisym z x) in H6. lia.
Qed.

Lemma insert_tied (a x : A) (sorted : list A) :
  StronglySorted (fun a b => cmp a b <= 0) sorted ->
  List.filter (fun b => cmp a b =? 0) (GoSlices.insert cmp x sorted)
  = List.filter (fun b => cmp a b =? 0) sorted ++ List.filter (fun b => cmp a b =? 0) [x].
Proof.
  induction 1 as [|y rest Hs IH Hall]; [reflexivity|].
  cbn [GoSlices.insert]. destruct (cmp x y <? 0) eqn:E.
  - apply Z.ltb_lt in E. cbn [List.filter app].
    destruct (cmp a x =? 0) eqn:Ex; [|rewrite app_nil_r; reflexivity].
    apply Z.eqb_eq in Ex.
    assert (Hnone : List.filter (fun b => cmp a b =? 0) (y :: rest) = []).
    { apply filter_none_bool. intros z [<-|Hz].
      - apply (tied_not_below a x y Ex E).
      - apply (tied_not_below a x z Ex). apply (cmp_lt_le_trans x y z E).
        rewrite List.Forall_forall in Hall. apply Hall. exact Hz. }
    cbn [List.filter] in Hnone. rewrite Hnone. reflexivity.
  - cbn [List.filter]. rewrite IH. destruct (cmp a y =? 0); reflexivity.
Qed.

Lemma SortStableFunc_tied_from (a : A) (x : list A) :
  forall acc,
    StronglySorted (fun a b => cmp a b <= 0) acc ->
    List.filter (fun b => cmp a b =? 0)
      (foldl (fun sorted e => GoSlices.insert cmp e sorted) acc x)
    = List.filter (fun b => cmp a b =? 0) acc ++ List.filter (fun b => cmp a b =? 0) x.
Proof.
  induction x as [|e x IH]; intros acc Hs; simpl.
  - rewrite app_nil_r. reflexivity.
  - rewrite IH; [|apply (insert_StronglySorted cmp cmp_antisym_total cmp_trans); exact Hs].
    rewrite (insert_tied a e acc Hs). cbn [List.filter].
    rewrite <- app_assoc. destruct (cmp a e =? 0); reflexivity.
Qed.

(** Elements the comparison does not tell apart keep their order. *)
Lemma SortStableFunc_stable (a : A) (x : list A) :
  List.filter (fun b => cmp a b =? 0) (GoSlices.SortStableFunc cmp x)
  = List.filter (fun b => cmp a b =? 0) x.
Proof. apply (SortStableFunc_tied_from a x []). constructor. Qed.

Lemma tied_head_In (b : A) (l l' : list A) :
  List.filter (fun c => cmp b c =? 0) l' = List.filter (fun c => cmp b c =? 0) (b :: l) ->
  In b l'.
Proof.
  cbn [List.filter]. rewrite cmp_refl. cbn. intros H.
  assert (Hin : In b (List.filter (fun c => cmp b c =? 0) l')) by (rewrite H; left; reflexivity).
  apply List.filter_In in Hin as [Hin _]. exact Hin.
Qed.

(** A sorted list is determined by the order of its ties. *)
Lemma stable_sorted_unique (l1 : list A) :
  forall l2,
    StronglySorted (fun a b => cmp a b <= 0) l1 ->
    StronglySorted (fun a b => cmp a b <= 0) l2 ->
    (forall a, List.filter (fun b => cmp a b =? 0) l1 = List.filter (fun b => cmp a b =? 0) l2) ->
    l1 = l2.
Proof.
  induction l1 as [|a l1 IH]; intros l2 H1 H2 Ht.
  - destruct l2 as [|b l2]; [reflexivity|].
    specialize (Ht b). cbn [List.filter] in Ht. rewrite cmp_refl in Ht. discriminate Ht.
  - destruct l2 as [|b l2].
    { specialize (Ht a). cbn [List.filter] in Ht. rewrite cmp_refl in Ht. discriminate Ht. }
    assert (Hab : cmp a b <= 0).
    { apply (StronglySorted_head_le cmp cmp_antisym a l1 b H1). apply (tied_head_In b l2). apply Ht. }
    assert (Hba : cmp b a <= 0).
    { apply (StronglySorted_head_le cmp cmp_antisym b l2 a H2). apply (tied_head_In a l1). symmetry. apply Ht. }
    assert (E0 : cmp a b = 0) by (rewrite (cmp_antisym a b) in *; lia).
    assert (E : a = b).
    { specialize (Ht a). cbn [List.filter] in Ht. rewrite cmp_refl, E0 in Ht.
      cbn in Ht. injection Ht as Ht _. exact Ht. }
    subst b. f_equal. apply IH.
    + apply StronglySorted_inv in H1 as [H1 _]. exact H1.
    + apply StronglySorted_inv in H2 as [H2 _]. exact H2.
    + intros c. specialize (Ht c). cbn [List.filter] in Ht.
      destruct (cmp c a =? 0); [injection Ht as Ht|]; exact Ht.
Qed.
End SortStability.

Lemma tiedRules_iff (a b : HTTPRouteRule) :
  tiedRules a b = true
  <-> Grouped.rulePath a = Grouped.rulePath b /\ Grouped.ruleBackend a = Grouped.ruleBackend b.
Proof.
  unfold tiedRules, Grouped.compareHTTPRouteRule. cbv zeta. rewrite Z.eqb_eq.
  destruct (GoStrings.Compare (Grouped.rulePath a) (Grouped.rulePath b) =? 0) eqn:E; simpl.
  - apply Z.eqb_eq, Compare_eq in E. rewrite Compare_eq. tauto.
  - apply Z.eqb_neq in E. split; [intros H; contradiction|].
    intros [H _]. apply Compare_eq in H. contradiction.
Qed.

(** X26: the sort of [mapToHTTPRouteRules] is stable: rules with the same
    path value and the same first backend name stay in the order in which
    the ingress declares them.  Sortedness and the order of the ties
    determine the result: it is the only sorted list with these ties. *)
Theorem mapToHTTPRouteRules_stable (ns : string) (rules : list IngressRule)
    (c c1 : Cluster) (sorted : list HTTPRouteRule) :
  Grouped.mapToHTTPRouteRules ns rules c = (c1, Ok sorted) ->
  exists translated,
    Grouped.mapRules ns rules [] c = (c1, Ok translated)
    /\ (forall a, List.filter (tiedRules a) sorted = List.filter (tiedRules a) translated)
    /\ (forall a b,
           tiedRules a b = true
           <-> Grouped.rulePath a = Grouped.rulePath b
               /\ Grouped.ruleBackend a = Grouped.ruleBackend b)
    /\ (forall l,
           StronglySorted ruleLe l ->
           (forall a, List.filter (tiedRules a) l = List.filter (tiedRules a) translated) ->
           l = sorted).
Proof.
  intros Hs. unfold Grouped.mapToHTTPRouteRules, bind in Hs.
  destruct (Grouped.mapRules ns rules [] c) as [c' [translated|e]] eqn:E; [|discriminate].
  unfold ret in Hs. inversion Hs; subst. exists translated.
  split; [reflexivity|]. split; [|split; [exact tiedRules_iff|]].
  - intros a.
    apply (SortStableFunc_stable Grouped.compareHTTPRouteRule compareHTTPRouteRule_antisym
             ruleLe_trans).
  - intros l Hl Ht.
    apply (stable_sorted_unique Grouped.compareHTTPRouteRule compareHTTPRouteRule_antisym).
    + exact Hl.
    + apply (SortStableFunc_StronglySorted Grouped.compareHTTPRouteRule ruleLe_total ruleLe_trans).
    + intros a. transitivity (List.filter (tiedRules a) translated); [exact (Ht a)|].
      symmetry.
      apply (SortStableFunc_stable Grouped.compareHTTPRouteRule compareHTTPRouteRule_antisym
               ruleLe_trans).
Qed.

Lemma mapToHTTPRouteRules_stable_witness :
  exists translated,
    Grouped.mapRules "demo" (ispec_Rules (ing_Spec Fixtures.ties)) []
      (Fixtures.cluster Fixtures.ties [Fixtures.catchAll])
    = (Fixtures.cluster Fixtures.ties [Fixtures.catchAll], Ok translated)
    /\ (forall a,
           List.filter (tiedRules a) Fixtures.sortedTies = List.filter (tiedRules a) translated)
    /\ (forall a b,
           tiedRules a b = true
           <-> Grouped.rulePath a = Grouped.rulePath b
               /\ Grouped.ruleBackend a = Grouped.ruleBackend b)
    /\ (forall l,
           StronglySorted ruleLe l ->
           (forall a, List.filter (tiedRules a) l = List.filter (tiedRules a) translated) ->
           l = Fixtures.sortedTies).
Proof.
  apply (mapToHTTPRouteRules_stable "demo" (ispec_Rules (ing_Spec Fixtures.ties))
           (Fixtures.cluster Fixtures.ties [Fixtures.catchAll])
           (Fixtures.cluster Fixtures.ties [Fixtures.catchAll]) Fixtures.sortedTies).
  vm_compute. reflexivity.
Defined.

Example sortedTies_ports :
  List.map (fun r => (Grouped.rulePath r,
                      List.map (fun b => bor_Port (br_Ref b)) (rr_BackendRefs r)))
    Fixtures.sortedTies
  = [("/a", [Some 8080]); ("/a", [Some 80]); ("/b", [Some 80])].
Proof. reflexivity. Qed.

(** *** The two revisions of the rule translation *)

Lemma mapPaths_createRulesForPaths (ns : string) (paths : list HTTPIngressPath) :
  forall (acc : list HTTPRouteRule) (c : Cluster),
    Grouped.mapPaths ns paths (List.map withoutWeight acc) c
    = (fst (createRulesForPaths ns None paths acc c),
       match snd (createRulesForPaths ns None paths acc c) with
       | Ok plain => Ok (List.map withoutWeight plain)
       | Err e => Err e
       end).
Proof.
  induction paths as [|path rest IH]; intros acc c; [reflexivity|].
  cbn [Grouped.mapPaths createRulesForPaths].
  unfold Grouped.mapBackendRef, mapBackendRef, bind, ret.
  destruct (resolveObjectRef ns (hip_Backend path) c) as [c1 [o|e]]; [|reflexivity].
  rewrite <- IH. rewrite List.map_app. reflexivity.
Qed.

Lemma mapRules_createRulesLoop (ns : string) (rules : list IngressRule) :
  forall (acc : list HTTPRouteRule) (c : Cluster),
    Grouped.mapRules ns rules (List.map withoutWeight acc) c
    = (fst (createRulesLoop ns None rules acc c),
       match snd (createRulesLoop ns None rules acc c) with
       | Ok plain => Ok (List.map withoutWeight plain)
       | Err e => Err e
       end).
Proof.
  induction rules as [|rule rest IH]; intros acc c; [reflexivity|].
  cbn [Grouped.mapRules createRulesLoop].
  destruct (rule_HTTP rule) as [paths|]; [|apply IH].
  unfold bind. rewrite mapPaths_createRulesForPaths.
  destruct (createRulesForPaths ns None paths acc c) as [c1 [mid|e]]; [|reflexivity].
  cbn [fst snd]. apply IH.
Qed.

Lemma mapToHTTPRouteRules_eq (ns : string) (rules : list IngressRule) (c : Cluster) :
  Grouped.mapToHTTPRouteRules ns rules c
  = (c, match snd (createHTTPRouteRules ns rules None c) with
        | Ok plain =>
            Ok (GoSlices.SortStableFunc Grouped.compareHTTPRouteRule
                  (List.map withoutWeight plain))
        | Err e => Err e
        end).
Proof.
  unfold Grouped.mapToHTTPRouteRules, createHTTPRouteRules, bind, ret.
  change (Grouped.mapRules ns rules [] c)
    with (Grouped.mapRules ns rules (List.map withoutWeight []) c).
  rewrite (mapRules_createRulesLoop ns rules [] c).
  pose proof (readonly_createRulesLoop ns None rules [] c) as Hro.
  destruct (createRulesLoop ns None rules [] c) as [c1 [plain|e]];
    simpl in Hro; subst c1; reflexivity.
Qed.

(** X27: the two revisions of the rule translation.  On the same rules and
    cluster, [mapToHTTPRouteRules] fails exactly when [createHTTPRouteRules]
    without a default backend fails, with the same error; otherwise it
    returns the rules of [createHTTPRouteRules] with the weights left unset
    and sorted.  Neither changes the cluster, and the error for a path
    without a backend is never returned. *)
Theorem mapToHTTPRouteRules_revisions (ns : string) (rules : list IngressRule) (c : Cluster) :
  fst (Grouped.mapToHTTPRouteRules ns rules c) = c
  /\ snd (Grouped.mapToHTTPRouteRules ns rules c)
     = match snd (createHTTPRouteRules ns rules None c) with
       | Ok plain =>
           Ok (GoSlices.SortStableFunc Grouped.compareHTTPRouteRule
                 (List.map withoutWeight plain))
       | Err e => Err e
       end
  /\ (forall path, snd (Grouped.mapToHTTPRouteRules ns rules c) <> Err (Grouped.noBackend path)).
Proof.
  rewrite mapToHTTPRouteRules_eq. split; [reflexivity|]. split; [reflexivity|].
  intros path. cbn [snd]. unfold createHTTPRouteRules.
  destruct (createRulesLoop ns None rules [] c) as [c1 [plain|e]] eqn:E; cbn [snd];
    [discriminate|].
  intros He. injection He as ->.
  destruct (createRulesLoop_error_missing _ _ _ _ _ _ _ E)
    as (rule & paths & p & Hr & Hh & Hp & Hm).
  destruct (createRulesLoop_fails ns None rules rule paths p [] c Hr Hh Hp Hm) as [key Hk].
  rewrite Hk in E. discriminate E.
Qed.

(** *** Get or create *)

Lemma GetOrCreate_found key owner factory c resource :
  c_HTTPRoutes c !! key = Some resource ->
  GetOrCreate key owner factory c = (c, Ok resource).
Proof. intros H. unfold GetOrCreate. run_client. rewrite H. reflexivity. Qed.

Lemma GetOrCreate_absent key owner factory c :
  c_HTTPRoutes c !! key = None ->
  GetOrCreate key owner factory c
  = match factory c with
    | (c', Ok made) =>
        (storeHTTPRoute key (withIdentity key owner made) (WCreate key (withIdentity key owner made)) c',
         Ok (withIdentity key owner made))
    | (c', Err e) => (c', Err e)
    end.
Proof.
  intros H. unfold GetOrCreate. run_client. rewrite H.
  destruct (factory c) as [c' [made|e]]; reflexivity.
Qed.

(** X28: [GetOrCreate] on routes.  An object stored under the key is
    returned as it is, without running the factory and without a write,
    whoever owns it.  Otherwise the factory runs: its error is returned
    without a create; its object is created under the key with the name, the
    namespace and the single owner set, and that object is returned.  In
    both cases the object returned is the one stored afterwards, and a
    second call, with any owner and any factory, returns it again and
    leaves the cluster alone. *)
Theorem GetOrCreate_spec (key : NamespacedName) (owner : OwnerReference)
    (factory : Client HTTPRoute) (c : Cluster) :
  (forall resource,
      c_HTTPRoutes c !! key = Some resource ->
      GetOrCreate key owner factory c = (c, Ok resource))
  /\ (forall c1 e,
         GetOrCreate key owner factory c = (c1, Err e) ->
         c_HTTPRoutes c !! key = None /\ factory c = (c1, Err e))
  /\ (forall c1 obj,
         GetOrCreate key owner factory c = (c1, Ok obj) ->
         c_HTTPRoutes c1 !! key = Some obj
         /\ (c_HTTPRoutes c !! key = None ->
             exists c' made,
               factory c = (c', Ok made)
               /\ obj = withIdentity key owner made
               /\ c1 = storeHTTPRoute key obj (WCreate key obj) c')
         /\ (forall owner' factory', GetOrCreate key owner' factory' c1 = (c1, Ok obj))).
Proof.
  split; [intros resource; apply GetOrCreate_found|].
  destruct (c_HTTPRoutes c !! key) as [resource|] eqn:E.
  - rewrite (GetOrCreate_found key owner factory c resource E).
    split; [intros c1 e H; discriminate H|].
    intros c1 obj H. inversion H; subst. split; [exact E|].
    split; [intros H0; discriminate H0|].
    intros owner' factory'. apply GetOrCreate_found. exact E.
  - rewrite (GetOrCreate_absent key owner factory c E).
    destruct (factory c) as [c' [made|e']] eqn:Ef.
    + split; [intros c1 e H; discriminate H|].
      intros c1 obj H. inversion H; subst.
      assert (Hl : c_HTTPRoutes
                     (storeHTTPRoute key (withIdentity key owner made)
                        (WCreate key (withIdentity key owner made)) c') !! key
                   = Some (withIdentity key owner made))
        by (simpl; apply lookup_insert_eq).
      split; [exact Hl|]. split.
      * intros _. exists c', made. auto.
      * intros owner' factory'. apply GetOrCreate_found. exact Hl.
    + split.
      * intros c1 e H. inversion H; subst. auto.
      * intros c1 obj H. discriminate H.
Qed.

Example GetOrCreate_keeps_stored :
  GetOrCreate Fixtures.req Fixtures.owner (fail (ErrMessage "not reached"))
    (Fixtures.withRoute (Fixtures.routeOf Fixtures.foreignOwner))
  = (Fixtures.withRoute (Fixtures.routeOf Fixtures.foreignOwner),
     Ok (Fixtures.routeOf Fixtures.foreignOwner)).
Proof. reflexivity. Qed.

(** *** A pass of the revision that groups by hostname *)

Lemma servicesOnly_mapToHTTPRouteRules (ns : string) (rules : list IngressRule) :
  servicesOnly (Grouped.mapToHTTPRouteRules ns rules).
Proof.
  intros c c' H. rewrite !mapToHTTPRouteRules_eq. cbn [snd].
  rewrite (servicesOnly_createHTTPRouteRules ns rules None c c' H). reflexivity.
Qed.

(** The spec the loop body means to store for a hostname. *)
Lemma reconcileGroup_eq req owner visited hostname matchingRules c :
  Grouped.reconcileGroup req owner visited hostname matchingRules c
  = if (length (Grouped.findMatchingGateways hostname visited) =? 0)%nat then (c, Ok tt)
    else
      match snd (Grouped.mapToHTTPRouteRules (fst req) matchingRules c) with
      | Err e => (c, Err e)
      | Ok routeRules =>
          if (length routeRules =? 0)%nat then (c, Ok tt)
          else
            (fst (reconcileHTTPRoute (groupKey req hostname) owner
                    {| rs_ParentRefs := Grouped.findMatchingGateways hostname visited;
                       rs_Hostnames :=
                         if negb (String.eqb hostname EmptyString) then [hostname] else [];
                       rs_Rules := routeRules |} c),
             Ok tt)
      end.
Proof.
  unfold Grouped.reconcileGroup.
  destruct (length (Grouped.findMatchingGateways hostname visited) =? 0)%nat; [reflexivity|].
  unfold bind at 1. rewrite mapToHTTPRouteRules_eq. cbn [snd].
  destruct (snd (createHTTPRouteRules (fst req) matchingRules None c)) as [plain|e];
    [|reflexivity].
  destruct (length _ =? 0)%nat; [reflexivity|].
  unfold bind, groupKey.
  match goal with
  | |- context [reconcileHTTPRoute ?k ?o ?s c] =>
      destruct (reconcileHTTPRoute_cases k o s c)
        as [(x & _ & E)|(obj & w & x & E & _)]; rewrite E; reflexivity
  end.
Qed.

Lemma reconcileGroup_frame req owner visited hostname matchingRules c :
  sameInputs c (fst (Grouped.reconcileGroup req owner visited hostname matchingRules c))
  /\ forall other,
       other <> groupKey req hostname ->
       c_HTTPRoutes (fst (Grouped.reconcileGroup req owner visited hostname matchingRules c))
         !! other
       = c_HTTPRoutes c !! other.
Proof.
  rewrite reconcileGroup_eq.
  destruct (length (Grouped.findMatchingGateways hostname visited) =? 0)%nat;
    [split; [apply sameInputs_refl | reflexivity]|].
  destruct (snd (Grouped.mapToHTTPRouteRules (fst req) matchingRules c)) as [routeRules|e];
    [|split; [apply sameInputs_refl | reflexivity]].
  destruct (length routeRules =? 0)%nat; [split; [apply sameInputs_refl | reflexivity]|].
  cbn [fst].
  match goal with
  | |- context [reconcileHTTPRoute ?k ?o ?s c] =>
      destruct (reconcileHTTPRoute_cases k o s c)
        as [(x & _ & E)|(obj & w & x & E & _)]; rewrite E; simpl
  end.
  - split; [apply sameInputs_refl | reflexivity].
  - split; [repeat split|]. intros other Hne. apply lookup_insert_ne. congruence.
Qed.

Lemma reconcileHTTPRoute_local name owner spec c d :
  c_HTTPRoutes c !! name = c_HTTPRoutes d !! name ->
  c_HTTPRoutes (fst (reconcileHTTPRoute name owner spec c)) !! name
  = c_HTTPRoutes (fst (reconcileHTTPRoute name owner spec d)) !! name.
Proof.
  intros H. unfold reconcileHTTPRoute. run_client. rewrite <- H.
  destruct (c_HTTPRoutes c !! name) as [route|] eqn:E.
  - destruct (isOwnedBy (hr_Meta route) owner); [|simpl; congruence].
    destruct (negb (isEqual (hr_Spec route) spec)); simpl; [|congruence].
    rewrite !lookup_insert_eq. reflexivity.
  - simpl. rewrite !lookup_insert_eq. reflexivity.
Qed.

Lemma reconcileGroup_local req owner visited hostname matchingRules c d :
  c_Services c = c_Services d ->
  c_HTTPRoutes c !! groupKey req hostname = c_HTTPRoutes d !! groupKey req hostname ->
  snd (Grouped.reconcileGroup req owner visited hostname matchingRules c)
  = snd (Grouped.reconcileGroup req owner visited hostname matchingRules d)
  /\ c_HTTPRoutes (fst (Grouped.reconcileGroup req owner visited hostname matchingRules c))
       !! groupKey req hostname
     = c_HTTPRoutes (fst (Grouped.reconcileGroup req owner visited hostname matchingRules d))
         !! groupKey req hostname.
Proof.
  intros Hs Hl. rewrite !reconcileGroup_eq.
  destruct (length (Grouped.findMatchingGateways hostname visited) =? 0)%nat; [auto|].
  rewrite (servicesOnly_mapToHTTPRouteRules (fst req) matchingRules c d Hs).
  destruct (snd (Grouped.mapToHTTPRouteRules (fst req) matchingRules d)) as [routeRules|e];
    [|auto].
  destruct (length routeRules =? 0)%nat; [auto|].
  cbn [fst snd]. split; [reflexivity|]. apply reconcileHTTPRoute_local. exact Hl.
Qed.

Lemma reconcileGroup_result req owner visited hostname matchingRules c :
  snd (Grouped.reconcileGroup req owner visited hostname matchingRules c) = Ok tt
  \/ exists e, Grouped.reconcileGroup req owner visited hostname matchingRules c = (c, Err e).
Proof.
  rewrite reconcileGroup_eq.
  destruct (length (Grouped.findMatchingGateways hostname visited) =? 0)%nat; [auto|].
  destruct (snd (Grouped.mapToHTTPRouteRules (fst req) matchingRules c)) as [routeRules|e];
    [|eauto].
  destruct (length routeRules =? 0)%nat; auto.
Qed.

Lemma servicesOnly_reconcileGroup req owner visited hostname matchingRules :
  servicesOnly (Grouped.reconcileGroup req owner visited hostname matchingRules).
Proof.
  intros c d Hs. rewrite !reconcileGroup_eq.
  destruct (length (Grouped.findMatchingGateways hostname visited) =? 0)%nat; [reflexivity|].
  rewrite (servicesOnly_mapToHTTPRouteRules (fst req) matchingRules c d Hs).
  destruct (snd (Grouped.mapToHTTPRouteRules (fst req) matchingRules d)) as [routeRules|e];
    [|reflexivity].
  destruct (length routeRules =? 0)%nat; reflexivity.
Qed.

Lemma reconcileGroups_cons req owner vis hostname matchingRules rest c :
  Grouped.reconcileGroups req owner vis ((hostname, matchingRules) :: rest) c
  = match snd (Grouped.reconcileGroup req owner (vis hostname) hostname matchingRules c) with
    | Ok _ =>
        Grouped.reconcileGroups req owner vis rest
          (fst (Grouped.reconcileGroup req owner (vis hostname) hostname matchingRules c))
    | Err e => (c, Err e)
    end.
Proof.
  cbn [Grouped.reconcileGroups]. unfold bind at 1.
  destruct (reconcileGroup_result req owner (vis hostname) hostname matchingRules c)
    as [H|[e H]].
  - destruct (Grouped.reconcileGroup req owner (vis hostname) hostname matchingRules c)
      as [c1 [[]|e]]; [reflexivity | discriminate H].
  - rewrite H. reflexivity.
Qed.

(** Whether the loop ends without an error can be read off the cluster it
    starts from, one entry at a time. *)
Lemma reconcileGroups_ok req owner vis entries :
  forall c,
    snd (Grouped.reconcileGroups req owner vis entries c) = Ok tt
    <-> forall hostname matchingRules,
          In (hostname, matchingRules) entries ->
          snd (Grouped.reconcileGroup req owner (vis hostname) hostname matchingRules c) = Ok tt.
Proof.
  induction entries as [|[h rs] rest IH]; intros c.
  - split; [intros _ ? ? [] | reflexivity].
  - rewrite reconcileGroups_cons.
    destruct (reconcileGroup_frame req owner (vis h) h rs c) as [(_ & _ & Hsv) _].
    destruct (snd (Grouped.reconcileGroup req owner (vis h) h rs c)) as [[]|e] eqn:E.
    + rewrite IH. split.
      * intros H h' rs' [Heq|Hin]; [inversion Heq; subst; exact E|].
        rewrite <- (H h' rs' Hin). symmetry.
        apply servicesOnly_reconcileGroup. exact Hsv.
      * intros H h' rs' Hin. rewrite <- (H h' rs' (or_intror Hin)).
        apply servicesOnly_reconcileGroup. exact Hsv.
    + cbn [snd]. split; [discriminate|].
      intros H. rewrite (H h rs (or_introl eq_refl)) in E. discriminate E.
Qed.

(** After a loop that ended without an error, the route stored under the
    key of an entry is the one the body of that entry stores when it runs
    first; a key of no entry holds what it held. *)
Lemma reconcileGroups_routes req owner vis entries :
  forall c,
    List.NoDup (List.map (fun entry => groupKey req (fst entry)) entries) ->
    snd (Grouped.reconcileGroups req owner vis entries c) = Ok tt ->
    sameInputs c (fst (Grouped.reconcileGroups req owner vis entries c))
    /\ forall key,
         (forall hostname matchingRules,
             In (hostname, matchingRules) entries ->
             groupKey req hostname = key ->
             c_HTTPRoutes (fst (Grouped.reconcileGroups req owner vis entries c)) !! key
             = c_HTTPRoutes
                 (fst (Grouped.reconcileGroup req owner (vis hostname) hostname matchingRules c))
                 !! key)
         /\ ((forall hostname matchingRules,
                 In (hostname, matchingRules) entries -> groupKey req hostname <> key) ->
             c_HTTPRoutes (fst (Grouped.reconcileGroups req owner vis entries c)) !! key
             = c_HTTPRoutes c !! key).
Proof.
  induction entries as [|[h rs] rest IH]; intros c Hnd Hok.
  - split; [apply sameInputs_refl|]. intros key. split; [intros ? ? []|reflexivity].
  - rewrite reconcileGroups_cons in Hok |- *.
    destruct (reconcileGroup_frame req owner (vis h) h rs c) as [Hsame Hframe].
    destruct (snd (Grouped.reconcileGroup req owner (vis h) h rs c)) as [[]|e] eqn:E;
      [|discriminate Hok].
    cbn [List.map fst] in Hnd. apply List.NoDup_cons_iff in Hnd as [Hnotin Hnd].
    destruct (IH _ Hnd Hok) as [IHsame IHkeys].
    split; [apply (sameInputs_trans _ _ _ Hsame IHsame)|].
    assert (Hrest : forall h' rs', In (h', rs') rest -> groupKey req h' <> groupKey req h).
    { intros h' rs' Hin Heq. apply Hnotin. rewrite <- Heq.
      apply (List.in_map (fun entry => groupKey req (fst entry)) rest (h', rs') Hin). }
    intros key. destruct (IHkeys key) as [IH1 IH2]. split.
    + intros h' rs' [Heq|Hin] Hk.
      * inversion Heq; subst h' rs'. apply IH2.
        intros h2 rs2 Hin2. rewrite <- Hk. apply (Hrest h2 rs2 Hin2).
      * rewrite (IH1 h' rs' Hin Hk). subst key.
        apply reconcileGroup_local.
        -- destruct Hsame as (_ & _ & Hsv). exact Hsv.
        -- apply Hframe. apply (Hrest h' rs' Hin).
    + intros Hnone. rewrite IH2.
      * apply Hframe. intros Heq. apply (Hnone h rs (or_introl eq_refl)). symmetry. exact Heq.
      * intros h' rs' Hin. apply (Hnone h' rs'). right. exact Hin.
Qed.

Lemma reconcileGroups_ranges req owner ns gateways vis vis' entries :
  (forall hostname,
      visits (Grouped.groupGatewaysByHostNameAndMapToParentRefs ns gateways) (vis hostname)) ->
  (forall hostname,
      visits (Grouped.groupGatewaysByHostNameAndMapToParentRefs ns gateways) (vis' hostname)) ->
  forall c,
    Grouped.reconcileGroups req owner vis entries c
    = Grouped.reconcileGroups req owner vis' entries c.
Proof.
  intros Hv Hv'. induction entries as [|[h rs] rest IH]; intros c; [reflexivity|].
  rewrite !reconcileGroups_cons, !reconcileGroup_eq.
  rewrite (findMatchingGateways_closed ns h gateways (vis h) (Hv h)).
  rewrite (findMatchingGateways_closed ns h gateways (vis' h) (Hv' h)).
  destruct (length _ =? 0)%nat; cbn [fst snd]; [apply IH|].
  destruct (snd (Grouped.mapToHTTPRouteRules (fst req) rs c)) as [routeRules|e];
    [|reflexivity].
  destruct (length routeRules =? 0)%nat; cbn [fst snd]; apply IH.
Qed.

Lemma In_entry_key req (entries : list (string * list IngressRule)) (key : NamespacedName) :
  (exists hostname matchingRules,
      In (hostname, matchingRules) entries /\ groupKey req hostname = key)
  \/ (forall hostname matchingRules,
         In (hostname, matchingRules) entries -> groupKey req hostname <> key).
Proof.
  induction entries as [|[h rs] rest IH].
  - right. intros ? ? [].
  - destruct (decide (groupKey req h = key)) as [E|E].
    + left. exists h, rs. split; [left; reflexivity | exact E].
    + destruct IH as [(h' & rs' & Hin & Hk)|Hnone].
      * left. exists h', rs'. split; [right; exact Hin | exact Hk].
      * right. intros h' rs' [Heq|Hin]; [inversion Heq; subst; exact E | apply (Hnone _ _ Hin)].
Qed.

(** Two loops over the same entries in different orders: both end without
    an error or neither does, and when they do they leave the same routes. *)
Lemma reconcileGroups_any_order req owner vis entries entries' c :
  Permutation entries entries' ->
  List.NoDup (List.map (fun entry => groupKey req (fst entry)) entries) ->
  (snd (Grouped.reconcileGroups req owner vis entries c) = Ok tt
   <-> snd (Grouped.reconcileGroups req owner vis entries' c) = Ok tt)
  /\ (snd (Grouped.reconcileGroups req owner vis entries c) = Ok tt ->
      c_HTTPRoutes (fst (Grouped.reconcileGroups req owner vis entries c))
      = c_HTTPRoutes (fst (Grouped.reconcileGroups req owner vis entries' c))).
Proof.
  intros Hp Hnd.
  assert (Hiff : snd (Grouped.reconcileGroups req owner vis entries c) = Ok tt
                 <-> snd (Grouped.reconcileGroups req owner vis entries' c) = Ok tt).
  { rewrite !reconcileGroups_ok. split; intros H h rs Hin; apply H.
    - apply (Permutation_in _ (Permutation_sym Hp) Hin).
    - apply (Permutation_in _ Hp Hin). }
  split; [exact Hiff|]. intros Hok.
  assert (Hnd' : List.NoDup (List.map (fun entry => groupKey req (fst entry)) entries')).
  { apply (Permutation_NoDup (Permutation_map _ Hp) Hnd). }
  destruct (reconcileGroups_routes req owner vis entries c Hnd Hok) as [_ H1].
  destruct (reconcileGroups_routes req owner vis entries' c Hnd' (proj1 Hiff Hok)) as [_ H2].
  apply map_eq. intros key.
  destruct (H1 key) as [H1a H1b]. destruct (H2 key) as [H2a H2b].
  destruct (In_entry_key req entries key) as [(h & rs & Hin & Hk)|Hnone].
  - rewrite (H1a h rs Hin Hk). symmetry. apply (H2a h rs); [|exact Hk].
    apply (Permutation_in _ Hp Hin).
  - rewrite (H1b Hnone). symmetry. apply H2b. intros h rs Hin.
    apply (Hnone h rs). apply (Permutation_in _ (Permutation_sym Hp) Hin).
Qed.

Lemma NoDup_map_on {A B} (f : A -> B) (l : list A) :
  (forall a b, In a l -> In b l -> f a = f b -> a = b) ->
  List.NoDup l -> List.NoDup (List.map f l).
Proof.
  intros Hinj Hnd. induction Hnd as [|a l Hnotin Hnd IH]; [constructor|].
  cbn [List.map]. constructor.
  - intros Hin. apply List.in_map_iff in Hin as (b & Hb & Hin).
    apply Hnotin. rewrite (Hinj a b (or_introl eq_refl) (or_intror Hin) (eq_sym Hb)).
    exact Hin.
  - apply IH. intros x y Hx Hy. apply Hinj; right; assumption.
Qed.

Lemma map_to_list_keys_NoDup {V} (m : gmap string V) :
  List.NoDup (List.map fst (map_to_list m)).
Proof. apply NoDup_ListNoDup. apply (NoDup_fst_map_to_list m). Qed.

Lemma groupKeys_NoDup req (rules : list IngressRule)
    (entries : list (string * list IngressRule)) :
  visits (Grouped.groupRulesByHostname rules) entries ->
  (forall rule rule',
      In rule rules -> In rule' rules ->
      Grouped.generateHTTPRouteName (snd req) (rule_Host rule)
      = Grouped.generateHTTPRouteName (snd req) (rule_Host rule') ->
      rule_Host rule = rule_Host rule') ->
  List.NoDup (List.map (fun entry => groupKey req (fst entry)) entries).
Proof.
  intros Hv Hinj.
  assert (Hhost : forall h, In h (List.map fst entries) -> exists rule, In rule rules /\ rule_Host rule = h).
  { intros h Hin. apply List.in_map_iff in Hin as ([h' rs] & <- & Hin).
    apply (Permutation_in _ Hv) in Hin. apply list_elem_of_In in Hin.
    apply elem_of_map_to_list in Hin.
    apply (groupRulesByHostname_entry rules h' rs Hin). }
  rewrite <- (List.map_map fst (groupKey req)).
  apply NoDup_map_on.
  - intros h h' Hh Hh' E. destruct (Hhost h Hh) as (rule & Hr & <-).
    destruct (Hhost h' Hh') as (rule' & Hr' & <-).
    apply (Hinj rule rule' Hr Hr'). unfold groupKey in E. congruence.
  - apply (Permutation_NoDup (Permutation_sym (Permutation_map fst Hv))).
    apply map_to_list_keys_NoDup.
Qed.

(** X29: a pass of the revision that groups by hostname does not depend on
    the order in which Go visits its maps, as long as different hostnames of
    the ingress get different route names: two passes over the same cluster
    both end without an error or both fail, and those that end without an
    error store the same routes.  Ingresses, gateways and services are
    never changed. *)
Theorem Reconcile_grouped_any_order (ranges ranges' : Grouped.Ranges) (req : NamespacedName)
    (c : Cluster) :
  validRanges ranges ->
  validRanges ranges' ->
  (forall ingress rule rule',
      c_Ingresses c !! req = Some ingress ->
      In rule (ispec_Rules (ing_Spec ingress)) ->
      In rule' (ispec_Rules (ing_Spec ingress)) ->
      Grouped.generateHTTPRouteName (snd req) (rule_Host rule)
      = Grouped.generateHTTPRouteName (snd req) (rule_Host rule') ->
      rule_Host rule = rule_Host rule') ->
  (snd (Grouped.Reconcile ranges req c) = Ok tt
   <-> snd (Grouped.Reconcile ranges' req c) = Ok tt)
  /\ (snd (Grouped.Reconcile ranges req c) = Ok tt ->
      c_HTTPRoutes (fst (Grouped.Reconcile ranges req c))
      = c_HTTPRoutes (fst (Grouped.Reconcile ranges' req c))
      /\ sameInputs c (fst (Grouped.Reconcile ranges req c))).
Proof.
  intros [Hr Hg] [Hr' Hg'] Hinj. unfold Grouped.Reconcile.
  destruct (c_Ingresses c !! req) as [ingress|] eqn:Ei;
    [|split; [reflexivity | intros _; split; [reflexivity | apply sameInputs_refl]]].
  destruct (length (c_Gateways c) =? 0)%nat;
    [split; [reflexivity | intros _; split; [reflexivity | apply sameInputs_refl]]|].
  destruct (length (ispec_Rules (ing_Spec ingress)) =? 0)%nat;
    [split; [reflexivity | intros _; split; [reflexivity | apply sameInputs_refl]]|].
  cbv zeta.
  rewrite (reconcileGroups_ranges req (createOwnerReference ingress) (ing_Namespace ingress)
             (c_Gateways c)
             (fun hostname =>
                Grouped.rangeRefs ranges' hostname
                  (Grouped.groupGatewaysByHostNameAndMapToParentRefs (ing_Namespace ingress)
                     (c_Gateways c)))
             (fun hostname =>
                Grouped.rangeRefs ranges hostname
                  (Grouped.groupGatewaysByHostNameAndMapToParentRefs (ing_Namespace ingress)
                     (c_Gateways c))));
    [|intros h; apply Hg' | intros h; apply Hg].
  assert (Hnd : List.NoDup
                  (List.map (fun entry => groupKey req (fst entry))
                     (Grouped.rangeRules ranges
                        (Grouped.groupRulesByHostname (ispec_Rules (ing_Spec ingress)))))).
  { apply (groupKeys_NoDup req (ispec_Rules (ing_Spec ingress))); [apply Hr|].
    intros rule rule'. apply (Hinj ingress rule rule' eq_refl). }
  match goal with
  | |- context [Grouped.reconcileGroups req ?o ?v (Grouped.rangeRules ranges ?m) c] =>
      destruct (reconcileGroups_any_order req o v (Grouped.rangeRules ranges m)
                  (Grouped.rangeRules ranges' m) c) as [H1 H2];
        [rewrite (Hr m); symmetry; apply (Hr' m) | exact Hnd |];
        pose proof (reconcileGroups_routes req o v (Grouped.rangeRules ranges m) c Hnd) as H3
  end.
  split; [exact H1|]. intros Hok. split; [apply (H2 Hok) | apply (H3 Hok)].
Qed.

Lemma Reconcile_grouped_any_order_witness :
  (snd (Grouped.Reconcile Fixtures.forwards Fixtures.req
          (Fixtures.cluster Fixtures.twoHosts Fixtures.mixed)) = Ok tt
   <-> snd (Grouped.Reconcile Fixtures.backwards Fixtures.req
              (Fixtures.cluster Fixtures.twoHosts Fixtures.mixed)) = Ok tt)
  /\ (snd (Grouped.Reconcile Fixtures.forwards Fixtures.req
             (Fixtures.cluster Fixtures.twoHosts Fixtures.mixed)) = Ok tt ->
      c_HTTPRoutes (fst (Grouped.Reconcile Fixtures.forwards Fixtures.req
                           (Fixtures.cluster Fixtures.twoHosts Fixtures.mixed)))
      = c_HTTPRoutes (fst (Grouped.Reconcile Fixtures.backwards Fixtures.req
                             (Fixtures.cluster Fixtures.twoHosts Fixtures.mixed)))
      /\ sameInputs (Fixtures.cluster Fixtures.twoHosts Fixtures.mixed)
           (fst (Grouped.Reconcile Fixtures.forwards Fixtures.req
                   (Fixtures.cluster Fixtures.twoHosts Fixtures.mixed)))).
Proof.
  apply (Reconcile_grouped_any_order Fixtures.forwards Fixtures.backwards Fixtures.req
           (Fixtures.cluster Fixtures.twoHosts Fixtures.mixed)).
  - split; intros; unfold visits; reflexivity.
  - split; intros; unfold visits; simpl; symmetry; apply Permutation_rev.
  - intros ingress rule rule' H. vm_compute in H. inversion H. simpl.
    intros [<-|[<-|[]]] [<-|[<-|[]]]; vm_compute; congruence.
Defined.

(** The two orders of visit issue the creates of [twoHosts] in different
    orders. *)
Example Reconcile_grouped_writes_order :
  List.map (fun w => match w with WCreate key _ | WUpdate key _ => snd key end)
    (c_Writes (fst (Grouped.Reconcile Fixtures.forwards Fixtures.req
                      (Fixtures.cluster Fixtures.twoHosts Fixtures.mixed))))
  = rev (List.map (fun w => match w with WCreate key _ | WUpdate key _ => snd key end)
           (c_Writes (fst (Grouped.Reconcile Fixtures.backwards Fixtures.req
                             (Fixtures.cluster Fixtures.twoHosts Fixtures.mixed)))))
  /\ length (c_Writes (fst (Grouped.Reconcile Fixtures.forwards Fixtures.req
                              (Fixtures.cluster Fixtures.twoHosts Fixtures.mixed)))) = 2%nat.
Proof. split; vm_compute; reflexivity. Qed.

(** When two hostnames get the same route name the order of visit shows in
    the store: the route holds the hostname visited last. *)
Example Reconcile_grouped_collision :
  option_map (fun route => rs_Hostnames (hr_Spec route))
    (c_HTTPRoutes (fst (Grouped.Reconcile Fixtures.forwards Fixtures.req
                          (Fixtures.cluster Fixtures.dotDash [Fixtures.catchAll])))
       !! ("demo", "web-a-b"))
  <> option_map (fun route => rs_Hostnames (hr_Spec route))
       (c_HTTPRoutes (fst (Grouped.Reconcile Fixtures.backwards Fixtures.req
                             (Fixtures.cluster Fixtures.dotDash [Fixtures.catchAll])))
          !! ("demo", "web-a-b")).
Proof. vm_compute. discriminate. Qed.

Lemma groupRulesByHostname_has (rules : list IngressRule) (rule : IngressRule) :
  In rule rules ->
  Grouped.groupRulesByHostname rules !! rule_Host rule
  = Some (matchingRulesFor (rule_Host rule) rules).
Proof.
  intros Hin. unfold Grouped.groupRulesByHostname.
  destruct (groupRulesByHostname_from rules (rule_Host rule) ∅) as [G1 G2].
  rewrite lookup_empty in G1, G2. simpl in G1.
  destruct (proj2 G2 (or_intror (ex_intro _ rule (conj Hin eq_refl)))) as [rs Hrs].
  rewrite Hrs in G1 |- *. simpl in G1. rewrite G1. reflexivity.
Qed.

Lemma reconcileGroup_fresh req ingress gateways visited hostname matchingRules c :
  visits (Grouped.groupGatewaysByHostNameAndMapToParentRefs (ing_Namespace ingress) gateways)
    visited ->
  matchingRules = matchingRulesFor hostname (ispec_Rules (ing_Spec ingress)) ->
  snd (Grouped.reconcileGroup req (createOwnerReference ingress) visited hostname
         matchingRules c) = Ok tt ->
  c_HTTPRoutes c !! groupKey req hostname = None ->
  c_HTTPRoutes
    (fst (Grouped.reconcileGroup req (createOwnerReference ingress) visited hostname
            matchingRules c)) !! groupKey req hostname
  = plannedGroupRoute req ingress gateways c hostname.
Proof.
  intros Hv -> Hok Hn. rewrite reconcileGroup_eq in Hok |- *. unfold plannedGroupRoute.
  cbv zeta.
  rewrite (findMatchingGateways_closed (ing_Namespace ingress) hostname gateways visited Hv)
    in Hok |- *.
  destruct (length _ =? 0)%nat; [exact Hn|].
  destruct (snd (Grouped.mapToHTTPRouteRules (fst req)
                   (matchingRulesFor hostname (ispec_Rules (ing_Spec ingress))) c))
    as [routeRules|e]; [|discriminate Hok].
  destruct (length routeRules =? 0)%nat; [exact Hn|].
  rewrite (reconcileHTTPRoute_create c (groupKey req hostname) _ _ Hn).
  cbn [fst]. simpl. rewrite lookup_insert_eq.
  destruct (String.eqb hostname EmptyString); reflexivity.
Qed.

(** X30: what a pass of the grouped revision stores.  When different
    hostnames get different route names and the pass ends without an error,
    then for every hostname of a rule whose route name is not taken the
    store holds the planned route and nothing else under that name: owned
    by the ingress, attached to the sorted references of the listeners that
    take the hostname, with the translated rules sorted, and with the
    hostname as its only hostname, or with no hostname at all for the rules
    without a host, whose route is named like the ingress.  No order of
    visit enters the result. *)
Theorem Reconcile_grouped_stored (ranges : Grouped.Ranges) (req : NamespacedName)
    (c c1 : Cluster) (ingress : Ingress) (rule : IngressRule) :
  validRanges ranges ->
  c_Ingresses c !! req = Some ingress ->
  c_Gateways c <> [] ->
  (forall rule rule',
      In rule (ispec_Rules (ing_Spec ingress)) ->
      In rule' (ispec_Rules (ing_Spec ingress)) ->
      Grouped.generateHTTPRouteName (snd req) (rule_Host rule)
      = Grouped.generateHTTPRouteName (snd req) (rule_Host rule') ->
      rule_Host rule = rule_Host rule') ->
  Grouped.Reconcile ranges req c = (c1, Ok tt) ->
  In rule (ispec_Rules (ing_Spec ingress)) ->
  c_HTTPRoutes c !! groupKey req (rule_Host rule) = None ->
  c_HTTPRoutes c1 !! groupKey req (rule_Host rule)
  = plannedGroupRoute req ingress (c_Gateways c) c (rule_Host rule)
  /\ (forall route,
         plannedGroupRoute req ingress (c_Gateways c) c (rule_Host rule) = Some route ->
         om_Name (hr_Meta route) = Grouped.generateHTTPRouteName (snd req) (rule_Host rule)
         /\ om_OwnerReferences (hr_Meta route) = [createOwnerReference ingress]
         /\ (rule_Host rule = EmptyString ->
             om_Name (hr_Meta route) = snd req /\ rs_Hostnames (hr_Spec route) = [])
         /\ (rule_Host rule <> EmptyString ->
             rs_Hostnames (hr_Spec route) = [rule_Host rule])
         /\ rs_Rules (hr_Spec route) <> []
         /\ rs_ParentRefs (hr_Spec route) <> []).
Proof.
  intros [Hr Hg] Ei Hgw Hinj Hpass Hin Hfree. split.
  - unfold Grouped.Reconcile in Hpass. rewrite Ei in Hpass.
    destruct (c_Gateways c) as [|g gs] eqn:Eg; [contradiction|].
    rewrite <- Eg in *.
    replace (length (c_Gateways c) =? 0)%nat with false in Hpass by (rewrite Eg; reflexivity).
    destruct (ispec_Rules (ing_Spec ingress)) as [|r0 rs0] eqn:Er; [destruct Hin|].
    rewrite <- Er in *.
    replace (length (ispec_Rules (ing_Spec ingress)) =? 0)%nat with false in Hpass
      by (rewrite Er; reflexivity).
    cbv zeta in Hpass.
    match type of Hpass with
    | Grouped.reconcileGroups req ?o ?v ?entries c = _ =>
        assert (Hnd : List.NoDup (List.map (fun entry => groupKey req (fst entry)) entries))
          by (apply (groupKeys_NoDup req (ispec_Rules (ing_Spec ingress)));
              [apply Hr | exact Hinj]);
        assert (Hok : snd (Grouped.reconcileGroups req o v entries c) = Ok tt)
          by (rewrite Hpass; reflexivity);
        destruct (reconcileGroups_routes req o v entries c Hnd Hok) as [_ Hkeys];
        destruct (Hkeys (groupKey req (rule_Host rule))) as [Hkey _];
        assert (Hentry : In (rule_Host rule,
                             matchingRulesFor (rule_Host rule) (ispec_Rules (ing_Spec ingress)))
                           entries);
        [ apply (Permutation_in _ (Permutation_sym (Hr _)));
          apply list_elem_of_In; apply elem_of_map_to_list;
          apply groupRulesByHostname_has; exact Hin
        | pose proof (Hkey _ _ Hentry eq_refl) as Hstored;
          pose proof (proj1 (reconcileGroups_ok req o v entries c) Hok _ _ Hentry) as Hstep ]
    end.
    rewrite Hpass in Hstored. cbn [fst] in Hstored. rewrite Hstored.
    apply reconcileGroup_fresh; [apply Hg | reflexivity | exact Hstep | exact Hfree].
  - intros route. unfold plannedGroupRoute. cbv zeta.
    destruct (length (GoSlices.SortStableFunc Grouped.compareParentRef _) =? 0)%nat eqn:Ep;
      [discriminate|].
    destruct (snd (Grouped.mapToHTTPRouteRules _ _ c)) as [routeRules|e]; [|discriminate].
    destruct (length routeRules =? 0)%nat eqn:El; [discriminate|].
    intros H. inversion H; subst route; clear H. cbn.
    split; [reflexivity|]. split; [reflexivity|]. split; [|split; [|split]].
    + intros ->. split; reflexivity.
    + intros Hne. apply String.eqb_neq in Hne. rewrite Hne. reflexivity.
    + intros E. rewrite E in El. discriminate El.
    + intros E. rewrite E in Ep. discriminate Ep.
Qed.

Lemma Reconcile_grouped_stored_witness :
  c_HTTPRoutes (fst (Grouped.Reconcile Fixtures.backwards Fixtures.req
                       (Fixtures.cluster Fixtures.hostless Fixtures.mixed)))
    !! groupKey Fixtures.req EmptyString
  = plannedGroupRoute Fixtures.req Fixtures.hostless Fixtures.mixed
      (Fixtures.cluster Fixtures.hostless Fixtures.mixed) EmptyString
  /\ (forall route,
         plannedGroupRoute Fixtures.req Fixtures.hostless Fixtures.mixed
           (Fixtures.cluster Fixtures.hostless Fixtures.mixed) EmptyString = Some route ->
         om_Name (hr_Meta route) = Grouped.generateHTTPRouteName (snd Fixtures.req) EmptyString
         /\ om_OwnerReferences (hr_Meta route) = [createOwnerReference Fixtures.hostless]
         /\ (EmptyString = EmptyString ->
             om_Name (hr_Meta route) = snd Fixtures.req /\ rs_Hostnames (hr_Spec route) = [])
         /\ (EmptyString <> EmptyString -> rs_Hostnames (hr_Spec route) = [EmptyString])
         /\ rs_Rules (hr_Spec route) <> []
         /\ rs_ParentRefs (hr_Spec route) <> []).
Proof.
  apply (Reconcile_grouped_stored Fixtures.backwards Fixtures.req
           (Fixtures.cluster Fixtures.hostless Fixtures.mixed)
           (fst (Grouped.Reconcile Fixtures.backwards Fixtures.req
                   (Fixtures.cluster Fixtures.hostless Fixtures.mixed)))
           Fixtures.hostless
           (Fixtures.hostRule EmptyString
              [Fixtures.prefixPath "/" (Fixtures.byNumber "s1" 80)])).
  - split; intros; unfold visits; simpl; symmetry; apply Permutation_rev.
  - reflexivity.
  - discriminate.
  - simpl. intros rule rule' [<-|[<-|[]]] [<-|[<-|[]]]; vm_compute; congruence.
  - vm_compute. reflexivity.
  - left. reflexivity.
  - reflexivity.
Defined.

Example plannedGroupRoute_hostless :
  option_map (fun route => (om_Name (hr_Meta route), rs_Hostnames (hr_Spec route),
                            List.map pr_SectionName (rs_ParentRefs (hr_Spec route))))
    (plannedGroupRoute Fixtures.req Fixtures.hostless Fixtures.mixed
       (Fixtures.cluster Fixtures.hostless Fixtures.mixed) EmptyString)
  = Some ("web", [], [Some "any"]).
Proof. vm_compute. reflexivity. Qed.
